(** * oyako: the HTTPProxy inclusion controller

    A shallow embedding of [controllers/httpproxy_controller.go] and the
    properties its specification states about it.

    The controller talks to the Kubernetes API server through
    [client.Client].  The API server is modelled as an in-memory object
    store with resource versions (optimistic concurrency), a script of
    injected call failures and a history of accepted writes; the
    controller's functions are written in a small state monad over it and
    follow the Go text statement by statement. *)

From Stdlib Require Import ZArith String Ascii List Lia Bool.
From stdpp Require Import base strings gmap list.

Open Scope Z_scope.

(** ** Data model *)

(** [k8s.io/apimachinery/pkg/apis/meta/v1]: the part of [ObjectMeta] the
    controller reads or writes.  [DeletionTimestamp] is a pointer to a time
    (an offset from the zero instant); [ResourceVersion] is the store's
    opaque version of the object. *)
Module v1.
Record ObjectMeta : Type := {
  Name : string;
  Namespace : string;
  ResourceVersion : nat;
  DeletionTimestamp : option Z;
  Annotations : gmap string string;
  Finalizers : list string
}.

(** [Time.IsZero] on the pointer: a nil pointer or the zero instant. *)
Definition IsZero (t : option Z) : bool :=
  match t with
  | None => true
  | Some instant => (instant =? 0)%Z
  end.
End v1.

(** [github.com/projectcontour/contour/apis/projectcontour/v1]: includes and
    their match conditions.  Of [HTTPProxySpec] only [Includes] is kept: the
    controller neither reads nor writes the other fields. *)
Module contourv1.
Record HeaderMatchCondition : Type := {
  HeaderName : string;
  Present : bool;
  NotPresent : bool;
  Contains : string;
  NotContains : string;
  Exact : string;
  NotExact : string
}.

Record MatchCondition : Type := {
  Prefix : string;
  Header : option HeaderMatchCondition
}.

Record Include : Type := {
  Name : string;
  Namespace : string;
  Conditions : list MatchCondition
}.

Record HTTPProxySpec : Type := {
  Includes : list Include
}.

Record HTTPProxy : Type := {
  ObjectMeta : v1.ObjectMeta;
  Spec : HTTPProxySpec
}.
End contourv1.

Import contourv1.

(** [client.ObjectKey]: (namespace, name). *)
Abbreviation ObjectKey := (string * string)%type.

Definition keyOf (h : HTTPProxy) : ObjectKey :=
  (v1.Namespace (ObjectMeta h), v1.Name (ObjectMeta h)).

(** Field assignments on the Go structs. *)
Definition setConditions (i : Include) (cs : list MatchCondition) : Include :=
  {| Name := Name i; Namespace := Namespace i; Conditions := cs |}.

Definition setIncludes (h : HTTPProxy) (l : list Include) : HTTPProxy :=
  {| ObjectMeta := ObjectMeta h; Spec := {| Includes := l |} |}.

Definition setFinalizers (h : HTTPProxy) (fs : list string) : HTTPProxy :=
  {| ObjectMeta :=
       {| v1.Name := v1.Name (ObjectMeta h);
          v1.Namespace := v1.Namespace (ObjectMeta h);
          v1.ResourceVersion := v1.ResourceVersion (ObjectMeta h);
          v1.DeletionTimestamp := v1.DeletionTimestamp (ObjectMeta h);
          v1.Annotations := v1.Annotations (ObjectMeta h);
          v1.Finalizers := fs |};
     Spec := Spec h |}.

Definition setResourceVersion (h : HTTPProxy) (rv : nat) : HTTPProxy :=
  {| ObjectMeta :=
       {| v1.Name := v1.Name (ObjectMeta h);
          v1.Namespace := v1.Namespace (ObjectMeta h);
          v1.ResourceVersion := rv;
          v1.DeletionTimestamp := v1.DeletionTimestamp (ObjectMeta h);
          v1.Annotations := v1.Annotations (ObjectMeta h);
          v1.Finalizers := v1.Finalizers (ObjectMeta h) |};
     Spec := Spec h |}.

(** Reading a Go [map[string]string]: a missing key reads as the empty
    string. *)
Definition annotation (m : v1.ObjectMeta) (key : string) : string :=
  default "" (v1.Annotations m !! key).

(** The constants of the controller. *)
Definition allowInclusionAnnotation : string := "oyako.atelierhsn.com/allow-inclusion".
Definition parentRefAnnotation : string := "oyako.atelierhsn.com/parent".
Definition pathPrefixAnnotation : string := "oyako.atelierhsn.com/prefix".
Definition finalizerName : string := "oyako.atelierhsn.com/finalizer".

(** ** Errors *)

(** What a [client.Client] call can fail with ([apierrors] status reasons). *)
Inductive ClientError : Type :=
| StatusNotFound
| StatusConflict
| StatusOther (msg : string).

(** The errors the controller returns: a client error passed on, or one of
    its three [xerrors.Errorf] messages. *)
Inductive error : Type :=
| ErrClient (e : ClientError)
| ErrInvalidParent (namespacedName : list string)   (* "invalid parent %s" *)
| ErrInclusionNotAllowed (parentRef : string)       (* "parent %s does not allow child inclusions" *)
| ErrDuplicatePrefix.                               (* "duplicate prefix" *)

(** [apierrors.IsNotFound]; a nil error is not a not-found error. *)
Definition IsNotFound (err : option error) : bool :=
  match err with
  | Some (ErrClient StatusNotFound) => true
  | _ => false
  end.

(** ** The object store behind [client.Client] *)

Record Cluster : Type := {
  objects : gmap ObjectKey HTTPProxy;       (* the stored HTTPProxy objects *)
  faults : list (option ClientError);        (* outcome injected into the next calls *)
  writes : list HTTPProxy                    (* accepted updates, newest first *)
}.

(** State monad over the store. *)
Definition M (A : Type) : Type := Cluster -> A * Cluster.

Definition ret {A : Type} (a : A) : M A := fun s => (a, s).

Definition bind {A B : Type} (m : M A) (k : A -> M B) : M B :=
  fun s => let (a, s') := m s in k a s'.

Notation "'let*' x ':=' m 'in' k" := (bind m (fun x => k))
  (at level 10, x pattern, m at level 100, k at level 200).

(** Every call consumes the next entry of the failure script; an exhausted
    script injects nothing. *)
Definition nextFault (s : Cluster) : option ClientError * Cluster :=
  (mjoin (head (faults s)),
   {| objects := objects s; faults := tail (faults s); writes := writes s |}).

(** [Client.Get]. *)
Definition clientGet (key : ObjectKey) : M (error + HTTPProxy) :=
  fun s =>
    let (fault, s1) := nextFault s in
    match fault with
    | Some e => (inl (ErrClient e), s1)
    | None =>
        match objects s1 !! key with
        | None => (inl (ErrClient StatusNotFound), s1)
        | Some h => (inr h, s1)
        end
    end.

(** [Client.Update]: a whole-object replace, refused when the object is
    gone or was changed since it was read; an accepted update gets the next
    resource version, which the caller's copy receives too. *)
Definition clientUpdate (h : HTTPProxy) : M (error + HTTPProxy) :=
  fun s =>
    let (fault, s1) := nextFault s in
    match fault with
    | Some e => (inl (ErrClient e), s1)
    | None =>
        match objects s1 !! keyOf h with
        | None => (inl (ErrClient StatusNotFound), s1)
        | Some cur =>
            if Nat.eqb (v1.ResourceVersion (ObjectMeta cur)) (v1.ResourceVersion (ObjectMeta h))
            then
              let h' := setResourceVersion h (S (v1.ResourceVersion (ObjectMeta h))) in
              (inr h',
               {| objects := <[keyOf h := h']> (objects s1);
                  faults := faults s1;
                  writes := h' :: writes s1 |})
            else (inl (ErrClient StatusConflict), s1)
        end
    end.

(** The store erases an object once its deletion was requested and its
    finalizer list is empty. *)
Definition erasable (h : HTTPProxy) : bool :=
  negb (v1.IsZero (v1.DeletionTimestamp (ObjectMeta h)))
  && match v1.Finalizers (ObjectMeta h) with [] => true | _ => false end.

(** The store's own step on an object: it is erased if it may be.  The API
    server takes this step within the request that leaves an object
    erasable, an [Update] that empties its finalizer list included;
    [clientUpdate] is the replace alone, so after such an update [objects]
    still holds the object until this step is taken. *)
Definition storeFinalize (key : ObjectKey) (s : Cluster) : Cluster :=
  match objects s !! key with
  | Some h =>
      if erasable h
      then {| objects := delete key (objects s); faults := faults s; writes := writes s |}
      else s
  | None => s
  end.

(** ** Library functions the controller calls *)

(** [strings.Split(s, sep)] for a one-byte separator: the segments between
    the occurrences of [sep], one more than there are occurrences. *)
Fixpoint Split (s : string) (sep : ascii) : list string :=
  match s with
  | EmptyString => [EmptyString]
  | String c rest =>
      if Ascii.eqb c sep then EmptyString :: Split rest sep
      else
        match Split rest sep with
        | seg :: segs => String c seg :: segs
        | [] => [String c EmptyString]
        end
  end.

(** [controllerutil.AddFinalizer]. *)
Definition AddFinalizer (h : HTTPProxy) (finalizer : string) : HTTPProxy :=
  let f := v1.Finalizers (ObjectMeta h) in
  if existsb (String.eqb finalizer) f then h
  else setFinalizers h (f ++ [finalizer]).

(** [controllerutil.RemoveFinalizer]: every occurrence is dropped. *)
Definition RemoveFinalizer (h : HTTPProxy) (finalizer : string) : HTTPProxy :=
  setFinalizers h
    (List.filter (fun e => negb (String.eqb e finalizer)) (v1.Finalizers (ObjectMeta h))).

(** [ctrl.Result]. *)
Record Result : Type := { Requeue : bool; RequeueAfter : Z }.
Definition emptyResult : Result := {| Requeue := false; RequeueAfter := 0 |}.

(** ** The controller *)

(** The functions of [HTTPProxyReconciler], in the order of the Go file.  A
    Go function that returns [(value, error)] returns a sum or a pair with
    an optional error here; [log] calls are left out. *)

(** [hasFinalizer]: the loop over [h.GetFinalizers()]. *)
Fixpoint hasFinalizer_loop (fs : list string) (finalizer : string) : bool :=
  match fs with
  | [] => false
  | f :: rest => if String.eqb f finalizer then true else hasFinalizer_loop rest finalizer
  end.

Definition hasFinalizer (h : HTTPProxy) (finalizer : string) : bool :=
  hasFinalizer_loop (v1.Finalizers (ObjectMeta h)) finalizer.

(** [getParentProxy]: split the reference on [/], refuse anything but two
    segments, fetch the object the two segments name. *)
Definition getParentProxy (parentRef : string) : M (error + HTTPProxy) :=
  let namespacedName := Split parentRef "/" in
  if negb (Nat.eqb (length namespacedName) 2)
  then ret (inl (ErrInvalidParent namespacedName))
  else
    let key := (nth 0 namespacedName "", nth 1 namespacedName "") in
    clientGet key.

(** The include names the child: the test both loops of the controller make. *)
Definition sameIdentity (include : Include) (childMeta : v1.ObjectMeta) : bool :=
  String.eqb (Namespace include) (v1.Namespace childMeta)
  && String.eqb (Name include) (v1.Name childMeta).

(** The inner loop of [isPrefixDuplicate]. *)
Fixpoint conditionsHavePrefix (conditions : list MatchCondition) (prefix : string) : bool :=
  match conditions with
  | [] => false
  | condition :: rest =>
      if String.eqb (Prefix condition) prefix then true
      else conditionsHavePrefix rest prefix
  end.

(** [isPrefixDuplicate]: entries that name the child are skipped; any
    condition of any other entry with the prefix answers true. *)
Fixpoint isPrefixDuplicate (includes : list Include) (childMeta : v1.ObjectMeta)
    (prefix : string) : bool :=
  match includes with
  | [] => false
  | include :: rest =>
      if sameIdentity include childMeta then isPrefixDuplicate rest childMeta prefix
      else if conditionsHavePrefix (Conditions include) prefix then true
      else isPrefixDuplicate rest childMeta prefix
  end.

(** [findIncludeRef], the loop started at index [idx]. *)
Fixpoint findIncludeRef_from (idx : Z) (includes : list Include)
    (childMeta : v1.ObjectMeta) : Z :=
  match includes with
  | [] => -1
  | include :: rest =>
      if sameIdentity include childMeta then idx
      else findIncludeRef_from (idx + 1) rest childMeta
  end.

(** [findIncludeRef]: the index of the first entry that names the child,
    or -1. *)
Definition findIncludeRef (includes : list Include) (childMeta : v1.ObjectMeta) : Z :=
  findIncludeRef_from 0 includes childMeta.

(** [cleanupParentProxy]: fetch the parent, check its permission, locate
    the child's entry, and write the parent back without it
    ([append(includes[:childIdx], includes[childIdx+1:]...)]). *)
Definition cleanupParentProxy (childProxy : HTTPProxy) : M (option error) :=
  let parentRef := annotation (ObjectMeta childProxy) parentRefAnnotation in
  let* r := getParentProxy parentRef in
  match r with
  | inl err => ret (Some err)
  | inr parentProxy =>
      if negb (String.eqb (annotation (ObjectMeta parentProxy) allowInclusionAnnotation) "true")
      then ret (Some (ErrInclusionNotAllowed parentRef))
      else
        let includes := Includes (Spec parentProxy) in
        let childIdx := findIncludeRef includes (ObjectMeta childProxy) in
        if (childIdx <? 0)%Z then ret None
        else
          let includes :=
            take (Z.to_nat childIdx) includes ++ drop (Z.to_nat (childIdx + 1)) includes in
          let parentProxy := setIncludes parentProxy includes in
          let* u := clientUpdate parentProxy in
          match u with
          | inl err => ret (Some err)
          | inr _ => ret None
          end
  end.

(** [reconcileParentProxy]: fetch the parent, check its permission, compute
    the prefix, refuse a duplicate, then set the conditions of the child's
    entry or append a new entry, and write the parent back.  The boolean
    tells [Reconcile] to stop without returning the error. *)
Definition reconcileParentProxy (childProxy : HTTPProxy) : M (bool * option error) :=
  let parentRef := annotation (ObjectMeta childProxy) parentRefAnnotation in
  let* r := getParentProxy parentRef in
  match r with
  | inl err => ret (false, Some err)
  | inr parentProxy =>
      if negb (String.eqb (annotation (ObjectMeta parentProxy) allowInclusionAnnotation) "true")
      then ret (true, Some (ErrInclusionNotAllowed parentRef))
      else
        let prefix := annotation (ObjectMeta childProxy) pathPrefixAnnotation in
        let prefix :=
          if String.eqb prefix "" then "/" +:+ v1.Name (ObjectMeta childProxy) else prefix in
        let includes := Includes (Spec parentProxy) in
        if isPrefixDuplicate includes (ObjectMeta childProxy) prefix
        then ret (true, Some ErrDuplicatePrefix)
        else
          let prefixCondition := [ {| Prefix := prefix; Header := None |} ] in
          let childIdx := findIncludeRef includes (ObjectMeta childProxy) in
          let parentProxy :=
            if (0 <=? childIdx)%Z
            then
              setIncludes parentProxy
                (alter (fun include => setConditions include prefixCondition)
                   (Z.to_nat childIdx) (Includes (Spec parentProxy)))
            else
              let include :=
                {| Namespace := v1.Namespace (ObjectMeta childProxy);
                   Name := v1.Name (ObjectMeta childProxy);
                   Conditions := prefixCondition |} in
              setIncludes parentProxy (Includes (Spec parentProxy) ++ [include]) in
          let* u := clientUpdate parentProxy in
          match u with
          | inl err => ret (false, Some err)
          | inr _ => ret (true, None)
          end
  end.

(** [Reconcile]: fetch the subject; ignore it without a parent reference;
    attach the finalizer to a live child and merge it into its parent; for
    a child being deleted that carries the finalizer, clean up the parent
    and then remove the finalizer.  An accepted [Update] refreshes the
    caller's object, which is rebound here. *)
Definition Reconcile (req : ObjectKey) : M (Result * option error) :=
  let* r := clientGet req in
  match r with
  | inl err =>
      if IsNotFound (Some err) then ret (emptyResult, None)
      else ret (emptyResult, Some err)
  | inr httpProxy =>
      if String.eqb (annotation (ObjectMeta httpProxy) parentRefAnnotation) ""
      then ret (emptyResult, None)
      else if v1.IsZero (v1.DeletionTimestamp (ObjectMeta httpProxy))
      then
        let* a :=
          (if negb (hasFinalizer httpProxy finalizerName)
           then clientUpdate (AddFinalizer httpProxy finalizerName)
           else ret (inr httpProxy)) in
        match a with
        | inl err => ret (emptyResult, Some err)
        | inr httpProxy =>
            let* (stop, err) := reconcileParentProxy httpProxy in
            if (stop : bool) then ret (emptyResult, None)
            else ret (emptyResult, err)
        end
      else
        if hasFinalizer httpProxy finalizerName
        then
          let* c := cleanupParentProxy httpProxy in
          match c with
          | Some err => ret (emptyResult, Some err)
          | None =>
              let* u := clientUpdate (RemoveFinalizer httpProxy finalizerName) in
              match u with
              | inl err => ret (emptyResult, Some err)
              | inr _ => ret (emptyResult, None)
              end
          end
        else ret (emptyResult, None)
  end.

(** ** Views used by the statements *)

(** The identity of an include entry and of a resource. *)
Definition identity (i : Include) : ObjectKey := (Namespace i, Name i).
Definition identityOf (m : v1.ObjectMeta) : ObjectKey := (v1.Namespace m, v1.Name m).

(** The entry carries the prefix: one of its conditions has it. *)
Definition hasPrefix (i : Include) (P : string) : Prop :=
  ∃ c, c ∈ Conditions i ∧ Prefix c = P.

(** The prefix [reconcileParentProxy] computes for a child: the prefix
    annotation, or [/] and the child's name when it reads empty. *)
Definition desiredPrefix (m : v1.ObjectMeta) : string :=
  let prefix := annotation m pathPrefixAnnotation in
  if String.eqb prefix "" then "/" +:+ v1.Name m else prefix.

(** The condition list [reconcileParentProxy] builds for a prefix. *)
Definition prefixCondition (P : string) : list MatchCondition :=
  [ {| Prefix := P; Header := None |} ].

(** The check both [reconcileParentProxy] and [cleanupParentProxy] make on
    the parent. *)
Definition allowsInclusion (m : v1.ObjectMeta) : bool :=
  String.eqb (annotation m allowInclusionAnnotation) "true".

(** The entry [findIncludeRef] locates, if any. *)
Definition entryOf (l : list Include) (m : v1.ObjectMeta) : option Include :=
  let idx := findIncludeRef l m in
  if (idx <? 0)%Z then None else l !! Z.to_nat idx.

(** All the entries that name the child. *)
Definition entriesOf (l : list Include) (m : v1.ObjectMeta) : list Include :=
  List.filter (fun i => sameIdentity i m) l.

(** The include list stored for a key. *)
Definition storedIncludes (s : Cluster) (key : ObjectKey) : option (list Include) :=
  (fun h => Includes (Spec h)) <$> objects s !! key.

(** Every object is stored under its own namespace and name. *)
Definition wfCluster (s : Cluster) : Prop :=
  ∀ k h, objects s !! k = Some h → keyOf h = k.

(** A computation keeps the store keyed that way. *)
Definition preserves {A : Type} (m : M A) : Prop :=
  ∀ s a s', m s = (a, s') → wfCluster s → wfCluster s'.

(** No failure is injected into the calls to come. *)
Definition available (s : Cluster) : Prop :=
  Forall (fun f => f = None) (faults s).

(** The list [reconcileParentProxy] submits: the located entry's conditions
    replaced, or a new entry appended. *)
Definition mergedIncludes (l : list Include) (m : v1.ObjectMeta) (P : string) : list Include :=
  let childIdx := findIncludeRef l m in
  if (0 <=? childIdx)%Z
  then alter (fun include => setConditions include (prefixCondition P)) (Z.to_nat childIdx) l
  else l ++ [ {| Namespace := v1.Namespace m; Name := v1.Name m;
                 Conditions := prefixCondition P |} ].

(** The list [cleanupParentProxy] submits when it located an entry. *)
Definition excisedIncludes (l : list Include) (m : v1.ObjectMeta) : list Include :=
  let childIdx := findIncludeRef l m in
  take (Z.to_nat childIdx) l ++ drop (Z.to_nat (childIdx + 1)) l.

(** The store after one call consumed its entry of the failure script. *)
Definition tick (s : Cluster) : Cluster := snd (nextFault s).

(** The object an accepted update stores. *)
Definition stored (h : HTTPProxy) : HTTPProxy :=
  setResourceVersion h (S (v1.ResourceVersion (ObjectMeta h))).

(** How often the separator occurs in a string. *)
Fixpoint occurrences (sep : ascii) (s : string) : nat :=
  match s with
  | EmptyString => 0
  | String c rest => ((if Ascii.eqb c sep then 1 else 0) + occurrences sep rest)%nat
  end.

(** [strings.Join] for a one-byte separator. *)
Fixpoint Join (segs : list string) (sep : ascii) : string :=
  match segs with
  | [] => EmptyString
  | [seg] => seg
  | seg :: rest => seg +:+ String sep (Join rest sep)
  end.

(** The key [getParentProxy] builds from the first two segments. *)
Definition parentKey (parentRef : string) : ObjectKey :=
  let namespacedName := Split parentRef "/" in
  (nth 0 namespacedName "", nth 1 namespacedName "").

(** The parent reference a child declares. *)
Definition parentRefOf (h : HTTPProxy) : string :=
  annotation (ObjectMeta h) parentRefAnnotation.

(** ** The test file's oracle and the invariants of an include list *)

(** [hasInclude] of [httpproxy_controller_test.go]: some include with the
    namespace and name has a condition with the prefix. *)
Fixpoint hasInclude_loop (includes : list Include) (namespace name prefix : string) : bool :=
  match includes with
  | [] => false
  | i :: rest =>
      if String.eqb (Namespace i) namespace && String.eqb (Name i) name
      then
        if conditionsHavePrefix (Conditions i) prefix then true
        else hasInclude_loop rest namespace name prefix
      else hasInclude_loop rest namespace name prefix
  end.

Definition hasInclude (parent : HTTPProxy) (namespace name prefix : string) : bool :=
  hasInclude_loop (Includes (Spec parent)) namespace name prefix.

(** At most one entry per child. *)
Definition uniqueEntries (l : list Include) : Prop :=
  NoDup (identity <$> l).

(** No prefix is carried by entries of two identities. *)
Definition uniquePrefixes (l : list Include) : Prop :=
  ∀ i j P, i ∈ l → j ∈ l → hasPrefix i P → hasPrefix j P → identity i = identity j.

(** One accepted write of a run of [Reconcile] on the subject [req] whose
    parent reference names [pk], as a step on the stored objects: the
    subject gets another finalizer list, or the parent gets the merged or
    the excised include list. *)
Inductive ReconcileWrite (req pk : ObjectKey) (o : gmap ObjectKey HTTPProxy) :
    gmap ObjectKey HTTPProxy → Prop :=
| WriteFinalizers (cur : HTTPProxy) (fs : list string) :
    o !! req = Some cur →
    ReconcileWrite req pk o (<[req := stored (setFinalizers cur fs)]> o)
| WriteMerged (parent : HTTPProxy) (m : v1.ObjectMeta) (P : string) :
    o !! pk = Some parent →
    identityOf m = req →
    P ≠ "" →
    allowsInclusion (ObjectMeta parent) = true →
    isPrefixDuplicate (Includes (Spec parent)) m P = false →
    ReconcileWrite req pk o
      (<[pk := stored (setIncludes parent (mergedIncludes (Includes (Spec parent)) m P))]> o)
| WriteExcised (parent : HTTPProxy) (m : v1.ObjectMeta) :
    o !! pk = Some parent →
    identityOf m = req →
    (0 <= findIncludeRef (Includes (Spec parent)) m)%Z →
    ReconcileWrite req pk o
      (<[pk := stored (setIncludes parent (excisedIncludes (Includes (Spec parent)) m))]> o).

(** What a run of [Reconcile] may do to the stored objects: nothing, one
    write, or two. *)
Definition ReconcileWrites (req pk : ObjectKey) (o o' : gmap ObjectKey HTTPProxy) : Prop :=
  o' = o ∨ ReconcileWrite req pk o o' ∨
  ∃ o1, ReconcileWrite req pk o o1 ∧ ReconcileWrite req pk o1 o'.

(** What a write of [Reconcile] keeps of the object it replaces. *)
Definition keepsMetadata (req pk k : ObjectKey) (h h' : HTTPProxy) : Prop :=
  v1.Name (ObjectMeta h') = v1.Name (ObjectMeta h) ∧
  v1.Namespace (ObjectMeta h') = v1.Namespace (ObjectMeta h) ∧
  v1.Annotations (ObjectMeta h') = v1.Annotations (ObjectMeta h) ∧
  v1.DeletionTimestamp (ObjectMeta h') = v1.DeletionTimestamp (ObjectMeta h) ∧
  (v1.ResourceVersion (ObjectMeta h) ≤ v1.ResourceVersion (ObjectMeta h'))%nat ∧
  (k ≠ req → v1.Finalizers (ObjectMeta h') = v1.Finalizers (ObjectMeta h)) ∧
  (k ≠ pk → Spec h' = Spec h).

(** Two objects that [reconcileParentProxy] cannot tell apart as children. *)
Definition sameChild (c c' : HTTPProxy) : Prop :=
  v1.Name (ObjectMeta c') = v1.Name (ObjectMeta c) ∧
  v1.Namespace (ObjectMeta c') = v1.Namespace (ObjectMeta c) ∧
  v1.Annotations (ObjectMeta c') = v1.Annotations (ObjectMeta c).

(** A computation uses up the failure script and never extends it. *)
Definition steady {A : Type} (m : M A) : Prop :=
  ∀ s a s', m s = (a, s') → available s → available s'.

(** ** Scenarios *)

Definition mkMeta (ns name : string) (anns : list (string * string))
    (fins : list string) (del : option Z) : v1.ObjectMeta :=
  {| v1.Name := name; v1.Namespace := ns; v1.ResourceVersion := 1;
     v1.DeletionTimestamp := del; v1.Annotations := list_to_map anns;
     v1.Finalizers := fins |}.

Definition mkProxy (m : v1.ObjectMeta) (includes : list Include) : HTTPProxy :=
  {| ObjectMeta := m; Spec := {| Includes := includes |} |}.

(** A store that holds the given objects, each under its own key, with no
    failure injected and no write yet. *)
Definition mkCluster (l : list HTTPProxy) : Cluster :=
  {| objects := list_to_map ((fun h => (keyOf h, h)) <$> l); faults := []; writes := [] |}.

Definition hogeEntry : Include :=
  {| Name := "hoge"; Namespace := "hoge"; Conditions := prefixCondition "/hoge" |}.

Definition mobileHeader : HeaderMatchCondition :=
  {| HeaderName := "x-os"; Present := false; NotPresent := false; Contains := "";
     NotContains := ""; Exact := "ios"; NotExact := "" |}.

Definition newsEntry : Include :=
  {| Name := "news"; Namespace := "news-team";
     Conditions := [ {| Prefix := "/news"; Header := Some mobileHeader |};
                     {| Prefix := "/press"; Header := None |} ] |}.

Definition shopEntry : Include :=
  {| Name := "shop"; Namespace := "shop-team"; Conditions := prefixCondition "/shop" |}.

(** The parent [root/example] permits inclusion; [root/locked] does not. *)
Definition rootProxy : HTTPProxy :=
  mkProxy (mkMeta "root" "example" [(allowInclusionAnnotation, "true")] [] None)
    [hogeEntry; newsEntry; shopEntry].

Definition lockedProxy : HTTPProxy :=
  mkProxy (mkMeta "root" "locked" [] [] None) [].

(** Children of [root/example]: [blog] declares no prefix and has no entry
    yet, [news] re-declares the prefix of its entry, [sales] asks for the
    prefix of [hoge]. *)
Definition blog : HTTPProxy :=
  mkProxy (mkMeta "blog-team" "blog" [(parentRefAnnotation, "root/example")]
             [finalizerName] None) [].

Definition news : HTTPProxy :=
  mkProxy (mkMeta "news-team" "news"
             [(parentRefAnnotation, "root/example"); (pathPrefixAnnotation, "/news")]
             [finalizerName] None) [].

Definition sales : HTTPProxy :=
  mkProxy (mkMeta "sales-team" "sales"
             [(parentRefAnnotation, "root/example"); (pathPrefixAnnotation, "/hoge")]
             [finalizerName] None) [].

Definition docs : HTTPProxy :=
  mkProxy (mkMeta "docs-team" "docs" [(parentRefAnnotation, "root/locked")]
             [finalizerName] None) [].

(** Children being deleted, each with the finalizer: [shop] has an entry in
    its parent, [guest] has none, the parent of [orphan] does not exist and
    the parent of [tenant] does not permit inclusion. *)
Definition shop : HTTPProxy :=
  mkProxy (mkMeta "shop-team" "shop" [(parentRefAnnotation, "root/example")]
             [finalizerName] (Some 1636000000)) [].

Definition guest : HTTPProxy :=
  mkProxy (mkMeta "guest-team" "guest" [(parentRefAnnotation, "root/example")]
             [finalizerName] (Some 1636000000)) [].

Definition orphan : HTTPProxy :=
  mkProxy (mkMeta "lost-team" "orphan" [(parentRefAnnotation, "root/gone")]
             [finalizerName] (Some 1636000000)) [].

Definition tenant : HTTPProxy :=
  mkProxy (mkMeta "tenant-team" "tenant" [(parentRefAnnotation, "root/locked")]
             [finalizerName] (Some 1636000000)) [].

Definition exampleCluster : Cluster :=
  mkCluster [rootProxy; lockedProxy; blog; news; sales; docs; shop; guest; orphan; tenant].

(** A second store: the parent [root/small] with one entry, the live child
    [fresh] that was never reconciled, and [loner], which is being deleted
    with the finalizer on it but declares no parent. *)
Definition smallRoot : HTTPProxy :=
  mkProxy (mkMeta "root" "small" [(allowInclusionAnnotation, "true")] [] None) [hogeEntry].

Definition fresh : HTTPProxy :=
  mkProxy (mkMeta "fresh-team" "fresh"
             [(parentRefAnnotation, "root/small"); (pathPrefixAnnotation, "/fresh")]
             [] None) [].

Definition loner : HTTPProxy :=
  mkProxy (mkMeta "lone-team" "loner" [] [finalizerName] (Some 1636000000)) [].

Definition smallCluster : Cluster := mkCluster [smallRoot; fresh; loner].

(** A third store: the parent [root/double] holds two entries for [shop],
    the first ahead of the entry of [hoge]. *)
Definition storeEntry : Include :=
  {| Name := "shop"; Namespace := "shop-team"; Conditions := prefixCondition "/store" |}.

Definition doubleRoot : HTTPProxy :=
  mkProxy (mkMeta "root" "example" [(allowInclusionAnnotation, "true")] [] None)
    [shopEntry; hogeEntry; storeEntry].

Definition doubleCluster : Cluster := mkCluster [doubleRoot; shop].

(** A fourth store: [looped] is being deleted, names itself as its parent,
    permits inclusion and holds its own entry. *)
Definition loopedEntry : Include :=
  {| Name := "looped"; Namespace := "loop-team"; Conditions := prefixCondition "/looped" |}.

Definition looped : HTTPProxy :=
  mkProxy (mkMeta "loop-team" "looped"
             [(parentRefAnnotation, "loop-team/looped"); (allowInclusionAnnotation, "true")]
             [finalizerName] (Some 1636000000))
    [loopedEntry].

Definition loopCluster : Cluster := mkCluster [looped].

(** ** The pure functions *)

Lemma annotation_eq_iff (m : v1.ObjectMeta) (key v : string) :
  v ≠ "" → (annotation m key = v ↔ v1.Annotations m !! key = Some v).
Proof.
  intros Hv. unfold annotation.
  destruct (v1.Annotations m !! key) as [w|]; simpl; split; intros H;
    try congruence.
Qed.

Lemma allowsInclusion_iff (m : v1.ObjectMeta) :
  allowsInclusion m = true ↔ v1.Annotations m !! allowInclusionAnnotation = Some "true".
Proof.
  unfold allowsInclusion. rewrite String.eqb_eq.
  apply annotation_eq_iff. discriminate.
Qed.

Lemma sameIdentity_true (i : Include) (m : v1.ObjectMeta) :
  sameIdentity i m = true ↔ identity i = identityOf m.
Proof.
  unfold sameIdentity, identity, identityOf.
  rewrite andb_true_iff, !String.eqb_eq. split.
  - intros [-> ->]. reflexivity.
  - intros H. injection H as -> ->. auto.
Qed.

Lemma sameIdentity_false (i : Include) (m : v1.ObjectMeta) :
  sameIdentity i m = false ↔ identity i ≠ identityOf m.
Proof.
  rewrite <- sameIdentity_true. destruct (sameIdentity i m); split; congruence.
Qed.

Lemma conditionsHavePrefix_true (cs : list MatchCondition) (P : string) :
  conditionsHavePrefix cs P = true ↔ ∃ c, c ∈ cs ∧ Prefix c = P.
Proof.
  induction cs as [|c cs IH]; simpl.
  - split; [discriminate | intros (c & Hc & _); inversion Hc].
  - destruct (String.eqb_spec (Prefix c) P) as [Heq | Hne].
    + split; [intros _; exists c; split; [left | exact Heq] | reflexivity].
    + rewrite IH. split.
      * intros (c' & Hin & Hp). exists c'. split; [right; exact Hin | exact Hp].
      * intros (c' & Hin & Hp). inversion Hin; subst; [contradiction | eauto].
Qed.

(** [isPrefixDuplicate] answers true exactly when an entry of another
    identity carries the prefix. *)
Lemma isPrefixDuplicate_true (l : list Include) (m : v1.ObjectMeta) (P : string) :
  isPrefixDuplicate l m P = true ↔
  ∃ i, i ∈ l ∧ identity i ≠ identityOf m ∧ hasPrefix i P.
Proof.
  induction l as [|x l IH]; simpl.
  - split; [discriminate | intros (i & Hi & _); inversion Hi].
  - destruct (sameIdentity x m) eqn:Hx.
    + rewrite IH. apply sameIdentity_true in Hx. split.
      * intros (i & Hin & Hne & Hp). exists i. split; [right; exact Hin | auto].
      * intros (i & Hin & Hne & Hp). inversion Hin; subst; [contradiction | eauto].
    + apply sameIdentity_false in Hx.
      destruct (conditionsHavePrefix (Conditions x) P) eqn:Hc.
      * apply conditionsHavePrefix_true in Hc.
        split; [intros _; exists x; split; [left | auto] | reflexivity].
      * rewrite IH. split.
        -- intros (i & Hin & Hne & Hp). exists i. split; [right; exact Hin | auto].
        -- intros (i & Hin & Hne & Hp). inversion Hin; subst; [| eauto].
           apply conditionsHavePrefix_true in Hp. congruence.
Qed.

Lemma isPrefixDuplicate_false (l : list Include) (m : v1.ObjectMeta) (P : string) :
  isPrefixDuplicate l m P = false ↔
  ∀ i, i ∈ l → hasPrefix i P → identity i = identityOf m.
Proof.
  split.
  - intros Hf i Hin Hp.
    destruct (sameIdentity i m) eqn:Hs; [apply sameIdentity_true; exact Hs |].
    apply sameIdentity_false in Hs.
    assert (isPrefixDuplicate l m P = true) by (apply isPrefixDuplicate_true; eauto).
    congruence.
  - intros H. destruct (isPrefixDuplicate l m P) eqn:Hd; [| reflexivity].
    apply isPrefixDuplicate_true in Hd as (i & Hin & Hne & Hp).
    exfalso. apply Hne. apply H; assumption.
Qed.

(** [findIncludeRef]: -1 when no entry names the child, otherwise the index
    of the first one that does. *)
Lemma findIncludeRef_from_absent (idx : Z) (l : list Include) (m : v1.ObjectMeta) :
  (∀ x, x ∈ l → identity x ≠ identityOf m) →
  findIncludeRef_from idx l m = -1.
Proof.
  revert idx. induction l as [|x l IH]; intros idx H; simpl; [reflexivity |].
  assert (sameIdentity x m = false) as ->
    by (apply sameIdentity_false, H; left).
  apply IH. intros y Hy. apply H. right. exact Hy.
Qed.

Lemma findIncludeRef_from_first (idx : Z) (l1 l2 : list Include) (e : Include)
    (m : v1.ObjectMeta) :
  (∀ x, x ∈ l1 → identity x ≠ identityOf m) →
  identity e = identityOf m →
  findIncludeRef_from idx (l1 ++ e :: l2) m = idx + Z.of_nat (length l1).
Proof.
  revert idx. induction l1 as [|x l1 IH]; intros idx H He; simpl.
  - apply sameIdentity_true in He. rewrite He. lia.
  - assert (sameIdentity x m = false) as ->
      by (apply sameIdentity_false, H; left).
    rewrite IH; [lia | | exact He].
    intros y Hy. apply H. right. exact Hy.
Qed.

(** Every list either has no entry for the child or splits at the first. *)
Lemma first_entry_split (l : list Include) (m : v1.ObjectMeta) :
  (∀ x, x ∈ l → identity x ≠ identityOf m) ∨
  (∃ l1 e l2, l = l1 ++ e :: l2 ∧ identity e = identityOf m ∧
              ∀ x, x ∈ l1 → identity x ≠ identityOf m).
Proof.
  induction l as [|x l IH].
  - left. intros x Hx. inversion Hx.
  - destruct (sameIdentity x m) eqn:Hx.
    + right. exists [], x, l. apply sameIdentity_true in Hx.
      split; [reflexivity | split; [exact Hx | intros y Hy; inversion Hy]].
    + apply sameIdentity_false in Hx. destruct IH as [IH | (l1 & e & l2 & -> & He & H1)].
      * left. intros y Hy. inversion Hy; subst; auto.
      * right. exists (x :: l1), e, l2.
        split; [reflexivity | split; [exact He |]].
        intros y Hy. inversion Hy; subst; auto.
Qed.

Lemma findIncludeRef_absent (l : list Include) (m : v1.ObjectMeta) :
  (∀ x, x ∈ l → identity x ≠ identityOf m) → findIncludeRef l m = -1.
Proof. apply findIncludeRef_from_absent. Qed.

Lemma findIncludeRef_first (l1 l2 : list Include) (e : Include) (m : v1.ObjectMeta) :
  (∀ x, x ∈ l1 → identity x ≠ identityOf m) →
  identity e = identityOf m →
  findIncludeRef (l1 ++ e :: l2) m = Z.of_nat (length l1).
Proof.
  intros H He. unfold findIncludeRef.
  rewrite findIncludeRef_from_first; [lia | exact H | exact He].
Qed.


Lemma entryOf_first (l1 l2 : list Include) (e : Include) (m : v1.ObjectMeta) :
  (∀ x, x ∈ l1 → identity x ≠ identityOf m) →
  identity e = identityOf m →
  entryOf (l1 ++ e :: l2) m = Some e.
Proof.
  intros H He. unfold entryOf. rewrite findIncludeRef_first by assumption.
  destruct (Z.ltb_spec (Z.of_nat (length l1)) 0) as [Hlt | _]; [lia |].
  rewrite Nat2Z.id. rewrite lookup_app_r by lia.
  replace (length l1 - length l1)%nat with 0%nat by lia. reflexivity.
Qed.

Lemma entriesOf_app (l1 l2 : list Include) (m : v1.ObjectMeta) :
  entriesOf (l1 ++ l2) m = entriesOf l1 m ++ entriesOf l2 m.
Proof. unfold entriesOf. apply List.filter_app. Qed.

Lemma entriesOf_absent (l : list Include) (m : v1.ObjectMeta) :
  (∀ x, x ∈ l → identity x ≠ identityOf m) → entriesOf l m = [].
Proof.
  induction l as [|x l IH]; intros H; [reflexivity |].
  unfold entriesOf in *. simpl.
  assert (sameIdentity x m = false) as -> by (apply sameIdentity_false, H; left).
  apply IH. intros y Hy. apply H. right. exact Hy.
Qed.

Lemma alter_middle {A : Type} (f : A → A) (l1 l2 : list A) (e : A) :
  alter f (length l1) (l1 ++ e :: l2) = l1 ++ f e :: l2.
Proof. induction l1 as [|x l1 IH]; simpl; [reflexivity | f_equal; exact IH]. Qed.

Lemma mergedIncludes_absent (l : list Include) (m : v1.ObjectMeta) (P : string) :
  (∀ x, x ∈ l → identity x ≠ identityOf m) →
  mergedIncludes l m P =
  l ++ [ {| Namespace := v1.Namespace m; Name := v1.Name m; Conditions := prefixCondition P |} ].
Proof. intros H. unfold mergedIncludes. rewrite findIncludeRef_absent by exact H. reflexivity. Qed.

Lemma mergedIncludes_first (l1 l2 : list Include) (e : Include) (m : v1.ObjectMeta)
    (P : string) :
  (∀ x, x ∈ l1 → identity x ≠ identityOf m) →
  identity e = identityOf m →
  mergedIncludes (l1 ++ e :: l2) m P = l1 ++ setConditions e (prefixCondition P) :: l2.
Proof.
  intros H He. unfold mergedIncludes. rewrite findIncludeRef_first by assumption.
  destruct (Z.leb_spec 0 (Z.of_nat (length l1))) as [_ | Hlt]; [| lia].
  rewrite Nat2Z.id.
  exact (alter_middle (fun include => setConditions include (prefixCondition P)) l1 l2 e).
Qed.

Lemma excisedIncludes_first (l1 l2 : list Include) (e : Include) (m : v1.ObjectMeta) :
  (∀ x, x ∈ l1 → identity x ≠ identityOf m) →
  identity e = identityOf m →
  excisedIncludes (l1 ++ e :: l2) m = l1 ++ l2.
Proof.
  intros H He. unfold excisedIncludes. rewrite findIncludeRef_first by assumption.
  replace (Z.to_nat (Z.of_nat (length l1) + 1)) with (S (length l1)) by lia.
  rewrite Nat2Z.id, take_app_length.
  replace (l1 ++ e :: l2) with ((l1 ++ [e]) ++ l2) by (rewrite <- app_assoc; reflexivity).
  rewrite drop_app_length'; [reflexivity |].
  rewrite length_app. simpl. lia.
Qed.

(** ** The store *)

Lemma available_tick (s : Cluster) : available s → available (tick s).
Proof.
  unfold available, tick, nextFault. simpl.
  destruct (faults s) as [|f fs]; simpl; [auto |].
  intros H. inversion H; assumption.
Qed.

Lemma available_no_fault (s : Cluster) : available s → fst (nextFault s) = None.
Proof.
  unfold available, nextFault. simpl.
  destruct (faults s) as [|f fs]; simpl; [reflexivity |].
  intros H. inversion H; subst. reflexivity.
Qed.

Lemma clientGet_inr (key : ObjectKey) (s s1 : Cluster) (h : HTTPProxy) :
  clientGet key s = (inr h, s1) →
  objects s !! key = Some h ∧ s1 = tick s ∧ fst (nextFault s) = None.
Proof.
  unfold clientGet, tick. destruct (nextFault s) as [f s0] eqn:Hn.
  assert (objects s0 = objects s) as Ho
    by (unfold nextFault in Hn; injection Hn as _ <-; reflexivity).
  destruct f as [e|]; [discriminate |]. rewrite Ho.
  destruct (objects s !! key) as [h0|]; [| discriminate].
  intros H. injection H as -> ->. auto.
Qed.

Lemma clientGet_inl (key : ObjectKey) (s s1 : Cluster) (err : error) :
  clientGet key s = (inl err, s1) →
  s1 = tick s ∧ ∃ e, err = ErrClient e.
Proof.
  unfold clientGet, tick. destruct (nextFault s) as [f s0] eqn:Hn.
  destruct f as [e|].
  - intros H. injection H as <- <-. eauto.
  - destruct (objects s0 !! key) as [h0|]; [discriminate |].
    intros H. injection H as <- <-. eauto.
Qed.

Lemma clientGet_stored (key : ObjectKey) (s : Cluster) (h : HTTPProxy) :
  fst (nextFault s) = None → objects s !! key = Some h →
  clientGet key s = (inr h, tick s).
Proof.
  intros Hf Hk. unfold clientGet, tick.
  destruct (nextFault s) as [f s0] eqn:Hn. simpl in *. subst f.
  assert (objects s0 = objects s) as ->
    by (unfold nextFault in Hn; injection Hn as _ <-; reflexivity).
  rewrite Hk. reflexivity.
Qed.

Lemma clientGet_missing (key : ObjectKey) (s : Cluster) :
  fst (nextFault s) = None → objects s !! key = None →
  clientGet key s = (inl (ErrClient StatusNotFound), tick s).
Proof.
  intros Hf Hk. unfold clientGet, tick.
  destruct (nextFault s) as [f s0] eqn:Hn. simpl in *. subst f.
  assert (objects s0 = objects s) as ->
    by (unfold nextFault in Hn; injection Hn as _ <-; reflexivity).
  rewrite Hk. reflexivity.
Qed.

Lemma objects_tick (s : Cluster) : objects (tick s) = objects s.
Proof. reflexivity. Qed.

Lemma clientUpdate_inr (h h' : HTTPProxy) (s s' : Cluster) :
  clientUpdate h s = (inr h', s') →
  h' = stored h ∧
  objects s' = <[keyOf h := stored h]> (objects s) ∧
  writes s' = stored h :: writes s ∧
  faults s' = faults (tick s).
Proof.
  unfold clientUpdate, tick. destruct (nextFault s) as [f s0] eqn:Hn.
  assert (objects s0 = objects s ∧ writes s0 = writes s) as [Ho Hw]
    by (unfold nextFault in Hn; injection Hn as _ <-; auto).
  destruct f as [e|]; [discriminate |].
  destruct (objects s0 !! keyOf h) as [cur|]; [| discriminate].
  destruct (Nat.eqb _ _); [| discriminate].
  intros H. injection H as <- <-. simpl. rewrite Ho, Hw. auto.
Qed.

(** The store takes an update only of the version it holds. *)
Lemma clientUpdate_inr_version (h h' : HTTPProxy) (s s' : Cluster) :
  clientUpdate h s = (inr h', s') →
  ∃ cur, objects s !! keyOf h = Some cur ∧
         v1.ResourceVersion (ObjectMeta cur) = v1.ResourceVersion (ObjectMeta h).
Proof.
  unfold clientUpdate. destruct (nextFault s) as [f s0] eqn:Hn.
  assert (objects s0 = objects s) as Ho
    by (unfold nextFault in Hn; injection Hn as _ <-; auto).
  destruct f as [e|]; [discriminate |]. rewrite Ho.
  destruct (objects s !! keyOf h) as [cur|]; [| discriminate].
  destruct (Nat.eqb_spec (v1.ResourceVersion (ObjectMeta cur))
              (v1.ResourceVersion (ObjectMeta h))) as [Heq | Hne]; [| discriminate].
  intros _. exists cur. auto.
Qed.

Lemma clientUpdate_inl (h : HTTPProxy) (err : error) (s s' : Cluster) :
  clientUpdate h s = (inl err, s') →
  s' = tick s ∧ ∃ e, err = ErrClient e.
Proof.
  unfold clientUpdate, tick. destruct (nextFault s) as [f s0] eqn:Hn.
  destruct f as [e|]; [intros H; injection H as <- <-; eauto |].
  destruct (objects s0 !! keyOf h) as [cur|].
  - destruct (Nat.eqb _ _); [discriminate |].
    intros H; injection H as <- <-; eauto.
  - intros H; injection H as <- <-; eauto.
Qed.

(** An update of an object as it is stored, whatever was assigned to its
    fields other than name, namespace and version, is accepted unless a
    failure is injected. *)
Lemma clientUpdate_accepted (h cur : HTTPProxy) (s : Cluster) :
  fst (nextFault s) = None →
  objects s !! keyOf h = Some cur →
  v1.ResourceVersion (ObjectMeta cur) = v1.ResourceVersion (ObjectMeta h) →
  ∃ s', clientUpdate h s = (inr (stored h), s') ∧
        objects s' = <[keyOf h := stored h]> (objects s) ∧
        writes s' = stored h :: writes s ∧
        faults s' = faults (tick s).
Proof.
  intros Hf Hk Hrv. unfold clientUpdate, tick.
  destruct (nextFault s) as [f s0] eqn:Hn. simpl in *. subst f.
  assert (objects s0 = objects s ∧ writes s0 = writes s) as [Ho Hw]
    by (unfold nextFault in Hn; injection Hn as _ <-; auto).
  rewrite Ho, Hk, Hrv, Nat.eqb_refl. eexists. split; [reflexivity |].
  simpl. rewrite Hw. auto.
Qed.

(** The outcome injected into a call depends on the failure script only. *)
Lemma nextFault_faults (s t : Cluster) :
  faults s = faults t → fst (nextFault s) = fst (nextFault t).
Proof. unfold nextFault. simpl. intros ->. reflexivity. Qed.

(** An update made from a copy older than the stored object is refused
    with a conflict. *)
Lemma clientUpdate_conflict (h cur : HTTPProxy) (s : Cluster) :
  fst (nextFault s) = None →
  objects s !! keyOf h = Some cur →
  v1.ResourceVersion (ObjectMeta cur) ≠ v1.ResourceVersion (ObjectMeta h) →
  clientUpdate h s = (inl (ErrClient StatusConflict), tick s).
Proof.
  intros Hf Hk Hrv. unfold clientUpdate, tick.
  destruct (nextFault s) as [f s0] eqn:Hn. simpl in *. subst f.
  assert (objects s0 = objects s) as ->
    by (unfold nextFault in Hn; injection Hn as _ <-; reflexivity).
  rewrite Hk. apply Nat.eqb_neq in Hrv. rewrite Hrv. reflexivity.
Qed.

Lemma wfCluster_update (h : HTTPProxy) (s s' : Cluster) :
  wfCluster s → objects s' = <[keyOf h := stored h]> (objects s) → wfCluster s'.
Proof.
  intros Hwf Ho k x. rewrite Ho. destruct (decide (keyOf h = k)) as [<- | Hne].
  - rewrite lookup_insert_eq. intros H; injection H as <-. reflexivity.
  - rewrite lookup_insert_ne by exact Hne. apply Hwf.
Qed.

(** *** The store stays keyed by namespace and name *)

Lemma preserves_ret {A : Type} (a : A) : preserves (ret a).
Proof. intros s x s' H. injection H as _ <-. auto. Qed.

Lemma preserves_bind {A B : Type} (m : M A) (k : A → M B) :
  preserves m → (∀ a, preserves (k a)) → preserves (bind m k).
Proof.
  intros Hm Hk s b s' H Hwf. unfold bind in H.
  destruct (m s) as [a s1] eqn:Hms.
  eapply Hk; [exact H |]. eapply Hm; [exact Hms | exact Hwf].
Qed.

Lemma preserves_clientGet (key : ObjectKey) : preserves (clientGet key).
Proof.
  intros s [err | h] s' H Hwf.
  - apply clientGet_inl in H as (-> & _). exact Hwf.
  - apply clientGet_inr in H as (_ & -> & _). exact Hwf.
Qed.

Lemma preserves_clientUpdate (h : HTTPProxy) : preserves (clientUpdate h).
Proof.
  intros s [err | h'] s' H Hwf.
  - apply clientUpdate_inl in H as (-> & _). exact Hwf.
  - apply clientUpdate_inr in H as (_ & Ho & _).
    eapply wfCluster_update; [exact Hwf | exact Ho].
Qed.

Create HintDb store.
#[local] Hint Resolve preserves_ret preserves_clientGet preserves_clientUpdate : store.

(** Walks a monadic body: binds, branches, and the calls at the leaves. *)
Ltac preserve :=
  repeat first
    [ solve [auto with store]
    | apply preserves_bind; [| intros ?]
    | match goal with
      | |- preserves (match ?x with _ => _ end) => destruct x
      | |- preserves (if ?b then _ else _) => destruct b
      end ].

(** ** Splitting the parent reference *)

Lemma Split_not_nil (s : string) (sep : ascii) : Split s sep ≠ [].
Proof.
  destruct s as [|c s]; simpl; [discriminate |].
  destruct (Ascii.eqb c sep); [discriminate |].
  destruct (Split s sep); discriminate.
Qed.

Lemma Split_length (s : string) (sep : ascii) :
  length (Split s sep) = S (occurrences sep s).
Proof.
  induction s as [|c s IH]; simpl; [reflexivity |].
  destruct (Ascii.eqb c sep); simpl; [rewrite IH; reflexivity |].
  destruct (Split s sep) as [|seg segs] eqn:Hs; simpl in *; [discriminate | exact IH].
Qed.

Lemma Join_Split (s : string) (sep : ascii) : Join (Split s sep) sep = s.
Proof.
  induction s as [|c s IH]; simpl; [reflexivity |].
  destruct (Ascii.eqb_spec c sep) as [-> | Hne].
  - pose proof (Split_not_nil s sep) as Hnil.
    simpl. destruct (Split s sep) as [|seg segs]; [contradiction |].
    simpl in *. rewrite IH. reflexivity.
  - destruct (Split s sep) as [|seg segs] eqn:Hs; [exfalso; exact (Split_not_nil _ _ Hs) |].
    simpl in *. destruct segs as [|seg' segs]; simpl in *; rewrite <- IH; reflexivity.
Qed.

Lemma Split_segments (s : string) (sep : ascii) :
  Forall (fun seg => occurrences sep seg = 0%nat) (Split s sep).
Proof.
  induction s as [|c s IH]; simpl.
  - constructor; [reflexivity | constructor].
  - destruct (Ascii.eqb c sep) eqn:Hc.
    + constructor; [reflexivity | exact IH].
    + destruct (Split s sep) as [|seg segs]; [constructor; [simpl; rewrite Hc; reflexivity | constructor] |].
      inversion IH; subst. constructor; [simpl; rewrite Hc; assumption | assumption].
Qed.

Lemma Split_plain (s : string) (sep : ascii) :
  occurrences sep s = 0%nat → Split s sep = [s].
Proof.
  induction s as [|c s IH]; simpl; [reflexivity |].
  destruct (Ascii.eqb c sep); [discriminate |].
  simpl. intros H. rewrite IH by exact H. reflexivity.
Qed.

Lemma Split_append (a b : string) (sep : ascii) :
  occurrences sep a = 0%nat →
  Split (a +:+ String sep b) sep = a :: Split b sep.
Proof.
  induction a as [|c a IH]; simpl.
  - intros _. rewrite Ascii.eqb_refl. reflexivity.
  - destruct (Ascii.eqb c sep); [discriminate |].
    simpl. intros H. rewrite IH by exact H. reflexivity.
Qed.

Lemma getParentProxy_two (parentRef : string) (s : Cluster) :
  occurrences "/" parentRef = 1%nat →
  getParentProxy parentRef s = clientGet (parentKey parentRef) s.
Proof.
  intros H. unfold getParentProxy, parentKey.
  rewrite Split_length, H. reflexivity.
Qed.

Lemma getParentProxy_invalid (parentRef : string) (s : Cluster) :
  occurrences "/" parentRef ≠ 1%nat →
  getParentProxy parentRef s = (inl (ErrInvalidParent (Split parentRef "/")), s).
Proof.
  intros H. unfold getParentProxy.
  rewrite Split_length.
  destruct (Nat.eqb_spec (S (occurrences "/" parentRef)) 2) as [Heq | Hne]; [lia |].
  reflexivity.
Qed.

Lemma getParentProxy_inr (parentRef : string) (s s1 : Cluster) (p : HTTPProxy) :
  getParentProxy parentRef s = (inr p, s1) →
  objects s !! parentKey parentRef = Some p ∧ s1 = tick s ∧ fst (nextFault s) = None.
Proof.
  destruct (Nat.eq_dec (occurrences "/" parentRef) 1%nat) as [H1 | H1].
  - rewrite getParentProxy_two by exact H1. apply clientGet_inr.
  - rewrite getParentProxy_invalid by exact H1. discriminate.
Qed.

Lemma getParentProxy_inr_two (parentRef : string) (s s1 : Cluster) (p : HTTPProxy) :
  getParentProxy parentRef s = (inr p, s1) → occurrences "/" parentRef = 1%nat.
Proof.
  destruct (Nat.eq_dec (occurrences "/" parentRef) 1%nat) as [H1 | H1]; [auto |].
  rewrite getParentProxy_invalid by exact H1. discriminate.
Qed.

Lemma getParentProxy_stored (parentRef : string) (s : Cluster) (p : HTTPProxy) :
  occurrences "/" parentRef = 1%nat →
  fst (nextFault s) = None →
  objects s !! parentKey parentRef = Some p →
  getParentProxy parentRef s = (inr p, tick s).
Proof.
  intros H1 Hf Hk. rewrite getParentProxy_two by exact H1.
  apply clientGet_stored; assumption.
Qed.

Lemma getParentProxy_inl (parentRef : string) (s s1 : Cluster) (err : error) :
  getParentProxy parentRef s = (inl err, s1) →
  objects s1 = objects s ∧ writes s1 = writes s.
Proof.
  destruct (Nat.eq_dec (occurrences "/" parentRef) 1%nat) as [H1 | H1].
  - rewrite getParentProxy_two by exact H1. intros H.
    apply clientGet_inl in H as [-> _]. auto.
  - rewrite getParentProxy_invalid by exact H1. intros H; injection H as _ <-. auto.
Qed.

(** ** The controller keeps the store keyed by namespace and name *)

Lemma preserves_getParentProxy (parentRef : string) : preserves (getParentProxy parentRef).
Proof. unfold getParentProxy. cbv zeta. preserve. Qed.

#[local] Hint Resolve preserves_getParentProxy : store.

Lemma preserves_cleanupParentProxy (child : HTTPProxy) : preserves (cleanupParentProxy child).
Proof. unfold cleanupParentProxy. cbv zeta. preserve. Qed.

Lemma preserves_reconcileParentProxy (child : HTTPProxy) :
  preserves (reconcileParentProxy child).
Proof. unfold reconcileParentProxy. cbv zeta. preserve. Qed.

#[local] Hint Resolve preserves_cleanupParentProxy preserves_reconcileParentProxy : store.

(** Every run of [Reconcile] leaves the store keyed by namespace and name. *)
Lemma preserves_Reconcile (req : ObjectKey) : preserves (Reconcile req).
Proof. unfold Reconcile. preserve. Qed.

(** ** The controller's functions once the parent is resolved *)

(** What [reconcileParentProxy] and [cleanupParentProxy] do after
    [getParentProxy] answered, with the lists they submit named. *)

Lemma reconcileParentProxy_resolved (child parent : HTTPProxy) (s s1 : Cluster) :
  getParentProxy (parentRefOf child) s = (inr parent, s1) →
  reconcileParentProxy child s =
  if negb (allowsInclusion (ObjectMeta parent))
  then ((true, Some (ErrInclusionNotAllowed (parentRefOf child))), s1)
  else if isPrefixDuplicate (Includes (Spec parent)) (ObjectMeta child)
            (desiredPrefix (ObjectMeta child))
  then ((true, Some ErrDuplicatePrefix), s1)
  else
    let (u, s2) :=
      clientUpdate
        (setIncludes parent
           (mergedIncludes (Includes (Spec parent)) (ObjectMeta child)
              (desiredPrefix (ObjectMeta child)))) s1 in
    (match u with inl err => (false, Some err) | inr _ => (true, None) end, s2).
Proof.
  intros Hget. unfold parentRefOf in *. unfold reconcileParentProxy, bind. rewrite Hget.
  unfold allowsInclusion, desiredPrefix, mergedIncludes, prefixCondition, ret. cbv zeta.
  destruct (negb _); [reflexivity |].
  destruct (isPrefixDuplicate _ _ _); [reflexivity |].
  destruct (0 <=? _)%Z; simpl;
    match goal with |- context [clientUpdate ?h s1] => destruct (clientUpdate h s1) as [[?|?] ?] end;
    reflexivity.
Qed.

Lemma reconcileParentProxy_unresolved (child : HTTPProxy) (err : error) (s s1 : Cluster) :
  getParentProxy (parentRefOf child) s = (inl err, s1) →
  reconcileParentProxy child s = ((false, Some err), s1).
Proof.
  intros Hget. unfold parentRefOf in *.
  unfold reconcileParentProxy, bind. rewrite Hget. reflexivity.
Qed.

Lemma cleanupParentProxy_resolved (child parent : HTTPProxy) (s s1 : Cluster) :
  getParentProxy (parentRefOf child) s = (inr parent, s1) →
  cleanupParentProxy child s =
  if negb (allowsInclusion (ObjectMeta parent))
  then (Some (ErrInclusionNotAllowed (parentRefOf child)), s1)
  else if (findIncludeRef (Includes (Spec parent)) (ObjectMeta child) <? 0)%Z
  then (None, s1)
  else
    let (u, s2) :=
      clientUpdate
        (setIncludes parent (excisedIncludes (Includes (Spec parent)) (ObjectMeta child))) s1 in
    (match u with inl err => Some err | inr _ => None end, s2).
Proof.
  intros Hget. unfold parentRefOf in *. unfold cleanupParentProxy, bind. rewrite Hget.
  unfold allowsInclusion, excisedIncludes, ret. cbv zeta.
  destruct (negb _); [reflexivity |].
  destruct (_ <? 0)%Z; [reflexivity |].
  match goal with |- context [clientUpdate ?h s1] => destruct (clientUpdate h s1) as [[?|?] ?] end;
    reflexivity.
Qed.

Lemma cleanupParentProxy_unresolved (child : HTTPProxy) (err : error) (s s1 : Cluster) :
  getParentProxy (parentRefOf child) s = (inl err, s1) →
  cleanupParentProxy child s = (Some err, s1).
Proof.
  intros Hget. unfold parentRefOf in *.
  unfold cleanupParentProxy, bind. rewrite Hget. reflexivity.
Qed.

(** ** Merging a child into its parent: [reconcileParentProxy] *)

Lemma desiredPrefix_default (m : v1.ObjectMeta) :
  v1.Annotations m !! pathPrefixAnnotation = None ∨
  v1.Annotations m !! pathPrefixAnnotation = Some "" →
  desiredPrefix m = "/" +:+ v1.Name m.
Proof.
  intros H. unfold desiredPrefix, annotation.
  destruct H as [-> | ->]; reflexivity.
Qed.

Lemma desiredPrefix_declared (m : v1.ObjectMeta) (P : string) :
  v1.Annotations m !! pathPrefixAnnotation = Some P → P ≠ "" →
  desiredPrefix m = P.
Proof.
  intros H HP. unfold desiredPrefix, annotation. rewrite H. simpl.
  destruct (String.eqb_spec P ""); [contradiction | reflexivity].
Qed.

(** The entry a successful merge leaves for the child: the child's
    identity with the one-condition list of the desired prefix. *)
Lemma mergedIncludes_entry (l : list Include) (m : v1.ObjectMeta) (P : string) :
  ∃ e, entryOf (mergedIncludes l m P) m = Some e ∧
       identity e = identityOf m ∧
       Conditions e = prefixCondition P.
Proof.
  destruct (first_entry_split l m) as [Habs | (l1 & e & l2 & -> & He & H1)].
  - rewrite mergedIncludes_absent by exact Habs.
    eexists. split; [apply entryOf_first; [exact Habs | reflexivity] |].
    split; reflexivity.
  - rewrite mergedIncludes_first by assumption.
    eexists. split; [apply entryOf_first; [exact H1 | exact He] |].
    split; [exact He | reflexivity].
Qed.

Section ResolvedParent.

(** The child's reference names a stored parent, and the store answered. *)
Variables (child parent : HTTPProxy) (s s1 : Cluster).
Hypothesis Hresolved : getParentProxy (parentRefOf child) s = (inr parent, s1).

(** A merge that reports success stored the parent with the merged list,
    after the permission and duplicate checks passed. *)
Lemma reconcileParentProxy_success (s' : Cluster) :
  reconcileParentProxy child s = ((true, None), s') →
  allowsInclusion (ObjectMeta parent) = true ∧
  isPrefixDuplicate (Includes (Spec parent)) (ObjectMeta child)
    (desiredPrefix (ObjectMeta child)) = false ∧
  objects s' =
    <[keyOf parent :=
        stored (setIncludes parent
                  (mergedIncludes (Includes (Spec parent)) (ObjectMeta child)
                     (desiredPrefix (ObjectMeta child))))]> (objects s) ∧
  writes s' =
    stored (setIncludes parent
              (mergedIncludes (Includes (Spec parent)) (ObjectMeta child)
                 (desiredPrefix (ObjectMeta child)))) :: writes s ∧
  faults s' = faults (tick s1).
Proof.
  intros Hrun. pose proof Hresolved as Hget.
  rewrite (reconcileParentProxy_resolved _ _ _ _ Hget) in Hrun.
  apply getParentProxy_inr in Hget as (_ & -> & _).
  destruct (allowsInclusion (ObjectMeta parent)); simpl in Hrun; [| discriminate].
  destruct (isPrefixDuplicate _ _ _); [discriminate |].
  destruct (clientUpdate _ _) as [[err | h'] s2] eqn:Hu; [discriminate |].
  injection Hrun as <-. apply clientUpdate_inr in Hu as (_ & Ho & Hw & Hf).
  auto.
Qed.

(** C3: with the parent resolved, a parent without the
    inclusion-permission annotation at exactly ["true"] makes the merge fail with the inclusion-not-permitted error, and
    nothing is written: the store and its write history are as before.  With
    the annotation at ["true"] the merge never fails with that error. *)
Theorem merge_inclusion_not_permitted :
  (v1.Annotations (ObjectMeta parent) !! allowInclusionAnnotation ≠ Some "true" →
   reconcileParentProxy child s =
     ((true, Some (ErrInclusionNotAllowed (parentRefOf child))), s1) ∧
   objects s1 = objects s ∧ writes s1 = writes s) ∧
  (v1.Annotations (ObjectMeta parent) !! allowInclusionAnnotation = Some "true" →
   ∀ ref, snd (fst (reconcileParentProxy child s)) ≠ Some (ErrInclusionNotAllowed ref)).
Proof.
  pose proof Hresolved as Hget. rewrite (reconcileParentProxy_resolved _ _ _ _ Hget).
  apply getParentProxy_inr in Hget as (_ & -> & _).
  split.
  - intros Hno. rewrite <- allowsInclusion_iff in Hno.
    destruct (allowsInclusion (ObjectMeta parent)); [congruence |].
    simpl. auto.
  - intros Hyes ref. apply allowsInclusion_iff in Hyes. rewrite Hyes. simpl.
    destruct (isPrefixDuplicate _ _ _); [discriminate |].
    destruct (clientUpdate _ _) as [[err | h'] s2] eqn:Hu; simpl; [| discriminate].
    apply clientUpdate_inl in Hu as (_ & e & ->). discriminate.
Qed.

(** C1: with the parent resolved and permitting inclusion, an entry of
    another identity that carries the desired prefix makes the merge fail
    with the duplicate-prefix error and leaves the store and its write
    history untouched; when only the child's own entries carry the prefix
    the merge does not fail with that error, and succeeds whenever the store
    takes the write. *)
Theorem merge_duplicate_prefix :
  allowsInclusion (ObjectMeta parent) = true →
  ((∃ i, i ∈ Includes (Spec parent) ∧
         identity i ≠ identityOf (ObjectMeta child) ∧
         hasPrefix i (desiredPrefix (ObjectMeta child))) →
   reconcileParentProxy child s = ((true, Some ErrDuplicatePrefix), s1) ∧
   objects s1 = objects s ∧ writes s1 = writes s) ∧
  ((∀ i, i ∈ Includes (Spec parent) →
         hasPrefix i (desiredPrefix (ObjectMeta child)) →
         identity i = identityOf (ObjectMeta child)) →
   snd (fst (reconcileParentProxy child s)) ≠ Some ErrDuplicatePrefix ∧
   (wfCluster s → fst (nextFault s1) = None →
    fst (reconcileParentProxy child s) = (true, None))).
Proof.
  intros Hallow. pose proof Hresolved as Hget.
  rewrite (reconcileParentProxy_resolved _ _ _ _ Hget), Hallow.
  apply getParentProxy_inr in Hget as (Hstored & -> & _). simpl negb. cbv iota.
  split.
  - intros Hdup. apply isPrefixDuplicate_true in Hdup. rewrite Hdup. auto.
  - intros Hself. apply isPrefixDuplicate_false in Hself. rewrite Hself.
    split.
    + destruct (clientUpdate _ _) as [[err | h'] s2] eqn:Hu; simpl; [| discriminate].
      apply clientUpdate_inl in Hu as (_ & e & ->). discriminate.
    + intros Hwf Hfault.
      pose proof (Hwf _ _ Hstored) as Hkey.
      destruct (clientUpdate_accepted
                  (setIncludes parent
                     (mergedIncludes (Includes (Spec parent)) (ObjectMeta child)
                        (desiredPrefix (ObjectMeta child))))
                  parent (tick s) Hfault) as (s2 & -> & _).
      * change (keyOf (setIncludes parent _)) with (keyOf parent).
        rewrite Hkey. exact Hstored.
      * reflexivity.
      * reflexivity.
Qed.

(** C2: a successful merge stores the parent with a list in which the
    child's located entry has its conditions replaced at the same position,
    or, when no entry names the child, a new entry appended at the end;
    entries of other identities keep their positions and contents, and no
    further entry for the child appears (one entry when the list had at
    most one). *)
Theorem merge_upsert (s' : Cluster) :
  reconcileParentProxy child s = ((true, None), s') →
  ∃ parent',
    writes s' = parent' :: writes s ∧
    objects s' = <[keyOf parent := parent']> (objects s) ∧
    ObjectMeta parent' = ObjectMeta (stored parent) ∧
    (∀ l1 e l2,
        Includes (Spec parent) = l1 ++ e :: l2 →
        identity e = identityOf (ObjectMeta child) →
        (∀ x, x ∈ l1 → identity x ≠ identityOf (ObjectMeta child)) →
        Includes (Spec parent') =
          l1 ++ {| Name := Name e; Namespace := Namespace e;
                   Conditions := prefixCondition (desiredPrefix (ObjectMeta child)) |} :: l2) ∧
    ((∀ x, x ∈ Includes (Spec parent) → identity x ≠ identityOf (ObjectMeta child)) →
        Includes (Spec parent') =
          Includes (Spec parent) ++
          [ {| Name := v1.Name (ObjectMeta child);
               Namespace := v1.Namespace (ObjectMeta child);
               Conditions := prefixCondition (desiredPrefix (ObjectMeta child)) |} ]) ∧
    (∀ (j : nat) x,
        Includes (Spec parent) !! j = Some x →
        identity x ≠ identityOf (ObjectMeta child) →
        Includes (Spec parent') !! j = Some x) ∧
    length (entriesOf (Includes (Spec parent')) (ObjectMeta child)) =
      Nat.max 1 (length (entriesOf (Includes (Spec parent)) (ObjectMeta child))).
Proof.
  intros Hrun.
  destruct (reconcileParentProxy_success _ Hrun) as (_ & _ & Ho & Hw & _).
  eexists. split; [exact Hw |]. split; [exact Ho |]. split; [reflexivity |].
  simpl. set (m := ObjectMeta child). set (P := desiredPrefix m).
  set (L := Includes (Spec parent)).
  split; [| split; [| split]].
  - intros l1 e l2 -> He H1. apply mergedIncludes_first; assumption.
  - intros Habs. apply mergedIncludes_absent. exact Habs.
  - intros j x Hj Hx.
    destruct (first_entry_split L m) as [Habs | (l1 & e & l2 & HL & He & H1)].
    + rewrite mergedIncludes_absent by exact Habs.
      apply lookup_app_l_Some. exact Hj.
    + rewrite HL in Hj |- *. rewrite mergedIncludes_first by assumption.
      destruct (Nat.lt_total j (length l1)) as [Hlt | [-> | Hgt]].
      * rewrite lookup_app_l in Hj |- * by exact Hlt. exact Hj.
      * rewrite list_lookup_middle in Hj by reflexivity.
        injection Hj as <-. contradiction.
      * rewrite lookup_app_r in Hj |- * by lia.
        destruct (j - length l1)%nat as [|k] eqn:Hk; [lia |]. exact Hj.
  - destruct (first_entry_split L m) as [Habs | (l1 & e & l2 & HL & He & H1)].
    + rewrite mergedIncludes_absent by exact Habs.
      rewrite entriesOf_app, (entriesOf_absent L m Habs). unfold entriesOf. simpl.
      assert (sameIdentity
                {| Name := v1.Name m; Namespace := v1.Namespace m;
                   Conditions := prefixCondition P |} m = true) as ->
        by (apply sameIdentity_true; reflexivity).
      reflexivity.
    + rewrite HL. rewrite mergedIncludes_first by assumption.
      rewrite !entriesOf_app, (entriesOf_absent l1 m H1). unfold entriesOf. simpl.
      assert (sameIdentity e m = true) as -> by (apply sameIdentity_true; exact He).
      assert (sameIdentity (setConditions e (prefixCondition P)) m = true) as ->
        by (apply sameIdentity_true; exact He).
      simpl. reflexivity.
Qed.

(** C6: when the child's prefix annotation is absent or empty, the entry a
    successful merge leaves for the child in the stored parent has the
    single prefix [/] followed by the child's name. *)
Theorem merge_default_prefix (s' : Cluster) :
  reconcileParentProxy child s = ((true, None), s') →
  v1.Annotations (ObjectMeta child) !! pathPrefixAnnotation = None ∨
  v1.Annotations (ObjectMeta child) !! pathPrefixAnnotation = Some "" →
  ∃ parent' e,
    objects s' !! keyOf parent = Some parent' ∧
    writes s' = parent' :: writes s ∧
    entryOf (Includes (Spec parent')) (ObjectMeta child) = Some e ∧
    identity e = identityOf (ObjectMeta child) ∧
    map Prefix (Conditions e) = [ "/" +:+ v1.Name (ObjectMeta child) ].
Proof.
  intros Hrun Hann.
  destruct (reconcileParentProxy_success _ Hrun) as (_ & _ & Ho & Hw & _).
  destruct (mergedIncludes_entry (Includes (Spec parent)) (ObjectMeta child)
              (desiredPrefix (ObjectMeta child))) as (e & He & Hid & Hc).
  eexists _, e. split; [rewrite Ho; apply lookup_insert_eq |].
  split; [exact Hw |]. split; [exact He |]. split; [exact Hid |].
  rewrite Hc, (desiredPrefix_default _ Hann). reflexivity.
Qed.

(** C10: after a successful merge the child's entry in the stored parent
    has exactly one match condition, the desired prefix with no header
    match; an entry that was updated keeps its name and namespace and loses
    every condition it had. *)
Theorem merge_conditions_replaced (s' : Cluster) :
  reconcileParentProxy child s = ((true, None), s') →
  ∃ parent' e,
    objects s' !! keyOf parent = Some parent' ∧
    entryOf (Includes (Spec parent')) (ObjectMeta child) = Some e ∧
    Conditions e = [ {| Prefix := desiredPrefix (ObjectMeta child); Header := None |} ] ∧
    (∀ l1 old l2,
        Includes (Spec parent) = l1 ++ old :: l2 →
        identity old = identityOf (ObjectMeta child) →
        (∀ x, x ∈ l1 → identity x ≠ identityOf (ObjectMeta child)) →
        e = {| Name := Name old; Namespace := Namespace old;
               Conditions := [ {| Prefix := desiredPrefix (ObjectMeta child);
                                  Header := None |} ] |} ∧
        Includes (Spec parent') = l1 ++ e :: l2).
Proof.
  intros Hrun.
  destruct (reconcileParentProxy_success _ Hrun) as (_ & _ & Ho & _).
  destruct (mergedIncludes_entry (Includes (Spec parent)) (ObjectMeta child)
              (desiredPrefix (ObjectMeta child))) as (e & He & Hid & Hc).
  eexists _, e. split; [rewrite Ho; apply lookup_insert_eq |].
  split; [exact He |]. split; [exact Hc |].
  intros l1 old l2 HL Hold H1. simpl in He |- *. rewrite HL in He |- *.
  rewrite mergedIncludes_first in He |- * by assumption.
  rewrite entryOf_first in He by assumption.
  injection He as <-. split; reflexivity.
Qed.

End ResolvedParent.

(** *** Merging twice *)

Lemma isPrefixDuplicate_app (l1 l2 : list Include) (m : v1.ObjectMeta) (P : string) :
  isPrefixDuplicate (l1 ++ l2) m P = isPrefixDuplicate l1 m P || isPrefixDuplicate l2 m P.
Proof.
  induction l1 as [|x l1 IH]; simpl; [reflexivity |].
  destruct (sameIdentity x m); [exact IH |].
  destruct (conditionsHavePrefix (Conditions x) P); [reflexivity | exact IH].
Qed.

Lemma isPrefixDuplicate_own (e : Include) (l : list Include) (m : v1.ObjectMeta) (P : string) :
  identity e = identityOf m →
  isPrefixDuplicate (e :: l) m P = isPrefixDuplicate l m P.
Proof. intros He. apply sameIdentity_true in He. simpl. rewrite He. reflexivity. Qed.

(** The duplicate check does not see what the merge changed. *)
Lemma isPrefixDuplicate_merged (l : list Include) (m : v1.ObjectMeta) (P Q : string) :
  isPrefixDuplicate (mergedIncludes l m Q) m P = isPrefixDuplicate l m P.
Proof.
  destruct (first_entry_split l m) as [Habs | (l1 & e & l2 & -> & He & H1)].
  - rewrite mergedIncludes_absent by exact Habs.
    rewrite isPrefixDuplicate_app, isPrefixDuplicate_own by reflexivity.
    simpl. apply orb_false_r.
  - rewrite mergedIncludes_first by assumption.
    rewrite !isPrefixDuplicate_app, !isPrefixDuplicate_own by exact He. reflexivity.
Qed.

Lemma mergedIncludes_idempotent (l : list Include) (m : v1.ObjectMeta) (P : string) :
  mergedIncludes (mergedIncludes l m P) m P = mergedIncludes l m P.
Proof.
  destruct (first_entry_split l m) as [Habs | (l1 & e & l2 & -> & He & H1)].
  - rewrite (mergedIncludes_absent l m P Habs).
    rewrite mergedIncludes_first; [reflexivity | exact Habs | reflexivity].
  - rewrite (mergedIncludes_first l1 l2 e m P H1 He).
    rewrite mergedIncludes_first; [reflexivity | exact H1 | exact He].
Qed.

(** A run that stops (the first result is true) resolved the parent. *)
Lemma reconcileParentProxy_stop (child : HTTPProxy) (err : option error) (s s' : Cluster) :
  reconcileParentProxy child s = ((true, err), s') →
  ∃ parent, getParentProxy (parentRefOf child) s = (inr parent, tick s).
Proof.
  intros Hrun.
  destruct (getParentProxy (parentRefOf child) s) as [[e | parent] s1] eqn:Hget.
  - rewrite (reconcileParentProxy_unresolved _ _ _ _ Hget) in Hrun. discriminate.
  - exists parent. pose proof Hget as Hg. apply getParentProxy_inr in Hg as (_ & -> & _).
    reflexivity.
Qed.

(** C8: merging again, on the store the first merge left, succeeds and
    leaves every stored include list as the first merge left it; a merge
    that was refused is refused again with the same error and the store
    still unchanged. *)
Theorem merge_idempotent (child : HTTPProxy) (s s' : Cluster) :
  wfCluster s →
  available s' →
  (reconcileParentProxy child s = ((true, None), s') →
   ∃ s'', reconcileParentProxy child s' = ((true, None), s'') ∧
          ∀ key, storedIncludes s'' key = storedIncludes s' key) ∧
  (∀ err, reconcileParentProxy child s = ((true, Some err), s') →
   ∃ s'', reconcileParentProxy child s' = ((true, Some err), s'') ∧
          objects s'' = objects s' ∧ objects s' = objects s).
Proof.
  intros Hwf Hav. split.
  - intros Hrun.
    destruct (reconcileParentProxy_stop _ _ _ _ Hrun) as (parent & Hget).
    destruct (reconcileParentProxy_success _ _ _ _ Hget _ Hrun) as (Hallow & Hdup & Ho & _).
    pose proof (getParentProxy_inr_two _ _ _ _ Hget) as Htwo.
    apply getParentProxy_inr in Hget as (Hstored & _ & _).
    pose proof (Hwf _ _ Hstored) as Hkey.
    set (m := ObjectMeta child) in *. set (P := desiredPrefix m) in *.
    set (M := mergedIncludes (Includes (Spec parent)) m P) in *.
    set (p1 := stored (setIncludes parent M)) in *.
    assert (objects s' !! parentKey (parentRefOf child) = Some p1) as Hp1
      by (rewrite Ho, Hkey; apply lookup_insert_eq).
    pose proof (getParentProxy_stored _ _ _ Htwo (available_no_fault _ Hav) Hp1) as Hget'.
    rewrite (reconcileParentProxy_resolved _ _ _ _ Hget').
    change (allowsInclusion (ObjectMeta p1)) with (allowsInclusion (ObjectMeta parent)).
    rewrite Hallow. simpl negb. cbv iota.
    change (Includes (Spec p1)) with M. fold m P.
    unfold M at 1. rewrite isPrefixDuplicate_merged. fold m P in Hdup. rewrite Hdup.
    unfold M at 1. rewrite mergedIncludes_idempotent. fold M.
    destruct (clientUpdate_accepted (setIncludes p1 M) p1 (tick s')
                (available_no_fault _ (available_tick _ Hav))) as (s'' & -> & Ho' & _).
    + change (keyOf (setIncludes p1 M)) with (keyOf parent). rewrite Hkey. exact Hp1.
    + reflexivity.
    + exists s''. split; [reflexivity |].
      intros key. unfold storedIncludes. rewrite Ho'.
      change (keyOf (setIncludes p1 M)) with (keyOf parent). rewrite Hkey.
      rewrite objects_tick.
      destruct (decide (parentKey (parentRefOf child) = key)) as [<- | Hne].
      * rewrite lookup_insert_eq, Hp1. reflexivity.
      * rewrite lookup_insert_ne by exact Hne. reflexivity.
  - intros err Hrun.
    destruct (reconcileParentProxy_stop _ _ _ _ Hrun) as (parent & Hget).
    pose proof (getParentProxy_inr_two _ _ _ _ Hget) as Htwo.
    pose proof Hget as Hg. apply getParentProxy_inr in Hg as (Hstored & _ & _).
    rewrite (reconcileParentProxy_resolved _ _ _ _ Hget) in Hrun.
    assert (s' = tick s) as ->.
    { destruct (negb _); [injection Hrun as _ <-; reflexivity |].
      destruct (isPrefixDuplicate _ _ _); [injection Hrun as _ <-; reflexivity |].
      destruct (clientUpdate _ _) as [[e | h'] s2]; discriminate. }
    pose proof (getParentProxy_stored _ _ _ Htwo (available_no_fault _ Hav) Hstored) as Hget'.
    rewrite (reconcileParentProxy_resolved _ _ _ _ Hget').
    exists (tick (tick s)).
    destruct (negb _); [injection Hrun as <-; auto |].
    destruct (isPrefixDuplicate _ _ _); [injection Hrun as <-; auto |].
    destruct (clientUpdate _ _) as [[e | h'] s2]; discriminate.
Qed.

(** ** Removing a child from its parent: [cleanupParentProxy] *)

(** C7: with the parent resolved and permitting inclusion, the removal
    locates the child's entry by its namespace and name.  When no entry
    names the child it returns without error and without writing; otherwise
    the list it stores is the parent's list without the located entry, the
    entries before and after it in their order, and the only errors are the
    store's, which leave the store as it was. *)
Theorem remove_excises_entry (child parent : HTTPProxy) (s s1 : Cluster) :
  getParentProxy (parentRefOf child) s = (inr parent, s1) →
  allowsInclusion (ObjectMeta parent) = true →
  ((∀ x, x ∈ Includes (Spec parent) → identity x ≠ identityOf (ObjectMeta child)) →
   cleanupParentProxy child s = (None, s1) ∧
   objects s1 = objects s ∧ writes s1 = writes s) ∧
  (∀ l1 e l2,
      Includes (Spec parent) = l1 ++ e :: l2 →
      identity e = identityOf (ObjectMeta child) →
      (∀ x, x ∈ l1 → identity x ≠ identityOf (ObjectMeta child)) →
      (∀ s', cleanupParentProxy child s = (None, s') →
             objects s' = <[keyOf parent := stored (setIncludes parent (l1 ++ l2))]> (objects s) ∧
             writes s' = stored (setIncludes parent (l1 ++ l2)) :: writes s) ∧
      (∀ err s', cleanupParentProxy child s = (Some err, s') →
             (∃ e', err = ErrClient e') ∧ objects s' = objects s ∧ writes s' = writes s) ∧
      (wfCluster s → fst (nextFault s1) = None →
       fst (cleanupParentProxy child s) = None)).
Proof.
  intros Hget Hallow. rewrite (cleanupParentProxy_resolved _ _ _ _ Hget), Hallow.
  apply getParentProxy_inr in Hget as (Hstored & -> & _). simpl negb. cbv iota.
  split.
  - intros Habs. rewrite findIncludeRef_absent by exact Habs. auto.
  - intros l1 e l2 HL He H1. rewrite HL.
    rewrite findIncludeRef_first, excisedIncludes_first by assumption.
    destruct (Z.ltb_spec (Z.of_nat (length l1)) 0) as [Hlt | _]; [lia |].
    split; [| split].
    + intros s' Hrun.
      destruct (clientUpdate _ _) as [[err | h'] s2] eqn:Hu; [discriminate |].
      injection Hrun as <-. apply clientUpdate_inr in Hu as (_ & Ho & Hw & _). auto.
    + intros err s' Hrun.
      destruct (clientUpdate _ _) as [[err' | h'] s2] eqn:Hu; [| discriminate].
      injection Hrun as <- <-. apply clientUpdate_inl in Hu as (-> & Herr). auto.
    + intros Hwf Hfault. pose proof (Hwf _ _ Hstored) as Hkey.
      destruct (clientUpdate_accepted (setIncludes parent (l1 ++ l2)) parent (tick s) Hfault)
        as (s2 & -> & _); [| reflexivity | reflexivity].
      change (keyOf (setIncludes parent _)) with (keyOf parent).
      rewrite Hkey. exact Hstored.
Qed.

(** ** Parsing the parent reference: [getParentProxy] *)

(** C5, as the code has it: a reference that does not hold exactly one [/]
    is refused with the invalid-parent error before the store is asked; a
    reference with exactly one [/] is looked up under the text before it as
    namespace and the text after it as name, either of which may be empty. *)
Theorem parent_reference_parse (parentRef : string) (s : Cluster) :
  (occurrences "/" parentRef ≠ 1%nat →
   getParentProxy parentRef s = (inl (ErrInvalidParent (Split parentRef "/")), s)) ∧
  (∀ ns name : string,
     parentRef = ns +:+ String "/" name →
     occurrences "/" ns = 0%nat → occurrences "/" name = 0%nat →
     getParentProxy parentRef s = clientGet (ns, name) s).
Proof.
  split.
  - apply getParentProxy_invalid.
  - intros ns name -> Hns Hname. unfold getParentProxy.
    rewrite Split_append, Split_plain by assumption. reflexivity.
Qed.

(** ** The reconciliation of a child whose deletion was requested *)

Lemma hasFinalizer_loop_removed (fs : list string) (finalizer : string) :
  hasFinalizer_loop
    (List.filter (fun e => negb (String.eqb e finalizer)) fs) finalizer = false.
Proof.
  induction fs as [|f fs IH]; simpl; [reflexivity |].
  destruct (String.eqb f finalizer) eqn:Hf; simpl; [exact IH |].
  rewrite Hf. exact IH.
Qed.

Lemma hasFinalizer_RemoveFinalizer (h : HTTPProxy) (finalizer : string) :
  hasFinalizer (stored (RemoveFinalizer h finalizer)) finalizer = false.
Proof. unfold hasFinalizer. simpl. apply hasFinalizer_loop_removed. Qed.


(** The run of [Reconcile] on a stored child that declares a parent, is
    being deleted and carries the finalizer. *)
Lemma Reconcile_terminating (req : ObjectKey) (child : HTTPProxy) (s : Cluster) :
  fst (nextFault s) = None →
  objects s !! req = Some child →
  parentRefOf child ≠ "" →
  v1.IsZero (v1.DeletionTimestamp (ObjectMeta child)) = false →
  hasFinalizer child finalizerName = true →
  Reconcile req s =
  let (c, s2) := cleanupParentProxy child (tick s) in
  match c with
  | Some err => ((emptyResult, Some err), s2)
  | None =>
      let (u, s3) := clientUpdate (RemoveFinalizer child finalizerName) s2 in
      ((emptyResult, match u with inl err => Some err | inr _ => None end), s3)
  end.
Proof.
  intros Hf Hk Href Hdel Hfin. unfold Reconcile, bind.
  rewrite (clientGet_stored _ _ _ Hf Hk).
  destruct (String.eqb_spec (annotation (ObjectMeta child) parentRefAnnotation) "")
    as [Heq | _]; [contradiction |].
  rewrite Hdel, Hfin.
  destruct (cleanupParentProxy child (tick s)) as [[err |] s2]; [reflexivity |].
  destruct (clientUpdate _ s2) as [[err | h'] s3]; reflexivity.
Qed.

(** A cleanup that returns an error wrote nothing. *)
Lemma cleanupParentProxy_objects (child : HTTPProxy) (s s' : Cluster) (err : error) :
  cleanupParentProxy child s = (Some err, s') →
  objects s' = objects s ∧ writes s' = writes s.
Proof.
  intros Hrun.
  destruct (getParentProxy (parentRefOf child) s) as [[e | parent] s1] eqn:Hget.
  - rewrite (cleanupParentProxy_unresolved _ _ _ _ Hget) in Hrun.
    injection Hrun as _ <-. eapply getParentProxy_inl; exact Hget.
  - rewrite (cleanupParentProxy_resolved _ _ _ _ Hget) in Hrun.
    apply getParentProxy_inr in Hget as (_ & -> & _).
    destruct (negb _); [injection Hrun as _ <-; auto |].
    destruct (_ <? 0)%Z; [discriminate |].
    destruct (clientUpdate _ _) as [[e | h'] s2] eqn:Hu; [| discriminate].
    injection Hrun as _ <-. apply clientUpdate_inl in Hu as (-> & _). auto.
Qed.

(** C4, as the code has it: for a stored child that declares a parent, is
    being deleted and carries the finalizer, [Reconcile] first resolves the
    parent and checks its permission.  A parent that is found, permits
    inclusion and holds no entry for the child is no obstacle: nothing is
    written to the parent, the child is written without the finalizer, and
    nothing stored under the child's key carries the finalizer afterwards.
    When the parent holds an entry, the parent is written without it first:
    a run that returns no error wrote the parent and then the child without
    the finalizer, a run that returns an error leaves the child stored with
    the finalizer, and a child that is its own parent gets a conflict.
    When the parent cannot be fetched (a parent that is gone included) or
    does not permit inclusion, [Reconcile] returns that error and writes
    nothing, so the finalizer stays. *)
Theorem terminating_cleanup_requires_parent (req : ObjectKey) (child : HTTPProxy)
    (s : Cluster) :
  fst (nextFault s) = None →
  objects s !! req = Some child →
  parentRefOf child ≠ "" →
  v1.IsZero (v1.DeletionTimestamp (ObjectMeta child)) = false →
  hasFinalizer child finalizerName = true →
  (∀ parent s1,
     getParentProxy (parentRefOf child) (tick s) = (inr parent, s1) →
     allowsInclusion (ObjectMeta parent) = true →
     (∀ x, x ∈ Includes (Spec parent) → identity x ≠ identityOf (ObjectMeta child)) →
     wfCluster s → fst (nextFault s1) = None →
     ∃ s', Reconcile req s = ((emptyResult, None), s') ∧
           writes s' = stored (RemoveFinalizer child finalizerName) :: writes s ∧
           (∀ k, k ≠ req → objects s' !! k = objects s !! k) ∧
           (∀ h, objects s' !! req = Some h → hasFinalizer h finalizerName = false)) ∧
  (∀ parent s1 l1 e l2,
     getParentProxy (parentRefOf child) (tick s) = (inr parent, s1) →
     allowsInclusion (ObjectMeta parent) = true →
     Includes (Spec parent) = l1 ++ e :: l2 →
     identity e = identityOf (ObjectMeta child) →
     (∀ x, x ∈ l1 → identity x ≠ identityOf (ObjectMeta child)) →
     wfCluster s →
     (∀ s', Reconcile req s = ((emptyResult, None), s') →
            parentKey (parentRefOf child) ≠ req ∧
            writes s' = stored (RemoveFinalizer child finalizerName)
                          :: stored (setIncludes parent (l1 ++ l2)) :: writes s ∧
            (∀ h, objects s' !! req = Some h → hasFinalizer h finalizerName = false)) ∧
     (∀ err s', Reconcile req s = ((emptyResult, Some err), s') →
            (∃ e', err = ErrClient e') ∧
            ∃ h, objects s' !! req = Some h ∧ hasFinalizer h finalizerName = true) ∧
     (fst (nextFault s1) = None → fst (nextFault (tick s1)) = None →
      fst (Reconcile req s) =
        (emptyResult,
         if decide (parentKey (parentRefOf child) = req)
         then Some (ErrClient StatusConflict) else None))) ∧
  (∀ err s1,
     getParentProxy (parentRefOf child) (tick s) = (inl err, s1) →
     Reconcile req s = ((emptyResult, Some err), s1) ∧
     objects s1 = objects s ∧ writes s1 = writes s) ∧
  (occurrences "/" (parentRefOf child) = 1%nat →
   fst (nextFault (tick s)) = None →
   objects s !! parentKey (parentRefOf child) = None →
   Reconcile req s = ((emptyResult, Some (ErrClient StatusNotFound)), tick (tick s))) ∧
  (∀ parent s1,
     getParentProxy (parentRefOf child) (tick s) = (inr parent, s1) →
     allowsInclusion (ObjectMeta parent) = false →
     Reconcile req s = ((emptyResult, Some (ErrInclusionNotAllowed (parentRefOf child))), s1) ∧
     objects s1 = objects s ∧ writes s1 = writes s).
Proof.
  intros Hf Hk Href Hdel Hfin.
  rewrite (Reconcile_terminating _ _ _ Hf Hk Href Hdel Hfin).
  split; [| split; [| split; [| split]]].
  - intros parent s1 Hget Hallow Habs Hwf Hf1.
    rewrite (cleanupParentProxy_resolved _ _ _ _ Hget), Hallow.
    rewrite findIncludeRef_absent by exact Habs. simpl.
    apply getParentProxy_inr in Hget as (_ & -> & _).
    pose proof (Hwf _ _ Hk) as Hkey.
    destruct (clientUpdate_accepted (RemoveFinalizer child finalizerName) child
                (tick (tick s)) Hf1) as (s' & -> & Ho & Hw & _).
    + change (keyOf (RemoveFinalizer child finalizerName)) with (keyOf child).
      rewrite Hkey. exact Hk.
    + reflexivity.
    + exists s'. change (keyOf (RemoveFinalizer child finalizerName)) with (keyOf child) in Ho.
      rewrite Hkey in Ho.
      split; [reflexivity |]. split; [exact Hw |]. split.
      * intros k Hne. rewrite Ho, lookup_insert_ne by congruence. reflexivity.
      * intros h. rewrite Ho, lookup_insert_eq. intros H. injection H as <-.
        apply hasFinalizer_RemoveFinalizer.
  - intros parent s1 l1 e l2 Hget Hallow HL He H1 Hwf.
    rewrite (cleanupParentProxy_resolved _ _ _ _ Hget), Hallow. simpl negb. cbv iota.
    rewrite HL, findIncludeRef_first, excisedIncludes_first by assumption.
    destruct (Z.ltb_spec (Z.of_nat (length l1)) 0) as [Hlt | _]; [lia |].
    apply getParentProxy_inr in Hget as (Hstored & -> & _). rewrite objects_tick in Hstored.
    pose proof (Hwf _ _ Hk) as Hkey. pose proof (Hwf _ _ Hstored) as Hpkey.
    destruct (clientUpdate (setIncludes parent (l1 ++ l2)) (tick (tick s)))
      as [[err1 | p'] s2] eqn:Hup.
    { (* the parent's write is refused *)
      pose proof (clientUpdate_inl _ _ _ _ Hup) as (-> & e1 & ->).
      split; [intros s' H; discriminate |]. split.
      - intros err s' H. injection H as <- <-. split; [eauto |]. exists child. auto.
      - intros Hf1 Hf2. exfalso.
        destruct (clientUpdate_accepted (setIncludes parent (l1 ++ l2)) parent
                    (tick (tick s)) Hf1) as (sx & Hx & _).
        + change (keyOf (setIncludes parent (l1 ++ l2))) with (keyOf parent).
          rewrite Hpkey. exact Hstored.
        + reflexivity.
        + rewrite Hx in Hup. discriminate. }
    pose proof (clientUpdate_inr _ _ _ _ Hup) as (_ & Ho2 & Hw2 & Hfs2).
    change (keyOf (setIncludes parent (l1 ++ l2))) with (keyOf parent) in Ho2.
    rewrite Hpkey, objects_tick, objects_tick in Ho2. simpl in Hw2.
    destruct (clientUpdate (RemoveFinalizer child finalizerName) s2)
      as [[err | h'] s3] eqn:Hu.
    { (* the child's write is refused: the stored child keeps the finalizer *)
      pose proof (clientUpdate_inl _ _ _ _ Hu) as (-> & e2 & ->).
      split; [intros s' H; discriminate |]. split.
      - intros err s' H. injection H as <- <-. split; [eauto |].
        rewrite objects_tick, Ho2.
        destruct (decide (parentKey (parentRefOf child) = req)) as [Heq | Hne].
        + rewrite Heq, lookup_insert_eq. eexists. split; [reflexivity |].
          rewrite Heq, Hk in Hstored. injection Hstored as <-. exact Hfin.
        + rewrite lookup_insert_ne by exact Hne. exists child. auto.
      - intros Hf1 Hf2.
        assert (fst (nextFault s2) = None) as Hf3
          by (rewrite (nextFault_faults s2 (tick (tick (tick s)))); assumption).
        destruct (decide (parentKey (parentRefOf child) = req)) as [Heq | Hne].
        + rewrite (clientUpdate_conflict (RemoveFinalizer child finalizerName)
                     (stored (setIncludes parent (l1 ++ l2))) s2 Hf3) in Hu.
          * injection Hu as <-. reflexivity.
          * change (keyOf (RemoveFinalizer child finalizerName)) with (keyOf child).
            rewrite Hkey, Ho2, Heq. apply lookup_insert_eq.
          * rewrite Heq, Hk in Hstored. injection Hstored as <-. simpl. lia.
        + exfalso.
          destruct (clientUpdate_accepted (RemoveFinalizer child finalizerName) child s2 Hf3)
            as (sx & Hx & _).
          * change (keyOf (RemoveFinalizer child finalizerName)) with (keyOf child).
            rewrite Hkey, Ho2, lookup_insert_ne by exact Hne. exact Hk.
          * reflexivity.
          * rewrite Hx in Hu. discriminate. }
    (* both writes are taken: the parent is another object *)
    pose proof (clientUpdate_inr_version _ _ _ _ Hu) as (cur & Hcur & Hrv).
    pose proof (clientUpdate_inr _ _ _ _ Hu) as (_ & Ho & Hw & _).
    change (keyOf (RemoveFinalizer child finalizerName)) with (keyOf child) in Ho, Hcur.
    rewrite Hkey in Ho, Hcur.
    assert (parentKey (parentRefOf child) ≠ req) as Hne.
    { intros Heq. rewrite Ho2, Heq, lookup_insert_eq in Hcur. injection Hcur as <-.
      rewrite Heq, Hk in Hstored. injection Hstored as <-.
      simpl in Hrv. lia. }
    split; [| split].
    + intros s' H. injection H as <-. split; [exact Hne |]. split.
      * rewrite Hw, Hw2. reflexivity.
      * intros h. rewrite Ho, lookup_insert_eq. intros H. injection H as <-.
        apply hasFinalizer_RemoveFinalizer.
    + intros err s' H. discriminate.
    + intros _ _. destruct (decide (parentKey (parentRefOf child) = req)); [contradiction |].
      reflexivity.
  - intros err s1 Hget.
    rewrite (cleanupParentProxy_unresolved _ _ _ _ Hget).
    split; [reflexivity |].
    destruct (getParentProxy_inl _ _ _ _ Hget) as [Ho Hw]. rewrite Ho, Hw. auto.
  - intros Htwo Hf1 Hmiss.
    assert (getParentProxy (parentRefOf child) (tick s) =
            (inl (ErrClient StatusNotFound), tick (tick s))) as Hget
      by (rewrite getParentProxy_two by exact Htwo; apply clientGet_missing; assumption).
    rewrite (cleanupParentProxy_unresolved _ _ _ _ Hget). reflexivity.
  - intros parent s1 Hget Hallow.
    rewrite (cleanupParentProxy_resolved _ _ _ _ Hget), Hallow. simpl.
    apply getParentProxy_inr in Hget as (_ & -> & _). auto.
Qed.


Lemma entriesOf_first (l1 l2 : list Include) (e : Include) (m : v1.ObjectMeta) :
  (∀ x, x ∈ l1 → identity x ≠ identityOf m) →
  identity e = identityOf m →
  entriesOf (l1 ++ e :: l2) m = e :: entriesOf l2 m.
Proof.
  intros H1 He. rewrite entriesOf_app, (entriesOf_absent l1 m H1).
  unfold entriesOf. simpl. apply sameIdentity_true in He. rewrite He. reflexivity.
Qed.


(** ** The scenarios, run *)

Lemma wfCluster_mkCluster (l : list HTTPProxy) : wfCluster (mkCluster l).
Proof.
  intros k h Hk. unfold mkCluster in Hk. simpl in Hk.
  apply elem_of_list_to_map_2 in Hk.
  apply list_elem_of_fmap in Hk as (x & Heq & _).
  injection Heq as -> ->. reflexivity.
Qed.

Lemma available_mkCluster (l : list HTTPProxy) : available (mkCluster l).
Proof. constructor. Qed.

(** [Split] on the shapes a reference can take. *)
Example Split_shapes :
  Split "root/example" "/" = ["root"; "example"] ∧
  Split "" "/" = [""] ∧
  Split "example" "/" = ["example"] ∧
  Split "/" "/" = [""; ""] ∧
  Split "a/b/c" "/" = ["a"; "b"; "c"].
Proof. repeat split; reflexivity. Qed.

(** The scenarios of the specification, run through [Reconcile]. *)
Example scenario_default_prefix :
  storedIncludes (snd (Reconcile (keyOf blog) (mkCluster [mkProxy (ObjectMeta rootProxy) []; blog])))
    ("root", "example") =
  Some [ {| Name := "blog"; Namespace := "blog-team"; Conditions := prefixCondition "/blog" |} ].
Proof. vm_compute. reflexivity. Qed.

Example scenario_prefix_update :
  let blogEntry P :=
    {| Name := "blog"; Namespace := "blog-team"; Conditions := prefixCondition P |} in
  let renamed :=
    mkProxy (mkMeta "blog-team" "blog"
               [(parentRefAnnotation, "root/example"); (pathPrefixAnnotation, "/newblog")]
               [finalizerName] None) [] in
  storedIncludes
    (snd (Reconcile (keyOf renamed)
            (mkCluster [mkProxy (ObjectMeta rootProxy) [hogeEntry; blogEntry "/blog"]; renamed])))
    ("root", "example") =
  Some [hogeEntry; blogEntry "/newblog"].
Proof. vm_compute. reflexivity. Qed.

Example scenario_duplicate_prefix :
  let s' := snd (Reconcile (keyOf sales) exampleCluster) in
  fst (Reconcile (keyOf sales) exampleCluster) = (emptyResult, None) ∧
  storedIncludes s' ("root", "example") = Some [hogeEntry; newsEntry; shopEntry] ∧
  writes s' = [].
Proof. vm_compute. auto. Qed.

Example scenario_not_permitted :
  let s' := snd (Reconcile (keyOf docs) exampleCluster) in
  storedIncludes s' ("root", "locked") = Some [] ∧ writes s' = [].
Proof. vm_compute. auto. Qed.

Example scenario_deleted_child :
  let s' := snd (Reconcile (keyOf shop) exampleCluster) in
  storedIncludes s' ("root", "example") = Some [hogeEntry; newsEntry] ∧
  objects (storeFinalize (keyOf shop) s') !! keyOf shop = None.
Proof. vm_compute. auto. Qed.

(** ** The theorems at the scenarios *)

(** Every entry of a concrete list is of another identity than the child. *)
Ltac other_identities :=
  let x := fresh "x" in
  let Hx := fresh "Hx" in
  intros x Hx; apply sameIdentity_false;
  repeat (apply elem_of_cons in Hx as [-> | Hx]; [reflexivity |]);
  inversion Hx.

(** [docs] names [root/locked], which lacks the annotation: refused, no write. *)
Lemma merge_inclusion_not_permitted_witness :
  getParentProxy (parentRefOf docs) exampleCluster = (inr lockedProxy, tick exampleCluster) ∧
  v1.Annotations (ObjectMeta lockedProxy) !! allowInclusionAnnotation ≠ Some "true" ∧
  reconcileParentProxy docs exampleCluster =
    ((true, Some (ErrInclusionNotAllowed "root/locked")), tick exampleCluster).
Proof.
  assert (getParentProxy (parentRefOf docs) exampleCluster =
          (inr lockedProxy, tick exampleCluster)) as Hget by (vm_compute; reflexivity).
  assert (v1.Annotations (ObjectMeta lockedProxy) !! allowInclusionAnnotation ≠ Some "true")
    as Hno by (vm_compute; discriminate).
  split; [exact Hget |]. split; [exact Hno |].
  exact (proj1 (proj1 (merge_inclusion_not_permitted docs lockedProxy exampleCluster
                         (tick exampleCluster) Hget) Hno)).
Defined.

(** [sales] asks for the prefix of [hoge]: refused; [news] asks for the
    prefix its own entry carries: merged. *)
Lemma merge_duplicate_prefix_witness :
  getParentProxy (parentRefOf sales) exampleCluster = (inr rootProxy, tick exampleCluster) ∧
  allowsInclusion (ObjectMeta rootProxy) = true ∧
  reconcileParentProxy sales exampleCluster =
    ((true, Some ErrDuplicatePrefix), tick exampleCluster) ∧
  fst (reconcileParentProxy news exampleCluster) = (true, None).
Proof.
  assert (getParentProxy (parentRefOf sales) exampleCluster =
          (inr rootProxy, tick exampleCluster)) as Hget by (vm_compute; reflexivity).
  assert (getParentProxy (parentRefOf news) exampleCluster =
          (inr rootProxy, tick exampleCluster)) as Hget' by (vm_compute; reflexivity).
  assert (allowsInclusion (ObjectMeta rootProxy) = true) as Hallow by reflexivity.
  split; [exact Hget |]. split; [exact Hallow |]. split.
  - apply (proj1 (merge_duplicate_prefix sales rootProxy exampleCluster
                    (tick exampleCluster) Hget Hallow)).
    apply isPrefixDuplicate_true. reflexivity.
  - apply (proj2 (merge_duplicate_prefix news rootProxy exampleCluster
                    (tick exampleCluster) Hget' Hallow)).
    + apply isPrefixDuplicate_false. reflexivity.
    + apply wfCluster_mkCluster.
    + reflexivity.
Defined.

(** [news] has its entry updated in place, [blog] gets one appended. *)
Lemma merge_upsert_witness :
  getParentProxy (parentRefOf news) exampleCluster = (inr rootProxy, tick exampleCluster) ∧
  reconcileParentProxy news exampleCluster =
    ((true, None), snd (reconcileParentProxy news exampleCluster)) ∧
  storedIncludes (snd (reconcileParentProxy news exampleCluster)) ("root", "example") =
    Some [hogeEntry;
          {| Name := "news"; Namespace := "news-team"; Conditions := prefixCondition "/news" |};
          shopEntry] ∧
  storedIncludes (snd (reconcileParentProxy blog exampleCluster)) ("root", "example") =
    Some [hogeEntry; newsEntry; shopEntry;
          {| Name := "blog"; Namespace := "blog-team"; Conditions := prefixCondition "/blog" |}].
Proof.
  assert (getParentProxy (parentRefOf news) exampleCluster =
          (inr rootProxy, tick exampleCluster)) as Hget by (vm_compute; reflexivity).
  assert (getParentProxy (parentRefOf blog) exampleCluster =
          (inr rootProxy, tick exampleCluster)) as Hget' by (vm_compute; reflexivity).
  assert (reconcileParentProxy news exampleCluster =
          ((true, None), snd (reconcileParentProxy news exampleCluster))) as Hrun
    by (vm_compute; reflexivity).
  assert (reconcileParentProxy blog exampleCluster =
          ((true, None), snd (reconcileParentProxy blog exampleCluster))) as Hrun'
    by (vm_compute; reflexivity).
  split; [exact Hget |]. split; [exact Hrun |]. split.
  - destruct (merge_upsert news rootProxy exampleCluster (tick exampleCluster) Hget _ Hrun)
      as (parent' & _ & Ho & _ & Hupdate & _).
    unfold storedIncludes. rewrite Ho.
    change (keyOf rootProxy) with ("root", "example"). rewrite lookup_insert_eq. simpl.
    rewrite (Hupdate [hogeEntry] newsEntry [shopEntry]); [reflexivity | reflexivity | reflexivity |].
    other_identities.
  - destruct (merge_upsert blog rootProxy exampleCluster (tick exampleCluster) Hget' _ Hrun')
      as (parent' & _ & Ho & _ & _ & Happend & _).
    unfold storedIncludes. rewrite Ho.
    change (keyOf rootProxy) with ("root", "example"). rewrite lookup_insert_eq. simpl.
    rewrite Happend; [reflexivity |].
    other_identities.
Defined.

(** [blog] declares no prefix: its entry gets [/blog]. *)
Lemma merge_default_prefix_witness :
  getParentProxy (parentRefOf blog) exampleCluster = (inr rootProxy, tick exampleCluster) ∧
  reconcileParentProxy blog exampleCluster =
    ((true, None), snd (reconcileParentProxy blog exampleCluster)) ∧
  v1.Annotations (ObjectMeta blog) !! pathPrefixAnnotation = None ∧
  ∃ parent' e,
    objects (snd (reconcileParentProxy blog exampleCluster)) !! ("root", "example") = Some parent' ∧
    entryOf (Includes (Spec parent')) (ObjectMeta blog) = Some e ∧
    map Prefix (Conditions e) = ["/blog"].
Proof.
  assert (getParentProxy (parentRefOf blog) exampleCluster =
          (inr rootProxy, tick exampleCluster)) as Hget by (vm_compute; reflexivity).
  assert (reconcileParentProxy blog exampleCluster =
          ((true, None), snd (reconcileParentProxy blog exampleCluster))) as Hrun
    by (vm_compute; reflexivity).
  assert (v1.Annotations (ObjectMeta blog) !! pathPrefixAnnotation = None) as Hnone
    by (vm_compute; reflexivity).
  split; [exact Hget |]. split; [exact Hrun |]. split; [exact Hnone |].
  destruct (merge_default_prefix blog rootProxy exampleCluster (tick exampleCluster)
              Hget _ Hrun (or_introl Hnone)) as (parent' & e & Hk & _ & He & _ & Hp).
  exists parent', e. auto.
Defined.

(** The entry of [news] had a header match and a second prefix: after the
    merge it has the one prefix condition. *)
Lemma merge_conditions_replaced_witness :
  getParentProxy (parentRefOf news) exampleCluster = (inr rootProxy, tick exampleCluster) ∧
  reconcileParentProxy news exampleCluster =
    ((true, None), snd (reconcileParentProxy news exampleCluster)) ∧
  ∃ parent' e,
    objects (snd (reconcileParentProxy news exampleCluster)) !! ("root", "example") = Some parent' ∧
    entryOf (Includes (Spec parent')) (ObjectMeta news) = Some e ∧
    Conditions e = [ {| Prefix := "/news"; Header := None |} ].
Proof.
  assert (getParentProxy (parentRefOf news) exampleCluster =
          (inr rootProxy, tick exampleCluster)) as Hget by (vm_compute; reflexivity).
  assert (reconcileParentProxy news exampleCluster =
          ((true, None), snd (reconcileParentProxy news exampleCluster))) as Hrun
    by (vm_compute; reflexivity).
  split; [exact Hget |]. split; [exact Hrun |].
  destruct (merge_conditions_replaced news rootProxy exampleCluster (tick exampleCluster)
              Hget _ Hrun) as (parent' & e & Hk & He & Hc & _).
  exists parent', e. auto.
Defined.

(** Merging [blog] twice, and [sales] twice. *)
Lemma merge_idempotent_witness :
  wfCluster exampleCluster ∧
  available (snd (reconcileParentProxy blog exampleCluster)) ∧
  (∃ s'', reconcileParentProxy blog (snd (reconcileParentProxy blog exampleCluster)) =
            ((true, None), s'') ∧
          storedIncludes s'' ("root", "example") =
            storedIncludes (snd (reconcileParentProxy blog exampleCluster)) ("root", "example")) ∧
  (∃ s'', reconcileParentProxy sales (tick exampleCluster) =
            ((true, Some ErrDuplicatePrefix), s'')).
Proof.
  assert (wfCluster exampleCluster) as Hwf by apply wfCluster_mkCluster.
  assert (available (snd (reconcileParentProxy blog exampleCluster))) as Hav by constructor.
  assert (available (tick exampleCluster)) as Hav'
    by (apply available_tick, available_mkCluster).
  split; [exact Hwf |]. split; [exact Hav |]. split.
  - destruct (proj1 (merge_idempotent blog exampleCluster _ Hwf Hav)) as (s'' & Hrun & Hsame).
    + vm_compute. reflexivity.
    + exists s''. split; [exact Hrun | apply Hsame].
  - destruct (proj2 (merge_idempotent sales exampleCluster _ Hwf Hav') ErrDuplicatePrefix)
      as (s'' & Hrun & _).
    + vm_compute. reflexivity.
    + exists s''. exact Hrun.
Defined.

(** [guest] has no entry in [root/example]: nothing to do; the entry of
    [shop] is the third of three: the first two stay, in their order. *)
Lemma remove_excises_entry_witness :
  getParentProxy (parentRefOf shop) exampleCluster = (inr rootProxy, tick exampleCluster) ∧
  allowsInclusion (ObjectMeta rootProxy) = true ∧
  cleanupParentProxy guest exampleCluster = (None, tick exampleCluster) ∧
  storedIncludes (snd (cleanupParentProxy shop exampleCluster)) ("root", "example") =
    Some [hogeEntry; newsEntry].
Proof.
  assert (getParentProxy (parentRefOf shop) exampleCluster =
          (inr rootProxy, tick exampleCluster)) as Hget by (vm_compute; reflexivity).
  assert (getParentProxy (parentRefOf guest) exampleCluster =
          (inr rootProxy, tick exampleCluster)) as Hget' by (vm_compute; reflexivity).
  assert (allowsInclusion (ObjectMeta rootProxy) = true) as Hallow by reflexivity.
  split; [exact Hget |]. split; [exact Hallow |]. split.
  - apply (proj1 (remove_excises_entry guest rootProxy exampleCluster
                    (tick exampleCluster) Hget' Hallow)).
    other_identities.
  - destruct (proj2 (remove_excises_entry shop rootProxy exampleCluster
                       (tick exampleCluster) Hget Hallow)
                [hogeEntry; newsEntry] shopEntry []) as (Hdone & _ & _).
    + reflexivity.
    + reflexivity.
    + other_identities.
    + destruct (Hdone (snd (cleanupParentProxy shop exampleCluster))) as (Ho & _).
      * vm_compute. reflexivity.
      * unfold storedIncludes. rewrite Ho.
        change (keyOf rootProxy) with ("root", "example").
        rewrite lookup_insert_eq. reflexivity.
Defined.

(** A reference with an empty name or an empty namespace is not refused:
    the store is asked for it. *)
Lemma parent_reference_empty_segment_counterexample :
  Split "root/" "/" = ["root"; ""] ∧
  getParentProxy "root/" exampleCluster =
    (inl (ErrClient StatusNotFound), tick exampleCluster) ∧
  getParentProxy "/example" exampleCluster = clientGet ("", "example") exampleCluster ∧
  (∀ segs, fst (getParentProxy "root/" exampleCluster) ≠ inl (ErrInvalidParent segs)).
Proof.
  split; [reflexivity |]. split; [vm_compute; reflexivity |].
  split; [reflexivity |].
  intros segs. vm_compute. discriminate.
Qed.

(** The parent of [orphan] is gone, the parent of [tenant] does not permit
    inclusion: the reconciliation of either deleted child returns the error,
    writes nothing and leaves the finalizer on the stored child. *)
Lemma terminating_missing_parent_counterexample :
  (objects exampleCluster !! keyOf orphan = Some orphan ∧
   v1.IsZero (v1.DeletionTimestamp (ObjectMeta orphan)) = false ∧
   hasFinalizer orphan finalizerName = true ∧
   objects exampleCluster !! parentKey (parentRefOf orphan) = None ∧
   Reconcile (keyOf orphan) exampleCluster =
     ((emptyResult, Some (ErrClient StatusNotFound)), tick (tick exampleCluster)) ∧
   objects (tick (tick exampleCluster)) !! keyOf orphan = Some orphan ∧
   writes (tick (tick exampleCluster)) = []) ∧
  (objects exampleCluster !! keyOf tenant = Some tenant ∧
   v1.IsZero (v1.DeletionTimestamp (ObjectMeta tenant)) = false ∧
   hasFinalizer tenant finalizerName = true ∧
   objects exampleCluster !! parentKey (parentRefOf tenant) = Some lockedProxy ∧
   Reconcile (keyOf tenant) exampleCluster =
     ((emptyResult, Some (ErrInclusionNotAllowed "root/locked")), tick (tick exampleCluster)) ∧
   objects (tick (tick exampleCluster)) !! keyOf tenant = Some tenant).
Proof. vm_compute. repeat split; reflexivity. Qed.

(** [guest] has no entry in its parent and loses the finalizer; [shop] has
    one, in a parent that is another object: the run returns no error;
    [looped] is its own parent and holds its own entry: its own write meets
    a conflict; [orphan], whose parent is gone, keeps the finalizer. *)
Lemma terminating_cleanup_requires_parent_witness :
  fst (nextFault exampleCluster) = None ∧
  objects exampleCluster !! keyOf guest = Some guest ∧
  parentRefOf guest ≠ "" ∧
  v1.IsZero (v1.DeletionTimestamp (ObjectMeta guest)) = false ∧
  hasFinalizer guest finalizerName = true ∧
  (∃ s', Reconcile (keyOf guest) exampleCluster = ((emptyResult, None), s') ∧
         writes s' = [stored (RemoveFinalizer guest finalizerName)]) ∧
  fst (Reconcile (keyOf shop) exampleCluster) = (emptyResult, None) ∧
  fst (Reconcile (keyOf looped) loopCluster) = (emptyResult, Some (ErrClient StatusConflict)) ∧
  Reconcile (keyOf orphan) exampleCluster =
    ((emptyResult, Some (ErrClient StatusNotFound)), tick (tick exampleCluster)).
Proof.
  assert (fst (nextFault exampleCluster) = None) as Hf by reflexivity.
  assert (objects exampleCluster !! keyOf guest = Some guest) as Hk
    by (vm_compute; reflexivity).
  assert (objects exampleCluster !! keyOf orphan = Some orphan) as Hk'
    by (vm_compute; reflexivity).
  assert (objects exampleCluster !! keyOf shop = Some shop) as Hk''
    by (vm_compute; reflexivity).
  assert (objects loopCluster !! keyOf looped = Some looped) as Hl
    by (vm_compute; reflexivity).
  assert (parentRefOf guest ≠ "") as Href by (vm_compute; discriminate).
  assert (parentRefOf orphan ≠ "") as Href' by (vm_compute; discriminate).
  assert (parentRefOf shop ≠ "") as Href'' by (vm_compute; discriminate).
  assert (parentRefOf looped ≠ "") as Hlref by (vm_compute; discriminate).
  assert (v1.IsZero (v1.DeletionTimestamp (ObjectMeta guest)) = false) as Hdel
    by reflexivity.
  assert (hasFinalizer guest finalizerName = true) as Hfin by reflexivity.
  repeat (split; [assumption |]). split; [| split; [| split]].
  - destruct (terminating_cleanup_requires_parent (keyOf guest) guest exampleCluster
                Hf Hk Href Hdel Hfin) as (Hgone & _).
    destruct (Hgone rootProxy (tick (tick exampleCluster))) as (s' & Hrun & Hw & _).
    + vm_compute. reflexivity.
    + reflexivity.
    + other_identities.
    + apply wfCluster_mkCluster.
    + reflexivity.
    + exists s'. split; [exact Hrun | exact Hw].
  - destruct (terminating_cleanup_requires_parent (keyOf shop) shop exampleCluster
                Hf Hk'' Href'' eq_refl eq_refl) as (_ & Hentry & _).
    destruct (Hentry rootProxy (tick (tick exampleCluster)) [hogeEntry; newsEntry] shopEntry [])
      as (_ & _ & Hdone).
    + vm_compute. reflexivity.
    + reflexivity.
    + reflexivity.
    + reflexivity.
    + other_identities.
    + apply wfCluster_mkCluster.
    + rewrite Hdone by reflexivity.
      destruct (decide (parentKey (parentRefOf shop) = keyOf shop)) as [Heq | _];
        [vm_compute in Heq; discriminate | reflexivity].
  - destruct (terminating_cleanup_requires_parent (keyOf looped) looped loopCluster
                eq_refl Hl Hlref eq_refl eq_refl) as (_ & Hentry & _).
    destruct (Hentry looped (tick (tick loopCluster)) [] loopedEntry [])
      as (_ & _ & Hdone).
    + vm_compute. reflexivity.
    + reflexivity.
    + reflexivity.
    + reflexivity.
    + intros x Hx. inversion Hx.
    + apply wfCluster_mkCluster.
    + rewrite Hdone by reflexivity.
      destruct (decide (parentKey (parentRefOf looped) = keyOf looped)) as [_ | Hne];
        [reflexivity | exfalso; apply Hne; vm_compute; reflexivity].
  - destruct (terminating_cleanup_requires_parent (keyOf orphan) orphan exampleCluster
                Hf Hk' Href' Hdel Hfin) as (_ & _ & _ & Hmissing & _).
    apply Hmissing; [reflexivity | reflexivity | vm_compute; reflexivity].
Defined.


(** * Further properties of the controller *)

(** ** The loops: [findIncludeRef], [isPrefixDuplicate], [hasFinalizer] *)

(** X1: [findIncludeRef] answers -1 exactly when no entry names the child;
    any other answer is an index inside the list, of an entry that names the
    child, with no such entry before it. *)
Theorem findIncludeRef_index (l : list Include) (m : v1.ObjectMeta) :
  (findIncludeRef l m = -1 ∧ ∀ x, x ∈ l → identity x ≠ identityOf m) ∨
  (0 <= findIncludeRef l m < Z.of_nat (length l) ∧
   (∃ e, l !! Z.to_nat (findIncludeRef l m) = Some e ∧ identity e = identityOf m) ∧
   ∀ (j : nat) x, (j < Z.to_nat (findIncludeRef l m))%nat → l !! j = Some x →
                  identity x ≠ identityOf m).
Proof.
  destruct (first_entry_split l m) as [Habs | (l1 & e & l2 & -> & He & H1)].
  - left. split; [apply findIncludeRef_absent; exact Habs | exact Habs].
  - right. rewrite findIncludeRef_first by assumption. rewrite Nat2Z.id.
    split; [rewrite length_app; simpl; lia |]. split.
    + exists e. split; [apply list_lookup_middle; reflexivity | exact He].
    + intros j x Hj Hx. rewrite lookup_app_l in Hx by exact Hj.
      apply H1. eapply list_elem_of_lookup_2. exact Hx.
Qed.

(** X2: [isPrefixDuplicate] answers true exactly when an entry of another
    identity has a condition with the prefix; the child's own entries never
    count, whatever their conditions, and the order of the list does not
    matter. *)
Theorem isPrefixDuplicate_other_entries (l : list Include) (m : v1.ObjectMeta) (P : string) :
  (isPrefixDuplicate l m P = true ↔
   ∃ i, i ∈ l ∧ identity i ≠ identityOf m ∧ hasPrefix i P) ∧
  isPrefixDuplicate l m P =
    isPrefixDuplicate (List.filter (fun i => negb (sameIdentity i m)) l) m P ∧
  (∀ l', l ≡ₚ l' → isPrefixDuplicate l' m P = isPrefixDuplicate l m P).
Proof.
  split; [apply isPrefixDuplicate_true |]. split.
  - induction l as [|x l IH]; simpl; [reflexivity |].
    destruct (sameIdentity x m) eqn:Hx; simpl; [exact IH |].
    rewrite Hx. destruct (conditionsHavePrefix (Conditions x) P); [reflexivity | exact IH].
  - intros l' Hperm.
    destruct (isPrefixDuplicate l m P) eqn:Hl.
    + apply isPrefixDuplicate_true in Hl as (i & Hi & Hne & Hp).
      apply isPrefixDuplicate_true. exists i. rewrite <- Hperm. auto.
    + destruct (isPrefixDuplicate l' m P) eqn:Hl'; [| reflexivity].
      apply isPrefixDuplicate_true in Hl' as (i & Hi & Hne & Hp).
      rewrite <- Hperm in Hi.
      assert (isPrefixDuplicate l m P = true) by (apply isPrefixDuplicate_true; eauto).
      congruence.
Qed.

Lemma hasFinalizer_loop_elem (fs : list string) (finalizer : string) :
  hasFinalizer_loop fs finalizer = true ↔ finalizer ∈ fs.
Proof.
  induction fs as [|f fs IH]; simpl.
  - split; [discriminate | intros H; inversion H].
  - destruct (String.eqb_spec f finalizer) as [-> | Hne].
    + split; [intros _; left | reflexivity].
    + rewrite IH. split; [intros H; right; exact H |].
      intros H. inversion H; subst; [contradiction | assumption].
Qed.

Lemma existsb_eqb_elem (fs : list string) (finalizer : string) :
  existsb (String.eqb finalizer) fs = hasFinalizer_loop fs finalizer.
Proof.
  induction fs as [|f fs IH]; simpl; [reflexivity |].
  rewrite (String.eqb_sym finalizer f), IH.
  destruct (String.eqb f finalizer); reflexivity.
Qed.

(** Attaching a finalizer sets the finalizer list and nothing else. *)
Lemma AddFinalizer_setFinalizers (h : HTTPProxy) (finalizer : string) :
  AddFinalizer h finalizer =
  setFinalizers h
    (if hasFinalizer h finalizer then v1.Finalizers (ObjectMeta h)
     else v1.Finalizers (ObjectMeta h) ++ [finalizer]).
Proof.
  unfold AddFinalizer, hasFinalizer. rewrite existsb_eqb_elem.
  destruct (hasFinalizer_loop _ _); [| reflexivity].
  destruct h as [[n ns rv dt an fs] sp]. reflexivity.
Qed.

(** X3: [hasFinalizer] tests membership in the finalizer list; it holds
    after [AddFinalizer] and fails after [RemoveFinalizer] of the same
    finalizer, and neither changes what it answers for another finalizer. *)
Theorem hasFinalizer_attach_detach (h : HTTPProxy) (finalizer other : string) :
  (hasFinalizer h finalizer = true ↔ finalizer ∈ v1.Finalizers (ObjectMeta h)) ∧
  hasFinalizer (AddFinalizer h finalizer) finalizer = true ∧
  hasFinalizer (RemoveFinalizer h finalizer) finalizer = false ∧
  (other ≠ finalizer →
   hasFinalizer (AddFinalizer h finalizer) other = hasFinalizer h other ∧
   hasFinalizer (RemoveFinalizer h finalizer) other = hasFinalizer h other).
Proof.
  split; [apply hasFinalizer_loop_elem |]. split; [| split].
  - rewrite AddFinalizer_setFinalizers. unfold hasFinalizer at 1. simpl.
    destruct (hasFinalizer h finalizer) eqn:Hh; [exact Hh |].
    apply hasFinalizer_loop_elem. apply elem_of_app. right. left.
  - unfold hasFinalizer. simpl. apply hasFinalizer_loop_removed.
  - intros Hne. split.
    + rewrite AddFinalizer_setFinalizers. unfold hasFinalizer at 1. simpl.
      destruct (hasFinalizer h finalizer); [reflexivity |].
      unfold hasFinalizer.
      destruct (hasFinalizer_loop (v1.Finalizers (ObjectMeta h)) other) eqn:Ho.
      * apply hasFinalizer_loop_elem. apply elem_of_app. left.
        apply hasFinalizer_loop_elem. exact Ho.
      * destruct (hasFinalizer_loop (_ ++ _) other) eqn:Ho'; [| reflexivity].
        apply hasFinalizer_loop_elem in Ho'. apply elem_of_app in Ho' as [Hin | Hin].
        -- apply hasFinalizer_loop_elem in Hin. congruence.
        -- apply list_elem_of_singleton in Hin. contradiction.
    + unfold hasFinalizer. simpl.
      induction (v1.Finalizers (ObjectMeta h)) as [|f fs IH]; simpl; [reflexivity |].
      destruct (String.eqb_spec f finalizer) as [-> | Hf]; simpl.
      * destruct (String.eqb_spec finalizer other) as [Heq | _]; [congruence | exact IH].
      * rewrite IH. reflexivity.
Qed.

(** ** The prefix and the parent reference *)

Lemma desiredPrefix_not_empty (m : v1.ObjectMeta) : desiredPrefix m ≠ "".
Proof.
  unfold desiredPrefix.
  destruct (String.eqb_spec (annotation m pathPrefixAnnotation) "") as [Heq | Hne];
    [discriminate | exact Hne].
Qed.

(** X4: a prefix annotation that is not empty is written as it stands, with
    nothing added or normalised, and the prefix a successful merge writes is
    never the empty string. *)
Theorem merge_declared_prefix (child parent : HTTPProxy) (s s1 s' : Cluster) :
  getParentProxy (parentRefOf child) s = (inr parent, s1) →
  reconcileParentProxy child s = ((true, None), s') →
  ∃ parent' e,
    objects s' !! keyOf parent = Some parent' ∧
    entryOf (Includes (Spec parent')) (ObjectMeta child) = Some e ∧
    (∀ c, c ∈ Conditions e → Prefix c ≠ "") ∧
    (∀ P, v1.Annotations (ObjectMeta child) !! pathPrefixAnnotation = Some P → P ≠ "" →
          map Prefix (Conditions e) = [P]).
Proof.
  intros Hget Hrun.
  destruct (reconcileParentProxy_success _ _ _ _ Hget _ Hrun) as (_ & _ & Ho & _).
  destruct (mergedIncludes_entry (Includes (Spec parent)) (ObjectMeta child)
              (desiredPrefix (ObjectMeta child))) as (e & He & _ & Hc).
  eexists _, e. split; [rewrite Ho; apply lookup_insert_eq |].
  split; [exact He |]. rewrite Hc. split.
  - intros c Hin. apply list_elem_of_singleton in Hin as ->. simpl.
    apply desiredPrefix_not_empty.
  - intros P HP Hne. rewrite (desiredPrefix_declared _ _ HP Hne). reflexivity.
Qed.

(** X5: a reference with exactly one [/] is the namespace of its key, a
    [/], and the name of its key, neither holding a [/]; so two such
    references that name the same parent are the same string. *)
Theorem parentKey_roundtrip (parentRef : string) :
  occurrences "/" parentRef = 1%nat →
  parentRef = fst (parentKey parentRef) +:+ String "/" (snd (parentKey parentRef)) ∧
  occurrences "/" (fst (parentKey parentRef)) = 0%nat ∧
  occurrences "/" (snd (parentKey parentRef)) = 0%nat ∧
  ∀ other, occurrences "/" other = 1%nat → parentKey other = parentKey parentRef →
           other = parentRef.
Proof.
  assert (∀ ref, occurrences "/" ref = 1%nat →
            ref = fst (parentKey ref) +:+ String "/" (snd (parentKey ref)) ∧
            occurrences "/" (fst (parentKey ref)) = 0%nat ∧
            occurrences "/" (snd (parentKey ref)) = 0%nat) as Hone.
  { intros ref H. unfold parentKey. cbv zeta.
    pose proof (Split_length ref "/") as Hlen. rewrite H in Hlen.
    pose proof (Join_Split ref "/") as Hjoin.
    pose proof (Split_segments ref "/") as Hseg.
    destruct (Split ref "/") as [|ns [|name [|x rest]]]; try discriminate.
    simpl in *. inversion Hseg as [|? ? Hns Hrest]; subst.
    inversion Hrest; subst. auto. }
  intros H. destruct (Hone parentRef H) as (Heq & Hns & Hname).
  split; [exact Heq |]. split; [exact Hns |]. split; [exact Hname |].
  intros other Ho Hkey. destruct (Hone other Ho) as (Heq' & _).
  rewrite Heq', Hkey. symmetry. exact Heq.
Qed.

(** ** The paths of [Reconcile] *)

(** X6: an event for a subject that is not stored, or whose fetch reports
    not-found, is dropped without error and without a write; any other
    failure of the fetch is returned. *)
Theorem Reconcile_subject_fetch (req : ObjectKey) (s : Cluster) :
  (fst (nextFault s) = Some StatusNotFound ∨
   (fst (nextFault s) = None ∧ objects s !! req = None) →
   Reconcile req s = ((emptyResult, None), tick s)) ∧
  (∀ e, fst (nextFault s) = Some e → e ≠ StatusNotFound →
        Reconcile req s = ((emptyResult, Some (ErrClient e)), tick s)).
Proof.
  unfold Reconcile, bind, clientGet, tick.
  destruct (nextFault s) as [f s0] eqn:Hn.
  assert (objects s0 = objects s) as Ho
    by (unfold nextFault in Hn; injection Hn as _ <-; reflexivity).
  simpl. split.
  - intros [-> | [-> Hnone]]; [reflexivity |]. rewrite Ho, Hnone. reflexivity.
  - intros e -> Hne. destruct e; [contradiction | reflexivity | reflexivity].
Qed.

(** X7: a stored subject whose parent-reference annotation is absent or
    empty is left alone: no error, no write; also when its deletion was
    requested and it still carries the finalizer, which then stays. *)
Theorem Reconcile_unmanaged (req : ObjectKey) (h : HTTPProxy) (s : Cluster) :
  fst (nextFault s) = None →
  objects s !! req = Some h →
  v1.Annotations (ObjectMeta h) !! parentRefAnnotation = None ∨
  v1.Annotations (ObjectMeta h) !! parentRefAnnotation = Some "" →
  Reconcile req s = ((emptyResult, None), tick s) ∧
  objects (tick s) !! req = Some h.
Proof.
  intros Hf Hk Hann. split; [| exact Hk].
  unfold Reconcile, bind. rewrite (clientGet_stored _ _ _ Hf Hk).
  unfold annotation. destruct Hann as [-> | ->]; reflexivity.
Qed.

Lemma clientUpdate_fault (h : HTTPProxy) (s : Cluster) (e : ClientError) :
  fst (nextFault s) = Some e → clientUpdate h s = (inl (ErrClient e), tick s).
Proof.
  intros He. unfold clientUpdate, tick.
  destruct (nextFault s) as [f s1]. simpl in He. subst f. reflexivity.
Qed.

(** X8: a stored, live child that declares a parent and lacks the finalizer
    is first written with the finalizer appended to its list.  If the store
    refuses that write, [Reconcile] returns its error and the parent is not
    even fetched; otherwise the merge runs on the child as stored. *)
Theorem Reconcile_attaches_finalizer (req : ObjectKey) (child : HTTPProxy) (s : Cluster) :
  wfCluster s →
  fst (nextFault s) = None →
  objects s !! req = Some child →
  parentRefOf child ≠ "" →
  v1.IsZero (v1.DeletionTimestamp (ObjectMeta child)) = true →
  hasFinalizer child finalizerName = false →
  v1.Finalizers (ObjectMeta (stored (AddFinalizer child finalizerName))) =
    v1.Finalizers (ObjectMeta child) ++ [finalizerName] ∧
  (∀ e, fst (nextFault (tick s)) = Some e →
        Reconcile req s = ((emptyResult, Some (ErrClient e)), tick (tick s))) ∧
  (fst (nextFault (tick s)) = None →
   Reconcile req s =
     let (r, s3) :=
       reconcileParentProxy (stored (AddFinalizer child finalizerName))
         {| objects := <[req := stored (AddFinalizer child finalizerName)]> (objects s);
            faults := faults (tick (tick s));
            writes := stored (AddFinalizer child finalizerName) :: writes s |} in
     ((emptyResult, if fst r then None else snd r), s3)).
Proof.
  intros Hwf Hf Hk Href Hlive Hfin.
  pose proof (Hwf _ _ Hk) as Hkey.
  assert (AddFinalizer child finalizerName =
          setFinalizers child (v1.Finalizers (ObjectMeta child) ++ [finalizerName])) as Hadd
    by (rewrite AddFinalizer_setFinalizers, Hfin; reflexivity).
  split; [rewrite Hadd; reflexivity |].
  unfold Reconcile, bind. rewrite (clientGet_stored _ _ _ Hf Hk).
  destruct (String.eqb_spec (annotation (ObjectMeta child) parentRefAnnotation) "")
    as [Heq | _]; [contradiction |].
  rewrite Hlive, Hfin. change (negb false) with true. cbv iota.
  split.
  - intros e He. rewrite (clientUpdate_fault _ _ _ He). reflexivity.
  - intros Hf1.
    destruct (clientUpdate_accepted (AddFinalizer child finalizerName) child (tick s) Hf1)
      as (s2 & Hu & Ho & Hw & Hfs).
    + rewrite Hadd. change (keyOf (setFinalizers child _)) with (keyOf child).
      rewrite Hkey. exact Hk.
    + rewrite Hadd. reflexivity.
    + rewrite Hu.
      assert (s2 = {| objects := <[req := stored (AddFinalizer child finalizerName)]> (objects s);
                      faults := faults (tick (tick s));
                      writes := stored (AddFinalizer child finalizerName) :: writes s |}) as ->.
      { destruct s2 as [o2 f2 w2]. simpl in Ho, Hw, Hfs. subst o2 f2 w2.
        rewrite Hadd. change (keyOf (setFinalizers child _)) with (keyOf child).
        rewrite Hkey. reflexivity. }
      destruct (reconcileParentProxy _ _) as [[stop err] s3]. simpl.
      destruct stop; reflexivity.
Qed.

Lemma getParentProxy_errors (parentRef : string) (s s1 : Cluster) (err : error) :
  getParentProxy parentRef s = (inl err, s1) →
  (∃ e, err = ErrClient e) ∨ (∃ segs, err = ErrInvalidParent segs).
Proof.
  destruct (Nat.eq_dec (occurrences "/" parentRef) 1%nat) as [H1 | H1].
  - rewrite getParentProxy_two by exact H1. intros H.
    apply clientGet_inl in H as (_ & e & ->). left. eauto.
  - rewrite getParentProxy_invalid by exact H1. intros H. injection H as <- _.
    right. eauto.
Qed.

(** The errors [reconcileParentProxy] wants returned (its first result
    false) are the store's and the invalid-parent error. *)
Lemma reconcileParentProxy_retry (child : HTTPProxy) (err : option error) (s s' : Cluster) :
  reconcileParentProxy child s = ((false, err), s') →
  ∃ e, err = Some e ∧ ((∃ ce, e = ErrClient ce) ∨ (∃ segs, e = ErrInvalidParent segs)).
Proof.
  intros Hrun.
  destruct (getParentProxy (parentRefOf child) s) as [[e | parent] s1] eqn:Hget.
  - rewrite (reconcileParentProxy_unresolved _ _ _ _ Hget) in Hrun.
    injection Hrun as <- _. exists e. split; [reflexivity |].
    eapply getParentProxy_errors. exact Hget.
  - rewrite (reconcileParentProxy_resolved _ _ _ _ Hget) in Hrun.
    destruct (negb _); [discriminate |].
    destruct (isPrefixDuplicate _ _ _); [discriminate |].
    destruct (clientUpdate _ _) as [[e | h'] s2] eqn:Hu; [| discriminate].
    injection Hrun as <- _. apply clientUpdate_inl in Hu as (_ & ce & ->).
    exists (ErrClient ce). eauto.
Qed.

Lemma cleanupParentProxy_errors (child : HTTPProxy) (err : error) (s s' : Cluster) :
  cleanupParentProxy child s = (Some err, s') →
  (∃ ce, err = ErrClient ce) ∨ (∃ segs, err = ErrInvalidParent segs) ∨
  err = ErrInclusionNotAllowed (parentRefOf child).
Proof.
  intros Hrun.
  destruct (getParentProxy (parentRefOf child) s) as [[e | parent] s1] eqn:Hget.
  - rewrite (cleanupParentProxy_unresolved _ _ _ _ Hget) in Hrun.
    injection Hrun as <- _.
    destruct (getParentProxy_errors _ _ _ _ Hget) as [H | H]; auto.
  - rewrite (cleanupParentProxy_resolved _ _ _ _ Hget) in Hrun.
    destruct (negb _); [injection Hrun as <- _; auto |].
    destruct (_ <? 0)%Z; [discriminate |].
    destruct (clientUpdate _ _) as [[e | h'] s2] eqn:Hu; [| discriminate].
    injection Hrun as <- _. apply clientUpdate_inl in Hu as (_ & ce & ->). eauto.
Qed.

(** X9: [Reconcile] never asks for a requeue by its result, only by an
    error.  It never returns the duplicate-prefix error, and for a subject
    that is not being deleted it never returns the inclusion-not-permitted
    error either: a refused merge ends the event without error.  What it
    returns for a live subject is an error of the store or the
    invalid-parent error. *)
Theorem Reconcile_returned_errors (req : ObjectKey) (s : Cluster) :
  fst (fst (Reconcile req s)) = emptyResult ∧
  snd (fst (Reconcile req s)) ≠ Some ErrDuplicatePrefix ∧
  (∀ child err,
     objects s !! req = Some child →
     v1.IsZero (v1.DeletionTimestamp (ObjectMeta child)) = true →
     snd (fst (Reconcile req s)) = Some err →
     (∃ ce, err = ErrClient ce) ∨ (∃ segs, err = ErrInvalidParent segs)).
Proof.
  assert (∀ err, snd (fst (Reconcile req s)) = Some err →
            (∃ ce, err = ErrClient ce) ∨ (∃ segs, err = ErrInvalidParent segs) ∨
            (∃ ref child, err = ErrInclusionNotAllowed ref ∧ objects s !! req = Some child ∧
                          v1.IsZero (v1.DeletionTimestamp (ObjectMeta child)) = false))
    as Hall.
  { intros err. unfold Reconcile, bind.
    destruct (clientGet req s) as [[e | h] s0] eqn:Hg.
    { apply clientGet_inl in Hg as (_ & ce & ->).
      destruct ce; simpl; intros H; try discriminate; injection H as <-; eauto. }
    apply clientGet_inr in Hg as (Hk & -> & _).
    destruct (String.eqb _ ""); [discriminate |].
    destruct (v1.IsZero _) eqn:Hlive.
    - destruct (negb (hasFinalizer h finalizerName)).
      + destruct (clientUpdate _ _) as [[e | h'] s2] eqn:Hu.
        * apply clientUpdate_inl in Hu as (_ & ce & ->). simpl.
          intros H; injection H as <-; eauto.
        * destruct (reconcileParentProxy h' s2) as [[[|] oe] s3] eqn:Hr; simpl;
            [discriminate |].
          apply reconcileParentProxy_retry in Hr as (e & -> & He).
          intros H; injection H as <-. destruct He; auto.
      + simpl. destruct (reconcileParentProxy h (tick s)) as [[[|] oe] s3] eqn:Hr; simpl;
          [discriminate |].
        apply reconcileParentProxy_retry in Hr as (e & -> & He).
        intros H; injection H as <-. destruct He; auto.
    - destruct (hasFinalizer h finalizerName); [| discriminate].
      destruct (cleanupParentProxy h (tick s)) as [[e |] s2] eqn:Hc; simpl.
      + intros H; injection H as <-.
        apply cleanupParentProxy_errors in Hc as [H | [H | ->]]; eauto 10.
      + destruct (clientUpdate _ _) as [[e | h'] s3] eqn:Hu; simpl; [| discriminate].
        apply clientUpdate_inl in Hu as (_ & ce & ->).
        intros H; injection H as <-; eauto. }
  split.
  { unfold Reconcile, bind, ret.
    repeat match goal with
           | |- context [match ?x with _ => _ end] => destruct x
           end; reflexivity. }
  split.
  - intros H. apply Hall in H as [(ce & H) | [(segs & H) | (ref & c & H & _)]]; discriminate.
  - intros child err Hk Hlive H.
    apply Hall in H as [H | [H | (ref & c & _ & Hk' & Hdel)]]; auto.
    rewrite Hk in Hk'. injection Hk' as <-. congruence.
Qed.

(** ** What a run of [Reconcile] writes *)

Lemma reconcileParentProxy_effect (child : HTTPProxy) (r : bool * option error)
    (s s' : Cluster) :
  wfCluster s →
  reconcileParentProxy child s = (r, s') →
  objects s' = objects s ∨
  ReconcileWrite (keyOf child) (parentKey (parentRefOf child)) (objects s) (objects s').
Proof.
  intros Hwf Hrun.
  destruct (getParentProxy (parentRefOf child) s) as [[e | parent] s1] eqn:Hget.
  - rewrite (reconcileParentProxy_unresolved _ _ _ _ Hget) in Hrun.
    injection Hrun as _ <-. left. eapply getParentProxy_inl. exact Hget.
  - rewrite (reconcileParentProxy_resolved _ _ _ _ Hget) in Hrun.
    apply getParentProxy_inr in Hget as (Hstored & -> & _).
    pose proof (Hwf _ _ Hstored) as Hkey.
    destruct (allowsInclusion (ObjectMeta parent)) eqn:Hallow; simpl in Hrun;
      [| injection Hrun as _ <-; left; reflexivity].
    destruct (isPrefixDuplicate _ _ _) eqn:Hdup;
      [injection Hrun as _ <-; left; reflexivity |].
    destruct (clientUpdate _ _) as [[e | h'] s2] eqn:Hu; injection Hrun as _ <-.
    + apply clientUpdate_inl in Hu as (-> & _). left. reflexivity.
    + apply clientUpdate_inr in Hu as (_ & Ho & _). right. rewrite Ho.
      change (keyOf (setIncludes parent _)) with (keyOf parent). rewrite Hkey.
      apply WriteMerged;
        [exact Hstored | reflexivity | apply desiredPrefix_not_empty | exact Hallow | exact Hdup].
Qed.

Lemma cleanupParentProxy_effect (child : HTTPProxy) (r : option error) (s s' : Cluster) :
  wfCluster s →
  cleanupParentProxy child s = (r, s') →
  objects s' = objects s ∨
  (r = None ∧
   ∃ parent,
     objects s !! parentKey (parentRefOf child) = Some parent ∧
     (0 <= findIncludeRef (Includes (Spec parent)) (ObjectMeta child))%Z ∧
     objects s' =
       <[parentKey (parentRefOf child) :=
           stored (setIncludes parent
                     (excisedIncludes (Includes (Spec parent)) (ObjectMeta child)))]>
         (objects s)).
Proof.
  intros Hwf Hrun.
  destruct (getParentProxy (parentRefOf child) s) as [[e | parent] s1] eqn:Hget.
  - rewrite (cleanupParentProxy_unresolved _ _ _ _ Hget) in Hrun.
    injection Hrun as _ <-. left. eapply getParentProxy_inl. exact Hget.
  - rewrite (cleanupParentProxy_resolved _ _ _ _ Hget) in Hrun.
    apply getParentProxy_inr in Hget as (Hstored & -> & _).
    pose proof (Hwf _ _ Hstored) as Hkey.
    destruct (negb _); [injection Hrun as _ <-; left; reflexivity |].
    destruct (Z.ltb_spec (findIncludeRef (Includes (Spec parent)) (ObjectMeta child)) 0)
      as [Hlt | Hge]; [injection Hrun as _ <-; left; reflexivity |].
    destruct (clientUpdate _ _) as [[e | h'] s2] eqn:Hu; injection Hrun as <- <-.
    + apply clientUpdate_inl in Hu as (-> & _). left. reflexivity.
    + apply clientUpdate_inr in Hu as (_ & Ho & _). right.
      split; [reflexivity |]. exists parent.
      change (keyOf (setIncludes parent _)) with (keyOf parent) in Ho. rewrite Hkey in Ho.
      auto.
Qed.

Lemma stored_parentRefOf (h : HTTPProxy) (fs : list string) :
  parentRefOf (stored (setFinalizers h fs)) = parentRefOf h ∧
  keyOf (stored (setFinalizers h fs)) = keyOf h.
Proof. split; reflexivity. Qed.

(** The writes of a run on a stored subject. *)
Lemma Reconcile_writes (req : ObjectKey) (child : HTTPProxy) (s : Cluster) :
  wfCluster s →
  objects s !! req = Some child →
  ReconcileWrites req (parentKey (parentRefOf child)) (objects s)
    (objects (snd (Reconcile req s))).
Proof.
  intros Hwf Hk. pose proof (Hwf _ _ Hk) as Hkey.
  set (pk := parentKey (parentRefOf child)).
  unfold Reconcile, bind.
  destruct (clientGet req s) as [[e | h] s0] eqn:Hg.
  { apply clientGet_inl in Hg as (-> & _). left. destruct (IsNotFound _); reflexivity. }
  apply clientGet_inr in Hg as (Hk' & -> & _).
  rewrite Hk in Hk'. injection Hk' as <-.
  destruct (String.eqb _ ""); [left; reflexivity |].
  destruct (v1.IsZero _).
  - (* a live child *)
    destruct (hasFinalizer child finalizerName) eqn:Hfin; cbn [negb]; unfold ret;
      cbv beta iota.
    + destruct (reconcileParentProxy child (tick s)) as [[stop err] s3] eqn:Hr.
      assert (objects s3 = objects s ∨ ReconcileWrite req pk (objects s) (objects s3)) as Hw.
      { destruct (reconcileParentProxy_effect _ _ (tick s) _ Hwf Hr) as [H | H]; [left; exact H |].
        right. rewrite Hkey in H. exact H. }
      assert (ReconcileWrites req pk (objects s) (objects s3)) as Hall
        by (destruct Hw as [-> | Hw]; [left; reflexivity | right; left; exact Hw]).
      destruct stop; exact Hall.
    + rewrite AddFinalizer_setFinalizers, Hfin.
      set (fs := v1.Finalizers (ObjectMeta child) ++ [finalizerName]).
      destruct (clientUpdate (setFinalizers child fs) (tick s)) as [[e | h'] s2] eqn:Hu.
      { apply clientUpdate_inl in Hu as (-> & _). left. reflexivity. }
      apply clientUpdate_inr in Hu as (-> & Ho & _).
      change (keyOf (setFinalizers child fs)) with (keyOf child) in Ho. rewrite Hkey in Ho.
      rewrite objects_tick in Ho.
      assert (ReconcileWrite req pk (objects s) (objects s2)) as Hw1
        by (rewrite Ho; apply WriteFinalizers; exact Hk).
      assert (wfCluster s2) as Hwf2.
      { eapply (wfCluster_update (setFinalizers child fs)); [exact Hwf |].
        change (keyOf (setFinalizers child fs)) with (keyOf child). rewrite Hkey. exact Ho. }
      destruct (reconcileParentProxy (stored (setFinalizers child fs)) s2)
        as [[stop err] s3] eqn:Hr.
      assert (objects s3 = objects s2 ∨ ReconcileWrite req pk (objects s2) (objects s3)) as Hw.
      { destruct (reconcileParentProxy_effect _ _ _ _ Hwf2 Hr) as [H | H]; [left; exact H |].
        right. destruct (stored_parentRefOf child fs) as [Hp Hq].
        rewrite Hp, Hq, Hkey in H. exact H. }
      assert (ReconcileWrites req pk (objects s) (objects s3)) as Hall.
      { destruct Hw as [-> | Hw]; [right; left; exact Hw1 |].
        right. right. exists (objects s2). auto. }
      destruct stop; exact Hall.
  - (* a child being deleted *)
    destruct (hasFinalizer child finalizerName); [| left; reflexivity].
    destruct (cleanupParentProxy child (tick s)) as [[e |] s2] eqn:Hc.
    { apply cleanupParentProxy_objects in Hc as (Ho & _). left. exact Ho. }
    pose proof (cleanupParentProxy_effect _ _ (tick s) _ Hwf Hc) as Heff.
    fold pk in Heff. rewrite objects_tick in Heff.
    assert (objects s2 = objects s ∨ ReconcileWrite req pk (objects s) (objects s2)) as Hw1.
    { destruct Heff as [H | (_ & parent & Hp & Hge & H)]; [left; exact H |].
      right. rewrite H. apply WriteExcised; [exact Hp | exact Hkey | exact Hge]. }
    destruct (clientUpdate (RemoveFinalizer child finalizerName) s2) as [[e | h'] s3] eqn:Hu.
    { apply clientUpdate_inl in Hu as (-> & _). simpl.
      destruct Hw1 as [-> | Hw1]; [left; reflexivity | right; left; exact Hw1]. }
    pose proof (clientUpdate_inr_version _ _ _ _ Hu) as (cur & Hcur & Hrv).
    apply clientUpdate_inr in Hu as (_ & Ho & _).
    change (keyOf (RemoveFinalizer child finalizerName)) with (keyOf child) in Ho, Hcur.
    rewrite Hkey in Ho, Hcur. simpl.
    assert (objects s2 !! req = Some child) as Hcur'.
    { destruct Heff as [H | (_ & parent & Hp & Hge & H)]; [rewrite H; exact Hk |].
      rewrite H in Hcur |- *.
      destruct (decide (pk = req)) as [Heq | Hne].
      - exfalso. rewrite Heq, lookup_insert_eq in Hcur. injection Hcur as <-.
        rewrite Heq, Hk in Hp. injection Hp as <-. simpl in Hrv. lia.
      - rewrite lookup_insert_ne by exact Hne. exact Hk. }
    assert (ReconcileWrite req pk (objects s2) (objects s3)) as Hw2
      by (rewrite Ho; apply (WriteFinalizers req pk (objects s2) child); exact Hcur').
    destruct Hw1 as [Heq | Hw1].
    + right. left. rewrite <- Heq. exact Hw2.
    + right. right. exists (objects s2). auto.
Qed.

Lemma Reconcile_not_stored (req : ObjectKey) (s : Cluster) :
  objects s !! req = None → objects (snd (Reconcile req s)) = objects s.
Proof.
  intros Hk. unfold Reconcile, bind.
  destruct (clientGet req s) as [[e | h] s0] eqn:Hg.
  - apply clientGet_inl in Hg as (-> & _). destruct (IsNotFound _); reflexivity.
  - apply clientGet_inr in Hg as (Hk' & _). congruence.
Qed.

Lemma ReconcileWrite_other_keys (req pk : ObjectKey) (o o' : gmap ObjectKey HTTPProxy) :
  ReconcileWrite req pk o o' →
  dom o' = dom o ∧ ∀ k, k ≠ req → k ≠ pk → o' !! k = o !! k.
Proof.
  intros [cur fs Hc | parent m P Hp _ _ _ _ | parent m Hp _ _].
  - split; [apply dom_insert_lookup_L; eauto |].
    intros k Hr _. apply lookup_insert_ne. congruence.
  - split; [apply dom_insert_lookup_L; eauto |].
    intros k _ Hq. apply lookup_insert_ne. congruence.
  - split; [apply dom_insert_lookup_L; eauto |].
    intros k _ Hq. apply lookup_insert_ne. congruence.
Qed.

(** X10: a run of [Reconcile] creates no object, removes no object other
    than the subject, and leaves every object other than the subject and
    the parent the subject names exactly as stored. *)
Theorem Reconcile_frame (req : ObjectKey) (s : Cluster) :
  wfCluster s →
  (∀ k, objects s !! k = None → objects (snd (Reconcile req s)) !! k = None) ∧
  (∀ k, k ≠ req → is_Some (objects s !! k) →
        is_Some (objects (snd (Reconcile req s)) !! k)) ∧
  (∀ k, k ≠ req →
        (∀ child, objects s !! req = Some child → k ≠ parentKey (parentRefOf child)) →
        objects (snd (Reconcile req s)) !! k = objects s !! k).
Proof.
  intros Hwf.
  assert (dom (objects (snd (Reconcile req s))) = dom (objects s) ∧
          ∀ k, k ≠ req →
               (∀ child, objects s !! req = Some child → k ≠ parentKey (parentRefOf child)) →
               objects (snd (Reconcile req s)) !! k = objects s !! k) as [Hdom Hframe].
  { destruct (objects s !! req) as [child |] eqn:Hk.
    - pose proof (Reconcile_writes req child s Hwf Hk) as [-> | [Hw | (o1 & Hw1 & Hw2)]].
      + auto.
      + destruct (ReconcileWrite_other_keys _ _ _ _ Hw) as [Hd Hf].
        split; [exact Hd |]. intros k Hr Hp. apply Hf; [exact Hr | apply Hp; reflexivity].
      + destruct (ReconcileWrite_other_keys _ _ _ _ Hw1) as [Hd1 Hf1].
        destruct (ReconcileWrite_other_keys _ _ _ _ Hw2) as [Hd2 Hf2].
        split; [rewrite Hd2; exact Hd1 |].
        intros k Hr Hp. specialize (Hp child eq_refl).
        rewrite Hf2, Hf1 by assumption. reflexivity.
    - rewrite (Reconcile_not_stored _ _ Hk). auto. }
  split; [| split; [| exact Hframe]].
  - intros k Hk. apply not_elem_of_dom. rewrite Hdom. apply not_elem_of_dom. exact Hk.
  - intros k _ Hk. apply elem_of_dom. rewrite Hdom. apply elem_of_dom. exact Hk.
Qed.

Lemma keepsMetadata_refl (req pk k : ObjectKey) (h : HTTPProxy) : keepsMetadata req pk k h h.
Proof. unfold keepsMetadata. auto 10. Qed.

Lemma keepsMetadata_trans (req pk k : ObjectKey) (h1 h2 h3 : HTTPProxy) :
  keepsMetadata req pk k h1 h2 → keepsMetadata req pk k h2 h3 → keepsMetadata req pk k h1 h3.
Proof.
  unfold keepsMetadata.
  intros (A1 & B1 & C1 & D1 & E1 & F1 & G1) (A2 & B2 & C2 & D2 & E2 & F2 & G2).
  repeat split; try congruence; try lia.
  - intros H. rewrite F2, F1 by exact H. reflexivity.
  - intros H. rewrite G2, G1 by exact H. reflexivity.
Qed.

Lemma ReconcileWrite_keepsMetadata (req pk : ObjectKey) (o o' : gmap ObjectKey HTTPProxy)
    (k : ObjectKey) (h' : HTTPProxy) :
  ReconcileWrite req pk o o' → o' !! k = Some h' →
  ∃ h, o !! k = Some h ∧ keepsMetadata req pk k h h'.
Proof.
  intros [cur fs Hc | parent m P Hp _ _ _ _ | parent m Hp _ _].
  - destruct (decide (req = k)) as [<- | Hne].
    + rewrite lookup_insert_eq. intros H. injection H as <-.
      exists cur. split; [exact Hc |].
      unfold keepsMetadata. simpl. repeat split; try reflexivity; try lia.
      intros H. contradiction.
    + rewrite lookup_insert_ne by exact Hne. intros Hk. exists h'.
      split; [exact Hk | apply keepsMetadata_refl].
  - destruct (decide (pk = k)) as [<- | Hne].
    + rewrite lookup_insert_eq. intros H. injection H as <-.
      exists parent. split; [exact Hp |].
      unfold keepsMetadata. simpl. repeat split; try reflexivity; try lia.
      intros H. contradiction.
    + rewrite lookup_insert_ne by exact Hne. intros Hk. exists h'.
      split; [exact Hk | apply keepsMetadata_refl].
  - destruct (decide (pk = k)) as [<- | Hne].
    + rewrite lookup_insert_eq. intros H. injection H as <-.
      exists parent. split; [exact Hp |].
      unfold keepsMetadata. simpl. repeat split; try reflexivity; try lia.
      intros H. contradiction.
    + rewrite lookup_insert_ne by exact Hne. intros Hk. exists h'.
      split; [exact Hk | apply keepsMetadata_refl].
Qed.

(** X11: every object stored after a run of [Reconcile] was stored before
    it under the same key, with the same name, namespace, annotations and
    deletion timestamp and a resource version that is not higher; its
    finalizers differ only if it is the subject and its specification only
    if it is the parent the subject names. *)
Theorem Reconcile_keeps_metadata (req k : ObjectKey) (h' : HTTPProxy) (s : Cluster) :
  wfCluster s →
  objects (snd (Reconcile req s)) !! k = Some h' →
  ∃ h, objects s !! k = Some h ∧
       v1.Name (ObjectMeta h') = v1.Name (ObjectMeta h) ∧
       v1.Namespace (ObjectMeta h') = v1.Namespace (ObjectMeta h) ∧
       v1.Annotations (ObjectMeta h') = v1.Annotations (ObjectMeta h) ∧
       v1.DeletionTimestamp (ObjectMeta h') = v1.DeletionTimestamp (ObjectMeta h) ∧
       (v1.ResourceVersion (ObjectMeta h) ≤ v1.ResourceVersion (ObjectMeta h'))%nat ∧
       (k ≠ req → v1.Finalizers (ObjectMeta h') = v1.Finalizers (ObjectMeta h)) ∧
       ((∀ child, objects s !! req = Some child → k ≠ parentKey (parentRefOf child)) →
        Spec h' = Spec h).
Proof.
  intros Hwf Hk'. destruct (objects s !! req) as [child |] eqn:Hreq.
  - assert (∃ h, objects s !! k = Some h ∧
                 keepsMetadata req (parentKey (parentRefOf child)) k h h')
      as (h & Hk & A & B & C & D & E & F & G).
    { pose proof (Reconcile_writes req child s Hwf Hreq) as [Heq | [Hw | (o1 & Hw1 & Hw2)]].
      - rewrite Heq in Hk'. exists h'. split; [exact Hk' | apply keepsMetadata_refl].
      - eapply ReconcileWrite_keepsMetadata; eassumption.
      - destruct (ReconcileWrite_keepsMetadata _ _ _ _ _ _ Hw2 Hk') as (h1 & Hk1 & H2).
        destruct (ReconcileWrite_keepsMetadata _ _ _ _ _ _ Hw1 Hk1) as (h0 & Hk0 & H1).
        exists h0. split; [exact Hk0 | eapply keepsMetadata_trans; eassumption]. }
    exists h. repeat (split; [assumption |]). intros Hp. apply G. apply Hp. reflexivity.
  - rewrite (Reconcile_not_stored _ _ Hreq) in Hk'. exists h'. auto 10.
Qed.

(** ** The invariants of the include lists *)

Lemma uniqueEntries_merged (l : list Include) (m : v1.ObjectMeta) (P : string) :
  uniqueEntries l → uniqueEntries (mergedIncludes l m P).
Proof.
  unfold uniqueEntries.
  destruct (first_entry_split l m) as [Habs | (l1 & e & l2 & -> & He & H1)].
  - rewrite mergedIncludes_absent by exact Habs. intros Hl.
    rewrite fmap_app. apply NoDup_app. split; [exact Hl |]. split.
    + intros x Hx Hin. apply list_elem_of_singleton in Hin. subst x.
      apply list_elem_of_fmap in Hx as (y & Hy & Hin). apply (Habs y Hin). auto.
    + apply NoDup_singleton.
  - rewrite mergedIncludes_first by assumption.
    rewrite !fmap_app, !fmap_cons. intros H. exact H.
Qed.

Lemma uniqueEntries_excised (l : list Include) (m : v1.ObjectMeta) :
  (0 <= findIncludeRef l m)%Z → uniqueEntries l → uniqueEntries (excisedIncludes l m).
Proof.
  unfold uniqueEntries. intros Hge.
  destruct (first_entry_split l m) as [Habs | (l1 & e & l2 & -> & He & H1)].
  - rewrite findIncludeRef_absent in Hge by exact Habs. lia.
  - rewrite excisedIncludes_first by assumption.
    rewrite !fmap_app, fmap_cons. intros H.
    apply NoDup_app in H as (Ha & Hb & Hc). apply NoDup_cons in Hc as [_ Hc].
    apply NoDup_app. split; [exact Ha |]. split; [| exact Hc].
    intros x Hx Hin. apply (Hb x Hx). right. exact Hin.
Qed.

Lemma uniquePrefixes_merged (l : list Include) (m : v1.ObjectMeta) (P : string) :
  isPrefixDuplicate l m P = false →
  uniquePrefixes l → uniquePrefixes (mergedIncludes l m P).
Proof.
  intros Hdup Hl.
  assert (∀ x, x ∈ l → hasPrefix x P → identity x = identityOf m) as Hown
    by (apply isPrefixDuplicate_false; exact Hdup).
  assert (∀ e' : Include, identity e' = identityOf m → Conditions e' = prefixCondition P →
            ∀ rest : list Include, (∀ x, x ∈ rest → x ∈ l) →
            ∀ i j Q, (i = e' ∨ i ∈ rest) → (j = e' ∨ j ∈ rest) →
                     hasPrefix i Q → hasPrefix j Q → identity i = identity j) as Hcase.
  { intros e' He' Hc rest Hsub i j Q Hi Hj Hpi Hpj.
    assert (∀ x, x = e' → hasPrefix x Q → Q = P) as HQ.
    { intros x -> (c & Hin & Hq). rewrite Hc in Hin.
      apply list_elem_of_singleton in Hin. subst c. symmetry. exact Hq. }
    destruct Hi as [Hi | Hi], Hj as [Hj | Hj].
    - congruence.
    - pose proof (HQ i Hi Hpi) as ->. subst i. rewrite He'. symmetry. apply Hown; auto.
    - pose proof (HQ j Hj Hpj) as ->. subst j. rewrite He'. apply Hown; auto.
    - eapply Hl; eauto. }
  destruct (first_entry_split l m) as [Habs | (l1 & e & l2 & HL & He & H1)].
  - rewrite mergedIncludes_absent by exact Habs.
    intros i j Q Hi Hj.
    eapply (Hcase {| Name := v1.Name m; Namespace := v1.Namespace m;
                     Conditions := prefixCondition P |} eq_refl eq_refl l (fun x H => H)).
    + apply elem_of_app in Hi as [Hi | Hi]; [right; exact Hi |].
      apply list_elem_of_singleton in Hi. left. exact Hi.
    + apply elem_of_app in Hj as [Hj | Hj]; [right; exact Hj |].
      apply list_elem_of_singleton in Hj. left. exact Hj.
  - rewrite HL. rewrite mergedIncludes_first by assumption.
    assert (∀ x, x ∈ l1 ++ l2 → x ∈ l) as Hsub.
    { intros x Hx. rewrite HL. apply elem_of_app in Hx as [Hx | Hx];
        apply elem_of_app; [left; exact Hx | right; right; exact Hx]. }
    intros i j Q Hi Hj.
    eapply (Hcase (setConditions e (prefixCondition P)) He eq_refl (l1 ++ l2) Hsub).
    + apply elem_of_app in Hi as [Hi | Hi]; [right; apply elem_of_app; auto |].
      apply elem_of_cons in Hi as [Hi | Hi]; [left; exact Hi | right; apply elem_of_app; auto].
    + apply elem_of_app in Hj as [Hj | Hj]; [right; apply elem_of_app; auto |].
      apply elem_of_cons in Hj as [Hj | Hj]; [left; exact Hj | right; apply elem_of_app; auto].
Qed.

Lemma uniquePrefixes_excised (l : list Include) (m : v1.ObjectMeta) :
  (0 <= findIncludeRef l m)%Z → uniquePrefixes l → uniquePrefixes (excisedIncludes l m).
Proof.
  intros Hge Hl.
  destruct (first_entry_split l m) as [Habs | (l1 & e & l2 & -> & He & H1)].
  - rewrite findIncludeRef_absent in Hge by exact Habs. lia.
  - rewrite excisedIncludes_first by assumption.
    assert (∀ x, x ∈ l1 ++ l2 → x ∈ l1 ++ e :: l2) as Hsub.
    { intros x Hx. apply elem_of_app in Hx as [Hx | Hx];
        apply elem_of_app; [left; exact Hx | right; right; exact Hx]. }
    intros i j Q Hi Hj. apply Hl; auto.
Qed.

(** A property of include lists that the merge and the excision keep is
    kept for every stored list by a write of [Reconcile]. *)
Lemma ReconcileWrite_lists (Inv : list Include → Prop) (req pk : ObjectKey)
    (o o' : gmap ObjectKey HTTPProxy) :
  (∀ l m P, isPrefixDuplicate l m P = false → Inv l → Inv (mergedIncludes l m P)) →
  (∀ l m, (0 <= findIncludeRef l m)%Z → Inv l → Inv (excisedIncludes l m)) →
  ReconcileWrite req pk o o' →
  (∀ k h, o !! k = Some h → Inv (Includes (Spec h))) →
  ∀ k h, o' !! k = Some h → Inv (Includes (Spec h)).
Proof.
  intros Hm He [cur fs Hc | parent m P Hp _ _ _ Hdup | parent m Hp _ Hge] Ho k h.
  - destruct (decide (req = k)) as [<- | Hne].
    + rewrite lookup_insert_eq. intros H; injection H as <-. simpl.
      exact (Ho _ _ Hc).
    + rewrite lookup_insert_ne by exact Hne. apply Ho.
  - destruct (decide (pk = k)) as [<- | Hne].
    + rewrite lookup_insert_eq. intros H; injection H as <-. simpl.
      apply Hm; [exact Hdup | exact (Ho _ _ Hp)].
    + rewrite lookup_insert_ne by exact Hne. apply Ho.
  - destruct (decide (pk = k)) as [<- | Hne].
    + rewrite lookup_insert_eq. intros H; injection H as <-. simpl.
      apply He; [exact Hge | exact (Ho _ _ Hp)].
    + rewrite lookup_insert_ne by exact Hne. apply Ho.
Qed.

Lemma Reconcile_lists (Inv : list Include → Prop) (req : ObjectKey) (s : Cluster) :
  (∀ l m P, isPrefixDuplicate l m P = false → Inv l → Inv (mergedIncludes l m P)) →
  (∀ l m, (0 <= findIncludeRef l m)%Z → Inv l → Inv (excisedIncludes l m)) →
  wfCluster s →
  (∀ k h, objects s !! k = Some h → Inv (Includes (Spec h))) →
  ∀ k h, objects (snd (Reconcile req s)) !! k = Some h → Inv (Includes (Spec h)).
Proof.
  intros Hm He Hwf Ho. destruct (objects s !! req) as [child |] eqn:Hreq.
  - pose proof (Reconcile_writes req child s Hwf Hreq) as [-> | [Hw | (o1 & Hw1 & Hw2)]].
    + exact Ho.
    + eapply ReconcileWrite_lists; eassumption.
    + eapply ReconcileWrite_lists; [exact Hm | exact He | exact Hw2 |].
      eapply ReconcileWrite_lists; eassumption.
  - rewrite (Reconcile_not_stored _ _ Hreq). exact Ho.
Qed.

(** X12: if every stored include list has at most one entry per child, so
    has every stored list after a run of [Reconcile], whatever the run did. *)
Theorem Reconcile_keeps_unique_entries (req : ObjectKey) (s : Cluster) :
  wfCluster s →
  (∀ k h, objects s !! k = Some h → uniqueEntries (Includes (Spec h))) →
  ∀ k h, objects (snd (Reconcile req s)) !! k = Some h → uniqueEntries (Includes (Spec h)).
Proof.
  apply Reconcile_lists.
  - intros l m P _. apply uniqueEntries_merged.
  - apply uniqueEntries_excised.
Qed.

(** X13: if in every stored include list no prefix is carried by entries of
    two identities, the same holds after a run of [Reconcile]: the
    controller never gives a prefix to a second child. *)
Theorem Reconcile_keeps_unique_prefixes (req : ObjectKey) (s : Cluster) :
  wfCluster s →
  (∀ k h, objects s !! k = Some h → uniquePrefixes (Includes (Spec h))) →
  ∀ k h, objects (snd (Reconcile req s)) !! k = Some h → uniquePrefixes (Includes (Spec h)).
Proof.
  apply Reconcile_lists.
  - apply uniquePrefixes_merged.
  - apply uniquePrefixes_excised.
Qed.

(** ** Merging, then removing *)

(** X14: merging a child that had no entry and then cleaning up, for a child
    of the same name, namespace and parent reference, gives the parent back
    the include list it had before the merge. *)
Theorem merge_then_cleanup (child child' parent : HTTPProxy) (s s1 s' : Cluster) :
  wfCluster s →
  getParentProxy (parentRefOf child) s = (inr parent, s1) →
  (∀ x, x ∈ Includes (Spec parent) → identity x ≠ identityOf (ObjectMeta child)) →
  reconcileParentProxy child s = ((true, None), s') →
  available s' →
  identityOf (ObjectMeta child') = identityOf (ObjectMeta child) →
  parentRefOf child' = parentRefOf child →
  ∃ s'', cleanupParentProxy child' s' = (None, s'') ∧
         storedIncludes s'' (parentKey (parentRefOf child)) = Some (Includes (Spec parent)).
Proof.
  intros Hwf Hget Habs Hrun Hav Hid Href.
  destruct (reconcileParentProxy_success _ _ _ _ Hget _ Hrun) as (Hallow & _ & Ho & _).
  pose proof (getParentProxy_inr_two _ _ _ _ Hget) as Htwo.
  apply getParentProxy_inr in Hget as (Hstored & _ & _).
  pose proof (Hwf _ _ Hstored) as Hkey.
  rewrite (mergedIncludes_absent _ _ _ Habs) in Ho.
  set (new := {| Name := v1.Name (ObjectMeta child);
                 Namespace := v1.Namespace (ObjectMeta child);
                 Conditions := prefixCondition (desiredPrefix (ObjectMeta child)) |}) in *.
  set (p1 := stored (setIncludes parent (Includes (Spec parent) ++ [new]))) in *.
  assert (objects s' !! parentKey (parentRefOf child') = Some p1) as Hp1
    by (rewrite Href, Ho, Hkey; apply lookup_insert_eq).
  rewrite <- Href in Htwo.
  pose proof (getParentProxy_stored _ _ _ Htwo (available_no_fault _ Hav) Hp1) as Hget'.
  rewrite (cleanupParentProxy_resolved _ _ _ _ Hget').
  change (allowsInclusion (ObjectMeta p1)) with (allowsInclusion (ObjectMeta parent)).
  rewrite Hallow. simpl negb. cbv iota.
  change (Includes (Spec p1)) with (Includes (Spec parent) ++ [new]).
  assert (∀ x, x ∈ Includes (Spec parent) → identity x ≠ identityOf (ObjectMeta child'))
    as Habs' by (rewrite Hid; exact Habs).
  assert (identity new = identityOf (ObjectMeta child')) as Hnew by (rewrite Hid; reflexivity).
  rewrite (findIncludeRef_first _ [] new _ Habs' Hnew),
          (excisedIncludes_first _ [] new _ Habs' Hnew), app_nil_r.
  destruct (Z.ltb_spec (Z.of_nat (length (Includes (Spec parent)))) 0) as [Hlt | _]; [lia |].
  destruct (clientUpdate_accepted (setIncludes p1 (Includes (Spec parent))) p1 (tick s')
              (available_no_fault _ (available_tick _ Hav))) as (s'' & -> & Ho' & _).
  - change (keyOf (setIncludes p1 _)) with (keyOf parent). rewrite Hkey, <- Href. exact Hp1.
  - reflexivity.
  - exists s''. split; [reflexivity |]. unfold storedIncludes. rewrite Ho'.
    change (keyOf (setIncludes p1 _)) with (keyOf parent).
    rewrite Hkey, lookup_insert_eq. reflexivity.
Qed.

Lemma hasInclude_loop_true (l : list Include) (namespace name P : string) :
  hasInclude_loop l namespace name P = true ↔
  ∃ i, i ∈ l ∧ identity i = (namespace, name) ∧ hasPrefix i P.
Proof.
  induction l as [|x l IH]; simpl.
  - split; [discriminate | intros (i & Hi & _); inversion Hi].
  - destruct (String.eqb (Namespace x) namespace && String.eqb (Name x) name) eqn:Hb.
    + apply andb_true_iff in Hb as [Hns Hn].
      apply String.eqb_eq in Hns, Hn.
      destruct (conditionsHavePrefix (Conditions x) P) eqn:Hc.
      * apply conditionsHavePrefix_true in Hc. split; [| reflexivity].
        intros _. exists x. split; [left |]. split; [| exact Hc].
        unfold identity. rewrite Hns, Hn. reflexivity.
      * rewrite IH. split.
        -- intros (i & Hi & Hid & Hp). exists i. split; [right; exact Hi | auto].
        -- intros (i & Hi & Hid & Hp). inversion Hi; subst; [| eauto].
           apply conditionsHavePrefix_true in Hp. congruence.
    + rewrite IH. split.
      * intros (i & Hi & Hid & Hp). exists i. split; [right; exact Hi | auto].
      * intros (i & Hi & Hid & Hp). inversion Hi; subst; [| eauto].
        unfold identity in Hid. injection Hid as Hns Hn.
        rewrite Hns, Hn, !String.eqb_refl in Hb. discriminate.
Qed.

(** X15: after a successful merge the oracle of the test file, [hasInclude],
    finds the child with its prefix in the stored parent, and finds that
    prefix under no other namespace and name. *)
Theorem merge_hasInclude (child parent : HTTPProxy) (s s1 s' : Cluster) :
  getParentProxy (parentRefOf child) s = (inr parent, s1) →
  reconcileParentProxy child s = ((true, None), s') →
  ∃ parent',
    objects s' !! keyOf parent = Some parent' ∧
    hasInclude parent' (v1.Namespace (ObjectMeta child)) (v1.Name (ObjectMeta child))
      (desiredPrefix (ObjectMeta child)) = true ∧
    ∀ namespace name,
      (namespace, name) ≠ identityOf (ObjectMeta child) →
      hasInclude parent' namespace name (desiredPrefix (ObjectMeta child)) = false.
Proof.
  intros Hget Hrun.
  destruct (reconcileParentProxy_success _ _ _ _ Hget _ Hrun) as (_ & Hdup & Ho & _).
  eexists. split; [rewrite Ho; apply lookup_insert_eq |].
  unfold hasInclude. simpl.
  set (m := ObjectMeta child) in *. set (P := desiredPrefix m) in *.
  set (L := Includes (Spec parent)) in *.
  split.
  - apply hasInclude_loop_true.
    destruct (mergedIncludes_entry L m P) as (e & He & Hid & Hc).
    exists e. split; [| split; [exact Hid |]].
    + unfold entryOf in He. destruct (_ <? 0)%Z; [discriminate |].
      eapply list_elem_of_lookup_2. exact He.
    + exists {| Prefix := P; Header := None |}. rewrite Hc. split; [left | reflexivity].
  - intros namespace name Hne.
    destruct (hasInclude_loop (mergedIncludes L m P) namespace name P) eqn:Hh; [| reflexivity].
    apply hasInclude_loop_true in Hh as (i & Hi & Hid & Hp).
    assert (isPrefixDuplicate (mergedIncludes L m P) m P = true) as Hd.
    { apply isPrefixDuplicate_true. exists i. split; [exact Hi |]. split; [| exact Hp].
      rewrite Hid. exact Hne. }
    rewrite isPrefixDuplicate_merged in Hd. congruence.
Qed.

(** ** Reconciling a live child again *)

Lemma steady_ret {A : Type} (a : A) : steady (ret a).
Proof. intros s x s' H. injection H as _ <-. auto. Qed.

Lemma steady_bind {A B : Type} (m : M A) (k : A → M B) :
  steady m → (∀ a, steady (k a)) → steady (bind m k).
Proof.
  intros Hm Hk s b s' H Hav. unfold bind in H.
  destruct (m s) as [a s1] eqn:Hms.
  eapply Hk; [exact H |]. eapply Hm; [exact Hms | exact Hav].
Qed.

Lemma steady_clientGet (key : ObjectKey) : steady (clientGet key).
Proof.
  intros s [err | h] s' H Hav.
  - apply clientGet_inl in H as (-> & _). apply available_tick, Hav.
  - apply clientGet_inr in H as (_ & -> & _). apply available_tick, Hav.
Qed.

Lemma steady_clientUpdate (h : HTTPProxy) : steady (clientUpdate h).
Proof.
  intros s [err | h'] s' H Hav.
  - apply clientUpdate_inl in H as (-> & _). apply available_tick, Hav.
  - apply clientUpdate_inr in H as (_ & _ & _ & Hf).
    unfold available. rewrite Hf. apply available_tick, Hav.
Qed.

#[local] Hint Resolve steady_ret steady_clientGet steady_clientUpdate : store.

Ltac steady_body :=
  repeat first
    [ solve [auto with store]
    | apply steady_bind; [| intros ?]
    | match goal with
      | |- steady (match ?x with _ => _ end) => destruct x
      | |- steady (if ?b then _ else _) => destruct b
      end ].

Lemma steady_getParentProxy (parentRef : string) : steady (getParentProxy parentRef).
Proof. unfold getParentProxy. cbv zeta. steady_body. Qed.

#[local] Hint Resolve steady_getParentProxy : store.

Lemma steady_reconcileParentProxy (child : HTTPProxy) : steady (reconcileParentProxy child).
Proof. unfold reconcileParentProxy. cbv zeta. steady_body. Qed.

Lemma sameIdentity_ext (i : Include) (m m' : v1.ObjectMeta) :
  v1.Name m' = v1.Name m → v1.Namespace m' = v1.Namespace m →
  sameIdentity i m' = sameIdentity i m.
Proof. intros Hn Hns. unfold sameIdentity. rewrite Hn, Hns. reflexivity. Qed.

Lemma isPrefixDuplicate_ext (l : list Include) (m m' : v1.ObjectMeta) (P : string) :
  v1.Name m' = v1.Name m → v1.Namespace m' = v1.Namespace m →
  isPrefixDuplicate l m' P = isPrefixDuplicate l m P.
Proof.
  intros Hn Hns. induction l as [|x l IH]; simpl; [reflexivity |].
  rewrite (sameIdentity_ext x m m' Hn Hns), IH. reflexivity.
Qed.

Lemma findIncludeRef_ext (l : list Include) (m m' : v1.ObjectMeta) :
  v1.Name m' = v1.Name m → v1.Namespace m' = v1.Namespace m →
  findIncludeRef l m' = findIncludeRef l m.
Proof.
  intros Hn Hns. unfold findIncludeRef. generalize 0.
  induction l as [|x l IH]; intros idx; simpl; [reflexivity |].
  rewrite (sameIdentity_ext x m m' Hn Hns), IH. reflexivity.
Qed.

(** [reconcileParentProxy] reads the child's name, namespace and
    annotations only. *)
Lemma reconcileParentProxy_ext (c c' : HTTPProxy) (t : Cluster) :
  sameChild c c' → reconcileParentProxy c' t = reconcileParentProxy c t.
Proof.
  intros (Hn & Hns & Han). unfold reconcileParentProxy, bind, annotation. cbv zeta.
  rewrite Han.
  destruct (getParentProxy _ t) as [[e | parent] t1]; [reflexivity |].
  destruct (negb _); [reflexivity |].
  rewrite Hn, Hns, (isPrefixDuplicate_ext _ _ _ _ Hn Hns), (findIncludeRef_ext _ _ _ Hn Hns).
  reflexivity.
Qed.

(** What [reconcileParentProxy] stores, if anything: the parent, with the
    merged list. *)
Lemma reconcileParentProxy_stores (child : HTTPProxy) (r : bool * option error)
    (s s' : Cluster) :
  wfCluster s →
  reconcileParentProxy child s = (r, s') →
  objects s' = objects s ∨
  ∃ parent l,
    objects s !! parentKey (parentRefOf child) = Some parent ∧
    objects s' = <[parentKey (parentRefOf child) := stored (setIncludes parent l)]> (objects s).
Proof.
  intros Hwf Hrun.
  destruct (getParentProxy (parentRefOf child) s) as [[e | parent] s1] eqn:Hget.
  - rewrite (reconcileParentProxy_unresolved _ _ _ _ Hget) in Hrun.
    injection Hrun as _ <-. left. eapply getParentProxy_inl. exact Hget.
  - rewrite (reconcileParentProxy_resolved _ _ _ _ Hget) in Hrun.
    apply getParentProxy_inr in Hget as (Hstored & -> & _).
    pose proof (Hwf _ _ Hstored) as Hkey.
    destruct (negb _); [injection Hrun as _ <-; left; reflexivity |].
    destruct (isPrefixDuplicate _ _ _); [injection Hrun as _ <-; left; reflexivity |].
    destruct (clientUpdate _ _) as [[e | h'] s2] eqn:Hu; injection Hrun as _ <-.
    + apply clientUpdate_inl in Hu as (-> & _). left. reflexivity.
    + apply clientUpdate_inr in Hu as (_ & Ho & _). right.
      change (keyOf (setIncludes parent _)) with (keyOf parent) in Ho. rewrite Hkey in Ho.
      eauto.
Qed.

(** On an available store a second merge changes no stored include list. *)
Lemma reconcileParentProxy_again (child : HTTPProxy) (r : bool * option error)
    (s s' t : Cluster) :
  wfCluster s → available s →
  reconcileParentProxy child s = (r, s') →
  objects t = objects s' → available t →
  ∀ key, storedIncludes (snd (reconcileParentProxy child t)) key = storedIncludes s' key.
Proof.
  intros Hwf Hav Hrun Hot Havt key.
  assert (storedIncludes t key = storedIncludes s' key) as Hsame
    by (unfold storedIncludes; rewrite Hot; reflexivity).
  destruct (Nat.eq_dec (occurrences "/" (parentRefOf child)) 1%nat) as [Htwo | Htwo].
  2:{ unfold reconcileParentProxy, bind. fold (parentRefOf child). cbv zeta.
      rewrite (getParentProxy_invalid _ t Htwo). exact Hsame. }
  destruct (objects s !! parentKey (parentRefOf child)) as [parent |] eqn:Hstored.
  - pose proof (getParentProxy_stored _ _ _ Htwo (available_no_fault _ Hav) Hstored) as Hget.
    pose proof (Hwf _ _ Hstored) as Hkey.
    rewrite (reconcileParentProxy_resolved _ _ _ _ Hget) in Hrun.
    destruct (allowsInclusion (ObjectMeta parent)) eqn:Hallow; simpl in Hrun.
    2:{ injection Hrun as _ <-. rewrite objects_tick in Hot. rewrite <- Hot in Hstored.
        pose proof (getParentProxy_stored _ _ _ Htwo (available_no_fault _ Havt) Hstored) as Hg.
        rewrite (reconcileParentProxy_resolved _ _ _ _ Hg), Hallow. exact Hsame. }
    destruct (isPrefixDuplicate _ _ _) eqn:Hdup.
    { injection Hrun as _ <-. rewrite objects_tick in Hot. rewrite <- Hot in Hstored.
      pose proof (getParentProxy_stored _ _ _ Htwo (available_no_fault _ Havt) Hstored) as Hg.
      rewrite (reconcileParentProxy_resolved _ _ _ _ Hg), Hallow, Hdup. exact Hsame. }
    set (m := ObjectMeta child) in *. set (P := desiredPrefix m) in *.
    set (M := mergedIncludes (Includes (Spec parent)) m P) in *.
    destruct (clientUpdate_accepted (setIncludes parent M) parent (tick s)
                (available_no_fault _ (available_tick _ Hav))) as (s2 & Hu & Ho & _).
    { change (keyOf (setIncludes parent M)) with (keyOf parent). rewrite Hkey. exact Hstored. }
    { reflexivity. }
    rewrite Hu in Hrun. injection Hrun as _ <-.
    change (keyOf (setIncludes parent M)) with (keyOf parent) in Ho.
    rewrite Hkey, objects_tick in Ho.
    set (p1 := stored (setIncludes parent M)) in *.
    assert (objects t !! parentKey (parentRefOf child) = Some p1) as Hp1
      by (rewrite Hot, Ho; apply lookup_insert_eq).
    pose proof (getParentProxy_stored _ _ _ Htwo (available_no_fault _ Havt) Hp1) as Hg.
    rewrite (reconcileParentProxy_resolved _ _ _ _ Hg).
    change (allowsInclusion (ObjectMeta p1)) with (allowsInclusion (ObjectMeta parent)).
    rewrite Hallow. simpl negb. cbv iota.
    change (Includes (Spec p1)) with M. fold m P.
    unfold M at 1. rewrite isPrefixDuplicate_merged. fold m P in Hdup. rewrite Hdup.
    unfold M at 1. rewrite mergedIncludes_idempotent. fold M.
    destruct (clientUpdate_accepted (setIncludes p1 M) p1 (tick t)
                (available_no_fault _ (available_tick _ Havt))) as (t2 & -> & Ho2 & _).
    { change (keyOf (setIncludes p1 M)) with (keyOf parent). rewrite Hkey. exact Hp1. }
    { reflexivity. }
    simpl. rewrite <- Hsame. unfold storedIncludes. rewrite Ho2.
    change (keyOf (setIncludes p1 M)) with (keyOf parent). rewrite Hkey, objects_tick.
    destruct (decide (parentKey (parentRefOf child) = key)) as [<- | Hne].
    + rewrite lookup_insert_eq, Hp1. reflexivity.
    + rewrite lookup_insert_ne by exact Hne. reflexivity.
  - (* the parent is not stored: neither run writes *)
    assert (getParentProxy (parentRefOf child) s =
            (inl (ErrClient StatusNotFound), tick s)) as Hget
      by (rewrite getParentProxy_two by exact Htwo;
          apply clientGet_missing; [apply available_no_fault; exact Hav | exact Hstored]).
    rewrite (reconcileParentProxy_unresolved _ _ _ _ Hget) in Hrun.
    injection Hrun as _ <-. rewrite objects_tick in Hot. rewrite <- Hot in Hstored.
    assert (getParentProxy (parentRefOf child) t =
            (inl (ErrClient StatusNotFound), tick t)) as Hg
      by (rewrite getParentProxy_two by exact Htwo;
          apply clientGet_missing; [apply available_no_fault; exact Havt | exact Hstored]).
    rewrite (reconcileParentProxy_unresolved _ _ _ _ Hg). exact Hsame.
Qed.

(** The run of [Reconcile] on a stored live child that declares a parent
    and carries the finalizer. *)
Lemma Reconcile_live (req : ObjectKey) (child : HTTPProxy) (s : Cluster) :
  fst (nextFault s) = None →
  objects s !! req = Some child →
  parentRefOf child ≠ "" →
  v1.IsZero (v1.DeletionTimestamp (ObjectMeta child)) = true →
  hasFinalizer child finalizerName = true →
  snd (Reconcile req s) = snd (reconcileParentProxy child (tick s)).
Proof.
  intros Hf Hk Href Hlive Hfin. unfold Reconcile, bind.
  rewrite (clientGet_stored _ _ _ Hf Hk).
  destruct (String.eqb_spec (annotation (ObjectMeta child) parentRefAnnotation) "")
    as [Heq | _]; [contradiction |].
  rewrite Hlive, Hfin. cbn [negb]. unfold ret. cbv beta iota.
  destruct (reconcileParentProxy child (tick s)) as [[[|] err] s3]; reflexivity.
Qed.

(** After the merge step the subject is stored with the same name,
    namespace, annotations, deletion timestamp and finalizers. *)
Lemma reconcileParentProxy_subject (c0 c : HTTPProxy) (req : ObjectKey)
    (r : bool * option error) (s s' : Cluster) :
  wfCluster s →
  objects s !! req = Some c →
  reconcileParentProxy c0 s = (r, s') →
  ∃ c', objects s' !! req = Some c' ∧
        ObjectMeta c' = ObjectMeta c ∨
        objects s' !! req = Some c' ∧ ObjectMeta c' = ObjectMeta (stored c).
Proof.
  intros Hwf Hk Hrun.
  destruct (reconcileParentProxy_stores _ _ _ _ Hwf Hrun) as [Ho | (parent & l & Hp & Ho)].
  - exists c. left. rewrite Ho. auto.
  - destruct (decide (parentKey (parentRefOf c0) = req)) as [Heq | Hne].
    + rewrite Heq in Hp, Ho. rewrite Hk in Hp. injection Hp as <-.
      eexists. right. rewrite Ho, lookup_insert_eq. split; reflexivity.
    + exists c. left. rewrite Ho, lookup_insert_ne by exact Hne. auto.
Qed.

(** X16: on a store that stays available, reconciling a live child a second
    time changes no stored include list and no finalizer list: the second
    run re-derives what the first one left. *)
Theorem Reconcile_live_again (req : ObjectKey) (child : HTTPProxy) (s : Cluster) :
  wfCluster s →
  available s →
  objects s !! req = Some child →
  v1.IsZero (v1.DeletionTimestamp (ObjectMeta child)) = true →
  (∀ key, storedIncludes (snd (Reconcile req (snd (Reconcile req s)))) key =
          storedIncludes (snd (Reconcile req s)) key) ∧
  (∀ key h1, objects (snd (Reconcile req s)) !! key = Some h1 →
     ∃ h2, objects (snd (Reconcile req (snd (Reconcile req s)))) !! key = Some h2 ∧
           v1.Finalizers (ObjectMeta h2) = v1.Finalizers (ObjectMeta h1)).
Proof.
  intros Hwf Hav Hk Hlive.
  pose proof (Hwf _ _ Hk) as Hkey.
  (* the unmanaged child: both runs return at once *)
  destruct (String.eqb_spec (parentRefOf child) "") as [Hempty | Href].
  { assert (∀ t, objects t = objects s → fst (nextFault t) = None →
                 Reconcile req t = ((emptyResult, None), tick t)) as Hrun.
    { intros t Ho Hf. unfold Reconcile, bind.
      rewrite (clientGet_stored req t child Hf) by (rewrite Ho; exact Hk).
      unfold parentRefOf in Hempty. rewrite Hempty. reflexivity. }
    rewrite (Hrun s eq_refl (available_no_fault _ Hav)). simpl.
    rewrite (Hrun (tick s) eq_refl (available_no_fault _ (available_tick _ Hav))). simpl.
    split; [reflexivity |]. intros key h1 H. exists h1. auto. }
  (* after the finalizer step: a stored subject that carries the finalizer *)
  assert (∃ c0 s0,
            wfCluster s0 ∧ available s0 ∧ objects s0 !! req = Some c0 ∧
            sameChild child c0 ∧
            v1.DeletionTimestamp (ObjectMeta c0) = v1.DeletionTimestamp (ObjectMeta child) ∧
            hasFinalizer c0 finalizerName = true ∧
            snd (Reconcile req s) = snd (reconcileParentProxy c0 s0))
    as (c0 & s0 & Hwf0 & Hav0 & Hk0 & Hsame0 & Hdel0 & Hfin0 & Hrun1).
  { destruct (hasFinalizer child finalizerName) eqn:Hfin.
    - exists child, (tick s). split; [exact Hwf |]. split; [apply available_tick, Hav |].
      split; [exact Hk |]. split; [repeat split |]. split; [reflexivity |].
      split; [exact Hfin |].
      apply Reconcile_live; auto using available_no_fault.
    - assert (AddFinalizer child finalizerName =
              setFinalizers child (v1.Finalizers (ObjectMeta child) ++ [finalizerName])) as Hadd
        by (rewrite AddFinalizer_setFinalizers, Hfin; reflexivity).
      destruct (clientUpdate_accepted (AddFinalizer child finalizerName) child (tick s)
                  (available_no_fault _ (available_tick _ Hav))) as (sA & Hu & Ho & _ & Hfs).
      { rewrite Hadd. change (keyOf (setFinalizers child _)) with (keyOf child).
        rewrite Hkey. exact Hk. }
      { rewrite Hadd. reflexivity. }
      rewrite Hadd in Hu, Ho.
      change (keyOf (setFinalizers child _)) with (keyOf child) in Ho. rewrite Hkey in Ho.
      eexists _, sA. split.
      { eapply (wfCluster_update (setFinalizers child _)); [exact Hwf |].
        change (keyOf (setFinalizers child _)) with (keyOf child). rewrite Hkey. exact Ho. }
      split.
      { unfold available. rewrite Hfs. apply available_tick, available_tick, Hav. }
      split; [rewrite Ho; apply lookup_insert_eq |].
      split; [repeat split |]. split; [reflexivity |]. split.
      { apply hasFinalizer_loop_elem. simpl. apply elem_of_app. right. left. }
      unfold Reconcile, bind.
      rewrite (clientGet_stored _ _ _ (available_no_fault _ Hav) Hk).
      destruct (String.eqb_spec (annotation (ObjectMeta child) parentRefAnnotation) "")
        as [Heq | _]; [contradiction |].
      rewrite Hlive, Hfin, Hadd. cbn [negb]. cbv beta iota. rewrite Hu.
      destruct (reconcileParentProxy _ sA) as [[[|] err] s3]; reflexivity. }
  destruct (reconcileParentProxy c0 s0) as [r s1] eqn:Hr0. simpl in Hrun1.
  rewrite Hrun1.
  assert (wfCluster s1) as Hwf1 by (eapply preserves_reconcileParentProxy; eassumption).
  assert (available s1) as Hav1 by (eapply steady_reconcileParentProxy; eassumption).
  (* the subject as the first run left it *)
  assert (∃ c1, objects s1 !! req = Some c1 ∧ sameChild c0 c1 ∧
                v1.DeletionTimestamp (ObjectMeta c1) = v1.DeletionTimestamp (ObjectMeta c0) ∧
                hasFinalizer c1 finalizerName = true)
    as (c1 & Hk1 & Hsame1 & Hdel1 & Hfin1).
  { destruct (reconcileParentProxy_subject c0 c0 req _ _ _ Hwf0 Hk0 Hr0)
      as (c1 & [[H1 H2] | [H1 H2]]); exists c1.
    - split; [exact H1 |]. unfold sameChild, hasFinalizer. rewrite H2. auto.
    - split; [exact H1 |]. unfold sameChild, hasFinalizer. rewrite H2. simpl. auto. }
  assert (snd (Reconcile req s1) = snd (reconcileParentProxy c0 (tick s1))) as Hrun2.
  { rewrite (Reconcile_live req c1 s1 (available_no_fault _ Hav1) Hk1).
    - rewrite (reconcileParentProxy_ext c0 c1 _ Hsame1). reflexivity.
    - unfold parentRefOf, annotation in *.
      destruct Hsame1 as (_ & _ & ->). destruct Hsame0 as (_ & _ & ->). exact Href.
    - rewrite Hdel1, Hdel0. exact Hlive.
    - exact Hfin1. }
  rewrite Hrun2. split.
  - apply (reconcileParentProxy_again c0 r s0 s1 (tick s1) Hwf0 Hav0 Hr0 eq_refl).
    apply available_tick, Hav1.
  - intros key h1 Hh1.
    destruct (reconcileParentProxy c0 (tick s1)) as [r2 s2] eqn:Hr2. simpl.
    destruct (reconcileParentProxy_subject c0 h1 key _ (tick s1) _ Hwf1 Hh1 Hr2)
      as (h2 & [[H1 H2] | [H1 H2]]); exists h2; rewrite H2; auto.
Qed.

(** ** The two full paths *)

(** Excising the located entry takes the first of the child's entries and
    leaves its later entries and the entries of all other children. *)
Lemma entriesOf_excised (l : list Include) (m : v1.ObjectMeta) :
  (0 <= findIncludeRef l m)%Z →
  entriesOf (excisedIncludes l m) m = tail (entriesOf l m) ∧
  List.filter (fun i => negb (sameIdentity i m)) (excisedIncludes l m) =
  List.filter (fun i => negb (sameIdentity i m)) l.
Proof.
  intros Hge.
  destruct (first_entry_split l m) as [Habs | (l1 & e & l2 & -> & He & H1)].
  - rewrite findIncludeRef_absent in Hge by exact Habs. lia.
  - rewrite excisedIncludes_first by assumption.
    rewrite entriesOf_first by assumption. rewrite entriesOf_app, (entriesOf_absent l1 m H1).
    split; [reflexivity |].
    rewrite !List.filter_app. simpl.
    apply sameIdentity_true in He. rewrite He. reflexivity.
Qed.

(** A list with at most one entry per child has at most one for this one. *)
Lemma uniqueEntries_entriesOf (l : list Include) (m : v1.ObjectMeta) :
  uniqueEntries l → (length (entriesOf l m) ≤ 1)%nat.
Proof.
  unfold uniqueEntries. induction l as [|x l IH]; simpl; [lia |].
  intros Hnd. apply NoDup_cons in Hnd as [Hx Hl].
  unfold entriesOf in *. simpl.
  destruct (sameIdentity x m) eqn:Hs; [| apply IH; exact Hl].
  apply sameIdentity_true in Hs.
  fold (entriesOf l m). rewrite entriesOf_absent; [simpl; lia |].
  intros y Hy Heq. apply Hx. apply list_elem_of_fmap. exists y.
  split; [congruence | exact Hy].
Qed.

(** X17: a cleanup that returns without error found the parent permitting
    inclusion and leaves it stored with exactly the first entry that names
    the child removed, the entries before and after it in their order; it
    removes and writes nothing when no entry names the child.  The child's
    later entries, if any, all remain, and so do the entries of all other
    children. *)
Theorem cleanup_removes_one_entry (child parent : HTTPProxy) (s s' : Cluster) :
  wfCluster s →
  objects s !! parentKey (parentRefOf child) = Some parent →
  cleanupParentProxy child s = (None, s') →
  allowsInclusion (ObjectMeta parent) = true ∧
  ∃ L', storedIncludes s' (parentKey (parentRefOf child)) = Some L' ∧
        (((∀ x, x ∈ Includes (Spec parent) → identity x ≠ identityOf (ObjectMeta child)) ∧
          L' = Includes (Spec parent) ∧
          writes s' = writes s) ∨
         (∃ l1 e l2,
            Includes (Spec parent) = l1 ++ e :: l2 ∧
            identity e = identityOf (ObjectMeta child) ∧
            (∀ x, x ∈ l1 → identity x ≠ identityOf (ObjectMeta child)) ∧
            L' = l1 ++ l2 ∧
            writes s' = stored (setIncludes parent (l1 ++ l2)) :: writes s)) ∧
        entriesOf L' (ObjectMeta child) =
          tail (entriesOf (Includes (Spec parent)) (ObjectMeta child)) ∧
        List.filter (fun i => negb (sameIdentity i (ObjectMeta child))) L' =
          List.filter (fun i => negb (sameIdentity i (ObjectMeta child)))
            (Includes (Spec parent)).
Proof.
  intros Hwf Hp Hrun.
  destruct (getParentProxy (parentRefOf child) s) as [[e | parent0] s1] eqn:Hget.
  { rewrite (cleanupParentProxy_unresolved _ _ _ _ Hget) in Hrun. discriminate. }
  rewrite (cleanupParentProxy_resolved _ _ _ _ Hget) in Hrun.
  apply getParentProxy_inr in Hget as (Hstored & -> & _).
  rewrite Hp in Hstored. injection Hstored as <-.
  pose proof (Hwf _ _ Hp) as Hkey.
  destruct (allowsInclusion (ObjectMeta parent)) eqn:Hallow; simpl in Hrun; [| discriminate].
  split; [reflexivity |].
  destruct (first_entry_split (Includes (Spec parent)) (ObjectMeta child))
    as [Habs | (l1 & e & l2 & HL & He & H1)].
  - rewrite (findIncludeRef_absent _ _ Habs) in Hrun. simpl in Hrun.
    injection Hrun as <-. exists (Includes (Spec parent)).
    split; [unfold storedIncludes; rewrite objects_tick, Hp; reflexivity |].
    split; [left; auto |].
    rewrite (entriesOf_absent _ _ Habs). auto.
  - pose proof (findIncludeRef_first l1 l2 e (ObjectMeta child) H1 He) as Hidx.
    rewrite <- HL in Hidx.
    destruct (Z.ltb_spec (findIncludeRef (Includes (Spec parent)) (ObjectMeta child)) 0)
      as [Hlt | Hge]; [lia |].
    destruct (clientUpdate _ _) as [[err | h'] s2] eqn:Hu; [discriminate |].
    injection Hrun as <-. apply clientUpdate_inr in Hu as (_ & Ho & Hw & _).
    change (keyOf (setIncludes parent _)) with (keyOf parent) in Ho. rewrite Hkey in Ho.
    exists (excisedIncludes (Includes (Spec parent)) (ObjectMeta child)).
    split; [unfold storedIncludes; rewrite Ho, lookup_insert_eq; reflexivity |].
    split; [| apply entriesOf_excised; exact Hge].
    right. exists l1, e, l2. rewrite Hw. rewrite HL at 2 3.
    rewrite excisedIncludes_first by assumption. auto.
Qed.

(** X18: on an available store, the reconciliation of a deleted child that
    carries the finalizer, whose parent is another stored object that
    permits inclusion, returns no error.  Its last accepted write is the
    child without the finalizer, so that nothing stored under the child's
    key carries the finalizer afterwards, and the parent is left stored
    without the first entry that named the child: with no entry for the
    child at all when it held at most one entry per child. *)
Theorem Reconcile_terminating_completes (req : ObjectKey) (child parent : HTTPProxy)
    (s : Cluster) :
  wfCluster s →
  available s →
  objects s !! req = Some child →
  v1.IsZero (v1.DeletionTimestamp (ObjectMeta child)) = false →
  hasFinalizer child finalizerName = true →
  occurrences "/" (parentRefOf child) = 1%nat →
  objects s !! parentKey (parentRefOf child) = Some parent →
  parentKey (parentRefOf child) ≠ req →
  allowsInclusion (ObjectMeta parent) = true →
  fst (Reconcile req s) = (emptyResult, None) ∧
  head (writes (snd (Reconcile req s))) =
    Some (stored (RemoveFinalizer child finalizerName)) ∧
  (∀ h, objects (snd (Reconcile req s)) !! req = Some h →
        hasFinalizer h finalizerName = false) ∧
  ∃ Lf,
    storedIncludes (snd (Reconcile req s)) (parentKey (parentRefOf child)) = Some Lf ∧
    entriesOf Lf (ObjectMeta child) =
      tail (entriesOf (Includes (Spec parent)) (ObjectMeta child)) ∧
    List.filter (fun i => negb (sameIdentity i (ObjectMeta child))) Lf =
      List.filter (fun i => negb (sameIdentity i (ObjectMeta child)))
        (Includes (Spec parent)) ∧
    (uniqueEntries (Includes (Spec parent)) → entriesOf Lf (ObjectMeta child) = []).
Proof.
  intros Hwf Hav Hk Hdel Hfin Htwo Hp Hne Hallow.
  pose proof (Hwf _ _ Hk) as Hkey. pose proof (Hwf _ _ Hp) as Hpkey.
  assert (parentRefOf child ≠ "") as Href by (intros H; rewrite H in Htwo; discriminate).
  rewrite (Reconcile_terminating _ _ _ (available_no_fault _ Hav) Hk Href Hdel Hfin).
  pose proof (getParentProxy_stored _ (tick s) _ Htwo
                (available_no_fault _ (available_tick _ Hav)) Hp) as Hget.
  rewrite (cleanupParentProxy_resolved _ _ _ _ Hget), Hallow. simpl negb. cbv iota.
  set (child' := stored (RemoveFinalizer child finalizerName)).
  set (L := Includes (Spec parent)).
  assert (∀ s2 Lf,
            objects s2 !! req = Some child → available s2 →
            storedIncludes s2 (parentKey (parentRefOf child)) = Some Lf →
            let (u, s3) := clientUpdate (RemoveFinalizer child finalizerName) s2 in
            (emptyResult, match u with inl err => Some err | inr _ => None end) =
              (emptyResult, None) ∧
            head (writes s3) = Some child' ∧
            (∀ h, objects s3 !! req = Some h → hasFinalizer h finalizerName = false) ∧
            storedIncludes s3 (parentKey (parentRefOf child)) = Some Lf) as Hdetach.
  { intros s2 Lf Hk2 Hav2 HLf.
    destruct (clientUpdate_accepted (RemoveFinalizer child finalizerName) child s2
                (available_no_fault _ Hav2)) as (s3 & -> & Ho & Hw & _).
    - change (keyOf (RemoveFinalizer child finalizerName)) with (keyOf child).
      rewrite Hkey. exact Hk2.
    - reflexivity.
    - change (keyOf (RemoveFinalizer child finalizerName)) with (keyOf child) in Ho.
      rewrite Hkey in Ho.
      split; [reflexivity |]. split; [rewrite Hw; reflexivity |]. split.
      + intros h. rewrite Ho, lookup_insert_eq. intros H. injection H as <-.
        apply hasFinalizer_RemoveFinalizer.
      + unfold storedIncludes in *. rewrite Ho, lookup_insert_ne by congruence.
        exact HLf. }
  assert (∀ Lf, entriesOf Lf (ObjectMeta child) = tail (entriesOf L (ObjectMeta child)) →
                uniqueEntries L → entriesOf Lf (ObjectMeta child) = []) as Hnone.
  { intros Lf -> Hu. pose proof (uniqueEntries_entriesOf L (ObjectMeta child) Hu) as Hlen.
    destruct (entriesOf L (ObjectMeta child)) as [|x [|y rest]]; simpl in *;
      [reflexivity | reflexivity | lia]. }
  destruct (Z.ltb_spec (findIncludeRef L (ObjectMeta child)) 0) as [Hlt | Hge].
  - assert (entriesOf L (ObjectMeta child) = []) as Hent.
    { destruct (first_entry_split L (ObjectMeta child))
        as [Habs | (l1 & e & l2 & HL & He & H1)]; [apply entriesOf_absent; exact Habs |].
      rewrite HL, findIncludeRef_first in Hlt by assumption. lia. }
    specialize (Hdetach (tick (tick s)) L Hk (available_tick _ (available_tick _ Hav))).
    destruct (clientUpdate _ _) as [u s3].
    destruct Hdetach as (H1 & H2 & H3 & H4);
      [unfold storedIncludes; rewrite !objects_tick, Hp; reflexivity |].
    split; [exact H1 |]. split; [exact H2 |]. split; [exact H3 |].
    exists L. split; [exact H4 |]. rewrite Hent. auto.
  - destruct (clientUpdate_accepted
                (setIncludes parent (excisedIncludes L (ObjectMeta child)))
                parent (tick (tick s))
                (available_no_fault _ (available_tick _ (available_tick _ Hav))))
      as (s2 & -> & Ho & _ & Hfs).
    + change (keyOf (setIncludes parent _)) with (keyOf parent). rewrite Hpkey. exact Hp.
    + reflexivity.
    + change (keyOf (setIncludes parent _)) with (keyOf parent) in Ho. rewrite Hpkey in Ho.
      assert (objects s2 !! req = Some child) as Hk2
        by (rewrite Ho, lookup_insert_ne by exact Hne; exact Hk).
      assert (available s2) as Hav2.
      { unfold available. rewrite Hfs.
        apply available_tick, available_tick, available_tick, Hav. }
      specialize (Hdetach s2 (excisedIncludes L (ObjectMeta child)) Hk2 Hav2).
      destruct (clientUpdate _ s2) as [u s3].
      destruct Hdetach as (H1 & H2 & H3 & H4);
        [unfold storedIncludes; rewrite Ho, lookup_insert_eq; reflexivity |].
      split; [exact H1 |]. split; [exact H2 |]. split; [exact H3 |].
      exists (excisedIncludes L (ObjectMeta child)). split; [exact H4 |].
      destruct (entriesOf_excised L (ObjectMeta child) Hge) as [Ht Hf].
      split; [exact Ht |]. split; [exact Hf |]. apply Hnone. exact Ht.
Qed.

Lemma writes_tick_eq (s : Cluster) : writes (tick s) = writes s.
Proof. reflexivity. Qed.

(** The merged list depends on the child's name and namespace only. *)
Lemma mergedIncludes_ext (l : list Include) (m m' : v1.ObjectMeta) (P : string) :
  v1.Name m' = v1.Name m → v1.Namespace m' = v1.Namespace m →
  mergedIncludes l m' P = mergedIncludes l m P.
Proof.
  intros Hn Hns. unfold mergedIncludes.
  rewrite (findIncludeRef_ext _ _ _ Hn Hns), Hn, Hns. reflexivity.
Qed.

(** X19: on an available store, the reconciliation of a live child without
    the finalizer, whose parent is another stored object that permits
    inclusion and holds the child's prefix under no other identity, returns
    no error after two writes, the child with the finalizer and then the
    parent, in which [hasInclude] finds the child with its prefix. *)
Theorem Reconcile_active_completes (req : ObjectKey) (child parent : HTTPProxy)
    (s : Cluster) :
  wfCluster s →
  available s →
  objects s !! req = Some child →
  v1.IsZero (v1.DeletionTimestamp (ObjectMeta child)) = true →
  hasFinalizer child finalizerName = false →
  occurrences "/" (parentRefOf child) = 1%nat →
  objects s !! parentKey (parentRefOf child) = Some parent →
  parentKey (parentRefOf child) ≠ req →
  allowsInclusion (ObjectMeta parent) = true →
  isPrefixDuplicate (Includes (Spec parent)) (ObjectMeta child)
    (desiredPrefix (ObjectMeta child)) = false →
  fst (Reconcile req s) = (emptyResult, None) ∧
  ∃ child' parent',
    writes (snd (Reconcile req s)) = parent' :: child' :: writes s ∧
    objects (snd (Reconcile req s)) !! req = Some child' ∧
    objects (snd (Reconcile req s)) !! parentKey (parentRefOf child) = Some parent' ∧
    hasFinalizer child' finalizerName = true ∧
    hasInclude parent' (v1.Namespace (ObjectMeta child)) (v1.Name (ObjectMeta child))
      (desiredPrefix (ObjectMeta child)) = true.
Proof.
  intros Hwf Hav Hk Hlive Hfin Htwo Hp Hne Hallow Hdup.
  pose proof (Hwf _ _ Hk) as Hkey. pose proof (Hwf _ _ Hp) as Hpkey.
  assert (parentRefOf child ≠ "") as Href by (intros H; rewrite H in Htwo; discriminate).
  assert (AddFinalizer child finalizerName =
          setFinalizers child (v1.Finalizers (ObjectMeta child) ++ [finalizerName])) as Hadd
    by (rewrite AddFinalizer_setFinalizers, Hfin; reflexivity).
  set (c1 := stored (setFinalizers child (v1.Finalizers (ObjectMeta child) ++ [finalizerName]))).
  destruct (clientUpdate_accepted (AddFinalizer child finalizerName) child (tick s)
              (available_no_fault _ (available_tick _ Hav))) as (sA & Hu & Ho & Hw & Hfs).
  { rewrite Hadd. change (keyOf (setFinalizers child _)) with (keyOf child).
    rewrite Hkey. exact Hk. }
  { rewrite Hadd. reflexivity. }
  rewrite Hadd in Hu, Ho, Hw. fold c1 in Hu, Ho, Hw.
  change (keyOf (setFinalizers child _)) with (keyOf child) in Ho. rewrite Hkey in Ho.
  rewrite objects_tick in Ho.
  assert (available sA) as HavA.
  { unfold available. rewrite Hfs. apply available_tick, available_tick, Hav. }
  assert (objects sA !! parentKey (parentRefOf child) = Some parent) as HpA
    by (rewrite Ho, lookup_insert_ne by (intros H; apply Hne; auto); exact Hp).
  pose proof (getParentProxy_stored (parentRefOf c1) sA parent Htwo
                (available_no_fault _ HavA) HpA) as Hget.
  pose proof (reconcileParentProxy_resolved c1 parent sA (tick sA) Hget) as Hmerge.
  rewrite Hallow in Hmerge. simpl negb in Hmerge. cbv iota in Hmerge.
  change (ObjectMeta c1) with
    (ObjectMeta (stored (setFinalizers child
                           (v1.Finalizers (ObjectMeta child) ++ [finalizerName])))) in Hmerge.
  rewrite (isPrefixDuplicate_ext _ (ObjectMeta child)) in Hmerge by reflexivity.
  change (desiredPrefix (ObjectMeta (stored (setFinalizers child _))))
    with (desiredPrefix (ObjectMeta child)) in Hmerge.
  rewrite Hdup in Hmerge.
  set (M := mergedIncludes (Includes (Spec parent)) _ (desiredPrefix (ObjectMeta child)))
    in Hmerge.
  destruct (clientUpdate_accepted (setIncludes parent M) parent (tick sA)
              (available_no_fault _ (available_tick _ HavA))) as (sB & HuB & HoB & HwB & _).
  { change (keyOf (setIncludes parent M)) with (keyOf parent). rewrite Hpkey. exact HpA. }
  { reflexivity. }
  rewrite HuB in Hmerge.
  change (keyOf (setIncludes parent M)) with (keyOf parent) in HoB. rewrite Hpkey in HoB.
  assert (Reconcile req s = ((emptyResult, None), sB)) as Hrun.
  { unfold Reconcile, bind. rewrite (clientGet_stored _ _ _ (available_no_fault _ Hav) Hk).
    destruct (String.eqb_spec (annotation (ObjectMeta child) parentRefAnnotation) "")
      as [Heq | _]; [contradiction |].
    rewrite Hlive, Hfin, Hadd. cbn [negb]. cbv beta iota. rewrite Hu.
    fold c1. rewrite Hmerge. reflexivity. }
  rewrite Hrun. simpl. split; [reflexivity |].
  exists c1, (stored (setIncludes parent M)).
  split; [rewrite HwB, writes_tick_eq, Hw; reflexivity |].
  split; [rewrite HoB, lookup_insert_ne by exact Hne; rewrite objects_tick, Ho;
          apply lookup_insert_eq |].
  split; [rewrite HoB; apply lookup_insert_eq |].
  split; [apply hasFinalizer_loop_elem; simpl; apply elem_of_app; right; left |].
  unfold hasInclude. simpl. apply hasInclude_loop_true.
  destruct (mergedIncludes_entry (Includes (Spec parent)) (ObjectMeta child)
              (desiredPrefix (ObjectMeta child))) as (e & He & Hid & Hc).
  exists e. split; [| split; [exact Hid |]].
  - unfold M. rewrite (mergedIncludes_ext _ (ObjectMeta child)) by reflexivity.
    unfold entryOf in He. destruct (_ <? 0)%Z; [discriminate |].
    eapply list_elem_of_lookup_2. exact He.
  - exists {| Prefix := desiredPrefix (ObjectMeta child); Header := None |}.
    rewrite Hc. split; [left | reflexivity].
Qed.

(** ** The further properties at the scenarios *)

Lemma mkCluster_lists (Inv : list Include → Prop) (l : list HTTPProxy) :
  Forall (fun h => Inv (Includes (Spec h))) l →
  ∀ k h, objects (mkCluster l) !! k = Some h → Inv (Includes (Spec h)).
Proof.
  intros Hall k h Hk. unfold mkCluster in Hk. simpl in Hk.
  apply elem_of_list_to_map_2 in Hk.
  apply list_elem_of_fmap in Hk as (x & Heq & Hin).
  injection Heq as _ ->. rewrite Forall_forall in Hall. apply Hall. exact Hin.
Qed.

Lemma uniqueEntries_short (l : list Include) : (length l ≤ 1)%nat → uniqueEntries l.
Proof.
  unfold uniqueEntries. destruct l as [|x [|y l]]; simpl; intros H;
    [apply NoDup_nil_2 | apply NoDup_singleton | lia].
Qed.

Lemma uniquePrefixes_short (l : list Include) : (length l ≤ 1)%nat → uniquePrefixes l.
Proof.
  destruct l as [|x [|y l]]; simpl; intros H i j P Hi Hj _ _; [inversion Hi | | lia].
  apply list_elem_of_singleton in Hi, Hj. congruence.
Qed.

Lemma smallCluster_short :
  Forall (fun h => (length (Includes (Spec h)) ≤ 1)%nat) [smallRoot; fresh; loner].
Proof. repeat constructor. Qed.

(** [news] declares [/news]: written as it stands. *)
Lemma merge_declared_prefix_witness :
  getParentProxy (parentRefOf news) exampleCluster = (inr rootProxy, tick exampleCluster) ∧
  reconcileParentProxy news exampleCluster =
    ((true, None), snd (reconcileParentProxy news exampleCluster)) ∧
  ∃ parent' e,
    objects (snd (reconcileParentProxy news exampleCluster)) !! ("root", "example") = Some parent' ∧
    entryOf (Includes (Spec parent')) (ObjectMeta news) = Some e ∧
    map Prefix (Conditions e) = ["/news"].
Proof.
  assert (getParentProxy (parentRefOf news) exampleCluster =
          (inr rootProxy, tick exampleCluster)) as Hget by (vm_compute; reflexivity).
  assert (reconcileParentProxy news exampleCluster =
          ((true, None), snd (reconcileParentProxy news exampleCluster))) as Hrun
    by (vm_compute; reflexivity).
  split; [exact Hget |]. split; [exact Hrun |].
  destruct (merge_declared_prefix news rootProxy exampleCluster (tick exampleCluster) _
              Hget Hrun) as (parent' & e & Hk & He & _ & Hp).
  exists parent', e. split; [exact Hk |]. split; [exact He |].
  apply Hp; [vm_compute; reflexivity | discriminate].
Defined.

Lemma parentKey_roundtrip_witness :
  occurrences "/" "root/example" = 1%nat ∧
  parentKey "root/example" = ("root", "example") ∧
  ∀ other, occurrences "/" other = 1%nat → parentKey other = ("root", "example") →
           other = "root/example".
Proof.
  assert (occurrences "/" "root/example" = 1%nat) as H by reflexivity.
  split; [exact H |]. split; [reflexivity |].
  exact (proj2 (proj2 (proj2 (parentKey_roundtrip "root/example" H)))).
Defined.

(** [loner] declares no parent: left alone, finalizer and all. *)
Lemma Reconcile_unmanaged_witness :
  fst (nextFault smallCluster) = None ∧
  objects smallCluster !! keyOf loner = Some loner ∧
  v1.Annotations (ObjectMeta loner) !! parentRefAnnotation = None ∧
  Reconcile (keyOf loner) smallCluster = ((emptyResult, None), tick smallCluster).
Proof.
  assert (fst (nextFault smallCluster) = None) as Hf by reflexivity.
  assert (objects smallCluster !! keyOf loner = Some loner) as Hk by (vm_compute; reflexivity).
  assert (v1.Annotations (ObjectMeta loner) !! parentRefAnnotation = None) as Hn
    by (vm_compute; reflexivity).
  repeat (split; [assumption |]).
  exact (proj1 (Reconcile_unmanaged (keyOf loner) loner smallCluster Hf Hk (or_introl Hn))).
Defined.

(** [fresh] has no finalizer yet: it is written with the one finalizer. *)
Lemma Reconcile_attaches_finalizer_witness :
  wfCluster smallCluster ∧
  objects smallCluster !! keyOf fresh = Some fresh ∧
  hasFinalizer fresh finalizerName = false ∧
  v1.Finalizers (ObjectMeta (stored (AddFinalizer fresh finalizerName))) = [finalizerName].
Proof.
  assert (wfCluster smallCluster) as Hwf by apply wfCluster_mkCluster.
  assert (objects smallCluster !! keyOf fresh = Some fresh) as Hk by (vm_compute; reflexivity).
  assert (hasFinalizer fresh finalizerName = false) as Hfin by reflexivity.
  repeat (split; [assumption |]).
  refine (proj1 (Reconcile_attaches_finalizer (keyOf fresh) fresh smallCluster Hwf
                   eq_refl Hk _ eq_refl Hfin)).
  vm_compute. discriminate.
Defined.

(** Reconciling [blog] leaves [sales] as it is stored. *)
Lemma Reconcile_frame_witness :
  wfCluster exampleCluster ∧
  objects (snd (Reconcile (keyOf blog) exampleCluster)) !! keyOf sales = Some sales.
Proof.
  assert (wfCluster exampleCluster) as Hwf by apply wfCluster_mkCluster.
  split; [exact Hwf |].
  rewrite (proj2 (proj2 (Reconcile_frame (keyOf blog) exampleCluster Hwf)) (keyOf sales)).
  - vm_compute. reflexivity.
  - discriminate.
  - intros child Hc.
    assert (objects exampleCluster !! keyOf blog = Some blog) as Hb by (vm_compute; reflexivity).
    rewrite Hb in Hc. injection Hc as <-. vm_compute. discriminate.
Defined.

(** Reconciling the deleted [shop] rewrites [root/example]: what is stored
    under that key afterwards has the annotations and finalizers of the
    parent stored before. *)
Lemma Reconcile_keeps_metadata_witness :
  wfCluster exampleCluster ∧
  objects (snd (Reconcile (keyOf shop) exampleCluster)) !! ("root", "example") =
    Some (stored (setIncludes rootProxy [hogeEntry; newsEntry])) ∧
  ∃ h, objects exampleCluster !! ("root", "example") = Some h ∧
       v1.Annotations (ObjectMeta h) = v1.Annotations (ObjectMeta rootProxy) ∧
       v1.Finalizers (ObjectMeta h) = v1.Finalizers (ObjectMeta rootProxy).
Proof.
  assert (wfCluster exampleCluster) as Hwf by apply wfCluster_mkCluster.
  assert (objects (snd (Reconcile (keyOf shop) exampleCluster)) !! ("root", "example") =
          Some (stored (setIncludes rootProxy [hogeEntry; newsEntry]))) as Hk'
    by (vm_compute; reflexivity).
  split; [exact Hwf |]. split; [exact Hk' |].
  destruct (Reconcile_keeps_metadata (keyOf shop) ("root", "example") _
              exampleCluster Hwf Hk') as (h & Hk & _ & _ & Ha & _ & _ & Hf & _).
  exists h. split; [exact Hk |]. split; [symmetry; exact Ha |].
  symmetry. apply Hf. discriminate.
Defined.

Lemma Reconcile_keeps_unique_entries_witness :
  wfCluster smallCluster ∧
  (∀ k h, objects smallCluster !! k = Some h → uniqueEntries (Includes (Spec h))) ∧
  ∀ k h, objects (snd (Reconcile (keyOf fresh) smallCluster)) !! k = Some h →
         uniqueEntries (Includes (Spec h)).
Proof.
  assert (wfCluster smallCluster) as Hwf by apply wfCluster_mkCluster.
  assert (∀ k h, objects smallCluster !! k = Some h → uniqueEntries (Includes (Spec h))) as Hu.
  { apply mkCluster_lists. eapply Forall_impl; [apply smallCluster_short |].
    intros h. apply uniqueEntries_short. }
  split; [exact Hwf |]. split; [exact Hu |].
  exact (Reconcile_keeps_unique_entries (keyOf fresh) smallCluster Hwf Hu).
Defined.

Lemma Reconcile_keeps_unique_prefixes_witness :
  wfCluster smallCluster ∧
  (∀ k h, objects smallCluster !! k = Some h → uniquePrefixes (Includes (Spec h))) ∧
  ∀ k h, objects (snd (Reconcile (keyOf fresh) smallCluster)) !! k = Some h →
         uniquePrefixes (Includes (Spec h)).
Proof.
  assert (wfCluster smallCluster) as Hwf by apply wfCluster_mkCluster.
  assert (∀ k h, objects smallCluster !! k = Some h → uniquePrefixes (Includes (Spec h))) as Hu.
  { apply mkCluster_lists. eapply Forall_impl; [apply smallCluster_short |].
    intros h. apply uniquePrefixes_short. }
  split; [exact Hwf |]. split; [exact Hu |].
  exact (Reconcile_keeps_unique_prefixes (keyOf fresh) smallCluster Hwf Hu).
Defined.

(** [blog] merged into [root/example] and removed again. *)
Lemma merge_then_cleanup_witness :
  wfCluster exampleCluster ∧
  getParentProxy (parentRefOf blog) exampleCluster = (inr rootProxy, tick exampleCluster) ∧
  reconcileParentProxy blog exampleCluster =
    ((true, None), snd (reconcileParentProxy blog exampleCluster)) ∧
  ∃ s'', cleanupParentProxy blog (snd (reconcileParentProxy blog exampleCluster)) = (None, s'') ∧
         storedIncludes s'' ("root", "example") = Some [hogeEntry; newsEntry; shopEntry].
Proof.
  assert (wfCluster exampleCluster) as Hwf by apply wfCluster_mkCluster.
  assert (getParentProxy (parentRefOf blog) exampleCluster =
          (inr rootProxy, tick exampleCluster)) as Hget by (vm_compute; reflexivity).
  assert (reconcileParentProxy blog exampleCluster =
          ((true, None), snd (reconcileParentProxy blog exampleCluster))) as Hrun
    by (vm_compute; reflexivity).
  split; [exact Hwf |]. split; [exact Hget |]. split; [exact Hrun |].
  refine (merge_then_cleanup blog blog rootProxy exampleCluster (tick exampleCluster) _
            Hwf Hget _ Hrun _ eq_refl eq_refl).
  - other_identities.
  - constructor.
Defined.

Lemma merge_hasInclude_witness :
  getParentProxy (parentRefOf blog) exampleCluster = (inr rootProxy, tick exampleCluster) ∧
  reconcileParentProxy blog exampleCluster =
    ((true, None), snd (reconcileParentProxy blog exampleCluster)) ∧
  ∃ parent',
    objects (snd (reconcileParentProxy blog exampleCluster)) !! ("root", "example") = Some parent' ∧
    hasInclude parent' "blog-team" "blog" "/blog" = true ∧
    hasInclude parent' "hoge" "hoge" "/blog" = false.
Proof.
  assert (getParentProxy (parentRefOf blog) exampleCluster =
          (inr rootProxy, tick exampleCluster)) as Hget by (vm_compute; reflexivity).
  assert (reconcileParentProxy blog exampleCluster =
          ((true, None), snd (reconcileParentProxy blog exampleCluster))) as Hrun
    by (vm_compute; reflexivity).
  split; [exact Hget |]. split; [exact Hrun |].
  destruct (merge_hasInclude blog rootProxy exampleCluster (tick exampleCluster) _ Hget Hrun)
    as (parent' & Hk & Hyes & Hno).
  exists parent'. split; [exact Hk |]. split; [exact Hyes |].
  apply Hno. discriminate.
Defined.

Lemma Reconcile_live_again_witness :
  wfCluster smallCluster ∧ available smallCluster ∧
  objects smallCluster !! keyOf fresh = Some fresh ∧
  storedIncludes (snd (Reconcile (keyOf fresh) (snd (Reconcile (keyOf fresh) smallCluster))))
    ("root", "small") =
  storedIncludes (snd (Reconcile (keyOf fresh) smallCluster)) ("root", "small").
Proof.
  assert (wfCluster smallCluster) as Hwf by apply wfCluster_mkCluster.
  assert (available smallCluster) as Hav by apply available_mkCluster.
  assert (objects smallCluster !! keyOf fresh = Some fresh) as Hk by (vm_compute; reflexivity).
  repeat (split; [assumption |]).
  exact (proj1 (Reconcile_live_again (keyOf fresh) fresh smallCluster Hwf Hav Hk eq_refl)
           ("root", "small")).
Defined.

(** [root/example] of the third store holds two entries for [shop]: the
    first is removed, the second stays behind the entry of [hoge]. *)
Lemma cleanup_removes_one_entry_witness :
  wfCluster doubleCluster ∧
  objects doubleCluster !! parentKey (parentRefOf shop) = Some doubleRoot ∧
  cleanupParentProxy shop doubleCluster = (None, snd (cleanupParentProxy shop doubleCluster)) ∧
  ∃ L', storedIncludes (snd (cleanupParentProxy shop doubleCluster)) ("root", "example") =
          Some L' ∧
        L' = [hogeEntry; storeEntry] ∧
        entriesOf L' (ObjectMeta shop) = [storeEntry].
Proof.
  assert (wfCluster doubleCluster) as Hwf by apply wfCluster_mkCluster.
  assert (objects doubleCluster !! parentKey (parentRefOf shop) = Some doubleRoot) as Hp
    by (vm_compute; reflexivity).
  assert (cleanupParentProxy shop doubleCluster =
          (None, snd (cleanupParentProxy shop doubleCluster))) as Hrun
    by (vm_compute; reflexivity).
  repeat (split; [assumption |]).
  destruct (cleanup_removes_one_entry shop doubleRoot doubleCluster _ Hwf Hp Hrun)
    as (_ & L' & HL' & Hcase & Hrest & _).
  exists L'. split; [exact HL' |]. split; [| rewrite Hrest; reflexivity].
  destruct Hcase as [(Habs & _) | (l1 & e & l2 & HL & He & H1 & -> & _)].
  - exfalso. apply (Habs shopEntry); [left | reflexivity].
  - destruct l1 as [|x l1].
    + injection HL as _ <-. reflexivity.
    + exfalso. injection HL as <- _. apply (H1 shopEntry); [left | reflexivity].
Defined.

(** The deleted [shop]: no error, nothing stored under its key carries the
    finalizer, and [root/example] is left without an entry for it. *)
Lemma Reconcile_terminating_completes_witness :
  wfCluster exampleCluster ∧ available exampleCluster ∧
  objects exampleCluster !! keyOf shop = Some shop ∧
  hasFinalizer shop finalizerName = true ∧
  objects exampleCluster !! parentKey (parentRefOf shop) = Some rootProxy ∧
  fst (Reconcile (keyOf shop) exampleCluster) = (emptyResult, None) ∧
  (∀ h, objects (snd (Reconcile (keyOf shop) exampleCluster)) !! keyOf shop = Some h →
        hasFinalizer h finalizerName = false) ∧
  ∃ Lf, storedIncludes (snd (Reconcile (keyOf shop) exampleCluster)) ("root", "example") =
          Some Lf ∧
        entriesOf Lf (ObjectMeta shop) = [].
Proof.
  assert (wfCluster exampleCluster) as Hwf by apply wfCluster_mkCluster.
  assert (available exampleCluster) as Hav by apply available_mkCluster.
  assert (objects exampleCluster !! keyOf shop = Some shop) as Hk by (vm_compute; reflexivity).
  assert (hasFinalizer shop finalizerName = true) as Hfin by reflexivity.
  assert (objects exampleCluster !! parentKey (parentRefOf shop) = Some rootProxy) as Hp
    by (vm_compute; reflexivity).
  repeat (split; [assumption |]).
  destruct (Reconcile_terminating_completes (keyOf shop) shop rootProxy exampleCluster
              Hwf Hav Hk eq_refl Hfin eq_refl Hp) as (Hres & _ & Hgone & Lf & HLf & Hrest & _).
  - vm_compute. discriminate.
  - reflexivity.
  - split; [exact Hres |]. split; [exact Hgone |].
    exists Lf. split; [exact HLf |]. rewrite Hrest. reflexivity.
Defined.

Lemma Reconcile_active_completes_witness :
  wfCluster smallCluster ∧ available smallCluster ∧
  objects smallCluster !! keyOf fresh = Some fresh ∧
  hasFinalizer fresh finalizerName = false ∧
  objects smallCluster !! parentKey (parentRefOf fresh) = Some smallRoot ∧
  fst (Reconcile (keyOf fresh) smallCluster) = (emptyResult, None) ∧
  length (writes (snd (Reconcile (keyOf fresh) smallCluster))) = 2%nat.
Proof.
  assert (wfCluster smallCluster) as Hwf by apply wfCluster_mkCluster.
  assert (available smallCluster) as Hav by apply available_mkCluster.
  assert (objects smallCluster !! keyOf fresh = Some fresh) as Hk by (vm_compute; reflexivity).
  assert (hasFinalizer fresh finalizerName = false) as Hfin by reflexivity.
  assert (objects smallCluster !! parentKey (parentRefOf fresh) = Some smallRoot) as Hp
    by (vm_compute; reflexivity).
  repeat (split; [assumption |]).
  destruct (Reconcile_active_completes (keyOf fresh) fresh smallRoot smallCluster
              Hwf Hav Hk eq_refl Hfin eq_refl Hp) as (Hres & c' & p' & Hw & _).
  - vm_compute. discriminate.
  - reflexivity.
  - reflexivity.
  - split; [exact Hres |]. rewrite Hw. reflexivity.
Defined.
